(** * CodTech Chat-App: the message lifecycle, conversation identity,
      directory search and profile bootstrap, embedded from the sources.

    The SQL migrations (tables, triggers and the three stored procedures) are
    modelled in [Db] as functions over tables held as lists of rows; the React
    hooks ([useMessages], [useUserSearch], [useAuth]) and the components that
    consume them are modelled in [MessageStore], [Directory] and [Session] as
    state updaters together with a small state-and-error monad that records
    the backend requests a hook issues. *)

From Stdlib Require Import List String Ascii ZArith Lia Bool Sorted Permutation.
From Stdlib Require DecimalString DecimalPos DecimalNat DecimalZ.
Import ListNotations.
Local Open Scope string_scope.
Local Open Scope list_scope.
Local Open Scope Z_scope.

(** ** Shared data *)

(** A [uuid] is kept in its canonical text form, as the client sees it
    ([id: string]).  PostgreSQL compares uuids bytewise, which on the
    canonical lower-case text is the lexicographic order [String.ltb]. *)
Definition uuid := string.

(** Instants in milliseconds, the precision at which the client reads them
    ([new Date(s).getTime()], [Date.now()]).  PostgreSQL keeps a
    [timestamptz] to the microsecond: two rows written within the same
    millisecond carry the same instant here. *)
Definition timestamp := Z.

(** [CREATE TYPE message_status AS ENUM ('sending','sent','delivered','seen')] *)
Inductive message_status := sending | sent | delivered | seen.

(** Position of a status in the enum declaration: the order of the chain. *)
Definition status_rank (s : message_status) : nat :=
  match s with sending => 0 | sent => 1 | delivered => 2 | seen => 3 end%nat.

Definition status_eqb (a b : message_status) : bool :=
  Nat.eqb (status_rank a) (status_rank b).

Definition opt_eqb (o : option uuid) (u : uuid) : bool :=
  match o with Some v => String.eqb v u | None => false end.

Definition is_none {A} (o : option A) : bool :=
  match o with None => true | Some _ => false end.

(** JavaScript's [||] on a possibly missing string: the empty string is
    falsy as well. *)
Definition or_else (o : option string) (d : string) : string :=
  match o with
  | Some s => if String.eqb s "" then d else s
  | None => d
  end.

Definition truthy (o : option string) : bool :=
  match o with
  | Some s => negb (String.eqb s "")
  | None => false
  end.

(** The error object of a failed request. *)
Record api_error := mkError {
  code : string;
  message : string
}.

(** A request to the backend resolves to a [{ data, error }] pair (the client
    library reports a failure in [error] instead of rejecting): a failed
    request is one whose [error] is set. *)
Record reply (A : Type) := mkReply {
  data : option A;
  error : option api_error
}.
Arguments mkReply {A} data error.
Arguments data {A} r.
Arguments error {A} r.

(** A stable sort, as [Array.prototype.sort] is and as a model of [ORDER BY]:
    an element is inserted in front of the first one it is not greater than, so
    elements that compare equal keep the order they had. *)
Section StableSort.
Context {A : Type} (le : A -> A -> bool).

Fixpoint insert_sorted (x : A) (l : list A) : list A :=
  match l with
  | [] => [x]
  | y :: t => if le x y then x :: y :: t else y :: insert_sorted x t
  end.

Definition stable_sort (l : list A) : list A :=
  fold_right insert_sorted [] l.
End StableSort.

Module Db.

(** *** Rows *)

Record profile := mkProfile {
  p_id : uuid;
  username : string;
  full_name : option string;
  avatar_url : option string;
  p_created_at : option timestamp;
  last_seen : option timestamp
}.

Record message := mkMessage {
  id : uuid;
  content : string;
  user_id : uuid;
  recipient_id : option uuid;
  conversation_id : option uuid;
  created_at : timestamp;
  sent_at : option timestamp;
  delivered_at : option timestamp;
  seen_at : option timestamp;
  status : message_status
}.

Record conversation := mkConversation {
  c_id : uuid;
  user1_id : uuid;
  user2_id : uuid;
  c_created_at : timestamp;
  updated_at : timestamp
}.

Record database := mkDb {
  profiles : list profile;
  messages : list message;
  conversations : list conversation
}.

Inductive db_error :=
| unique_violation
| foreign_key_violation
| rls_violation.

Inductive result (A : Type) :=
| Ok (a : A)
| Err (e : db_error).
Arguments Ok {A} a.
Arguments Err {A} e.

(** *** Status procedures *)

Definition set_seen (now : timestamp) (m : message) : message :=
  mkMessage (id m) (content m) (user_id m) (recipient_id m) (conversation_id m)
            (created_at m) (sent_at m) (delivered_at m) (Some now) seen.

Definition set_delivered (now : timestamp) (m : message) : message :=
  mkMessage (id m) (content m) (user_id m) (recipient_id m) (conversation_id m)
            (created_at m) (sent_at m) (Some now) (seen_at m) delivered.

(** The [WHERE] clause of [mark_messages_as_seen]. *)
Definition seen_target (sender_id viewer_id : uuid) (m : message) : bool :=
  String.eqb (user_id m) sender_id
  && opt_eqb (recipient_id m) viewer_id
  && is_none (seen_at m).

(** [UPDATE messages SET seen_at = now(), status = 'seen' WHERE ...] *)
Definition mark_messages_as_seen (sender_id viewer_id : uuid) (now : timestamp)
    (ms : list message) : list message :=
  map (fun m => if seen_target sender_id viewer_id m then set_seen now m else m) ms.

(** The [WHERE] clause of [mark_messages_as_delivered]. *)
Definition delivered_target (p_recipient_id : uuid) (m : message) : bool :=
  opt_eqb (recipient_id m) p_recipient_id
  && status_eqb (status m) sent
  && is_none (delivered_at m).

(** The procedure as the later migration recreates it, with the parameter
    renamed to [p_recipient_id].  (In the first definition the parameter had
    the name of the column [recipient_id], which makes the [WHERE] clause
    ambiguous.) *)
Definition mark_messages_as_delivered (p_recipient_id : uuid) (now : timestamp)
    (ms : list message) : list message :=
  map (fun m => if delivered_target p_recipient_id m then set_delivered now m else m) ms.

(** *** Inserting a message *)

Definition five_minutes : Z := 5 * 60 * 1000.

Definition recently_active (now : timestamp) (recipient : option uuid)
    (p : profile) : bool :=
  opt_eqb recipient (p_id p)
  && match last_seen p with
     | Some t => now - five_minutes <? t
     | None => false
     end.

(** [BEFORE INSERT] trigger [auto_mark_delivered]. *)
Definition auto_mark_delivered (ps : list profile) (now : timestamp)
    (NEW : message) : message :=
  if existsb (recently_active now (recipient_id NEW)) ps
  then mkMessage (id NEW) (content NEW) (user_id NEW) (recipient_id NEW)
                 (conversation_id NEW) (created_at NEW) (sent_at NEW)
                 (Some now) (seen_at NEW) delivered
  else NEW.

(** Row-level security of [conversations]: the table has a policy [FOR
    SELECT] and a policy [FOR INSERT] and none [FOR UPDATE], so an [UPDATE]
    run with the rights of a signed-in user reaches no row. *)
Definition conversations_update_policy (auth_uid : uuid) (c : conversation)
    : bool := false.

(** [AFTER INSERT] trigger [update_conversation_timestamp]
    ([WHEN (NEW.conversation_id IS NOT NULL)]).  The function is not
    [SECURITY DEFINER]: its [UPDATE] runs with the rights of the user
    [auth_uid] who inserts the message, under that row-level security. *)
Definition update_conversation_timestamp (auth_uid : uuid) (now : timestamp)
    (NEW : message) (cs : list conversation) : list conversation :=
  match conversation_id NEW with
  | None => cs
  | Some cid =>
      map (fun c => if String.eqb (c_id c) cid
                       && conversations_update_policy auth_uid c
                    then mkConversation (c_id c) (user1_id c) (user2_id c)
                                        (c_created_at c) now
                    else c) cs
  end.

Definition has_profile (ps : list profile) (u : uuid) : bool :=
  existsb (fun p => String.eqb (p_id p) u) ps.

Definition has_message (ms : list message) (i : uuid) : bool :=
  existsb (fun m => String.eqb (id m) i) ms.

(** What the client puts in [.insert({...})]: the other columns take their
    defaults ([id] from [gen_random_uuid()], [created_at] from [now()]). *)
Record message_insert := mkInsert {
  i_content : string;
  i_user_id : uuid;
  i_recipient_id : option uuid;
  i_conversation_id : option uuid;
  i_status : message_status;
  i_sent_at : option timestamp
}.

(** [INSERT INTO messages ... RETURNING *] run by [auth_uid]: the row-level
    policy is checked on the new row, the primary key when the row enters the
    index, the foreign keys to [profiles] at the end of the statement; the row
    passes through the [BEFORE INSERT] trigger, and the [AFTER INSERT] trigger
    runs once it is in.  [new_id] is the value [gen_random_uuid()] draws. *)
Definition insert_message (auth_uid new_id : uuid) (now : timestamp)
    (ins : message_insert) (db : database) : result (message * database) :=
  if negb (String.eqb auth_uid (i_user_id ins)) then Err rls_violation
  else if has_message (messages db) new_id then Err unique_violation
  else if negb (has_profile (profiles db) (i_user_id ins)) then Err foreign_key_violation
  else if negb (match i_recipient_id ins with
                | Some r => has_profile (profiles db) r
                | None => true
                end) then Err foreign_key_violation
  else
    let NEW := auto_mark_delivered (profiles db) now
                 (mkMessage new_id (i_content ins) (i_user_id ins)
                            (i_recipient_id ins) (i_conversation_id ins) now
                            (i_sent_at ins) None None (i_status ins)) in
    Ok (NEW, mkDb (profiles db) (messages db ++ [NEW])
                  (update_conversation_timestamp auth_uid now NEW (conversations db))).

(** *** Conversations *)

Definition pair_is (a b : uuid) (c : conversation) : bool :=
  String.eqb (user1_id c) a && String.eqb (user2_id c) b.

(** [INSERT INTO conversations (user1_id, user2_id) VALUES (a, b) RETURNING id]
    with the primary key, [UNIQUE(user1_id, user2_id)] and the foreign keys. *)
Definition insert_conversation (new_id : uuid) (now : timestamp) (a b : uuid)
    (db : database) : result (uuid * database) :=
  if existsb (fun c => String.eqb (c_id c) new_id) (conversations db) then Err unique_violation
  else if existsb (pair_is a b) (conversations db) then Err unique_violation
  else if negb (has_profile (profiles db) a && has_profile (profiles db) b)
       then Err foreign_key_violation
  else Ok (new_id, mkDb (profiles db) (messages db)
                        (conversations db ++ [mkConversation new_id a b now now])).

(** The ordered pair [(min_user, max_user)]. *)
Definition canonical_pair (user1 user2 : uuid) : uuid * uuid :=
  if String.ltb user1 user2 then (user1, user2) else (user2, user1).

Definition get_or_create_conversation (new_id : uuid) (now : timestamp)
    (user1 user2 : uuid) (db : database) : result (uuid * database) :=
  let '(min_user, max_user) := canonical_pair user1 user2 in
  match find (pair_is min_user max_user) (conversations db) with
  | Some c => Ok (c_id c, db)
  | None => insert_conversation new_id now min_user max_user db
  end.

(** *** Queries of the message store *)

(** The embedded resource [user_profile:profiles!user_id (username, full_name,
    avatar_url)]. *)
Record user_profile := mkUserProfile {
  up_username : string;
  up_full_name : option string;
  up_avatar_url : option string
}.

Definition joined : Type := message * option user_profile.

Definition join_profile (ps : list profile) (m : message) : joined :=
  (m, option_map (fun p => mkUserProfile (username p) (full_name p) (avatar_url p))
                 (find (fun p => String.eqb (p_id p) (user_id m)) ps)).

(** [or(and(user_id.eq.a, recipient_id.eq.b), and(user_id.eq.b, recipient_id.eq.a))] *)
Definition between (a b : uuid) (m : message) : bool :=
  (String.eqb (user_id m) a && opt_eqb (recipient_id m) b)
  || (String.eqb (user_id m) b && opt_eqb (recipient_id m) a).

Definition created_le (x y : message) : bool := created_at x <=? created_at y.

Definition history_cap : nat := 100.

(** The query of [fetchMessages]: filter, [order('created_at', ascending)],
    [limit(100)], each row joined with its sender's profile. *)
Definition select_thread (cur peer : uuid) (db : database) : list joined :=
  map (join_profile (profiles db))
      (firstn history_cap
              (stable_sort created_le (filter (between cur peer) (messages db)))).

(** [.eq('id', i).single()] *)
Definition select_message (i : uuid) (db : database) : option joined :=
  option_map (join_profile (profiles db))
             (find (fun m => String.eqb (id m) i) (messages db)).

(** The status recorded for message [i], if the table has it. *)
Definition status_of (i : uuid) (ms : list message) : option message_status :=
  option_map status (find (fun m => String.eqb (id m) i) ms).

(** What the application does to the [messages] table: the two status
    procedures and the insert of a new row. *)
Inductive step : database -> database -> Prop :=
| step_seen sender_id viewer_id now db :
    step db (mkDb (profiles db)
                  (mark_messages_as_seen sender_id viewer_id now (messages db))
                  (conversations db))
| step_delivered p_recipient_id now db :
    step db (mkDb (profiles db)
                  (mark_messages_as_delivered p_recipient_id now (messages db))
                  (conversations db))
| step_insert auth_uid new_id now ins m db db' :
    insert_message auth_uid new_id now ins db = Ok (m, db') ->
    step db db'.

Inductive steps : database -> database -> Prop :=
| steps_refl db : steps db db
| steps_cons db1 db2 db3 : step db1 db2 -> steps db2 db3 -> steps db1 db3.

End Db.

(** ** The conversation message store ([useMessages]) *)

Module MessageStore.

(** [type Message = messages Row & { user_profile }]: the shape of what the
    queries return. *)
Definition Message : Type := Db.joined.

Definition msg_id (m : Message) : uuid := Db.id (fst m).
Definition msg_status (m : Message) : message_status := Db.status (fst m).
Definition msg_created_at (m : Message) : timestamp := Db.created_at (fst m).

(** The requests the hook sends to the backend, the subscription it opens and
    the timer it arms. *)
Inductive request :=
| select_thread (cur peer : uuid)
| select_message (i : uuid)
| select_profile (i : uuid)
| insert_message (ins : Db.message_insert)
| update_last_seen (user : uuid)
| rpc_get_or_create_conversation (user1 user2 : uuid)
| rpc_mark_messages_as_seen (sender_id viewer_id : uuid)
| rpc_mark_messages_as_delivered (p_recipient_id : uuid)
| subscribe (channel : string)
| set_timeout (delay : Z) (r : request).

(** The hook's state: [messages], [loading], and the log of what it issued. *)
Record store := mkStore {
  messages : list Message;
  loading : bool;
  issued : list request
}.

Inductive outcome (A : Type) :=
| Done (a : A)
| Thrown (e : api_error).
Arguments Done {A} a.
Arguments Thrown {A} e.

Definition hook (A : Type) : Type := store -> outcome A * store.

Definition ret {A} (a : A) : hook A := fun st => (Done a, st).

Definition bind {A B} (m : hook A) (k : A -> hook B) : hook B :=
  fun st => match m st with
            | (Done a, st') => k a st'
            | (Thrown e, st') => (Thrown e, st')
            end.

Definition throw {A} (e : api_error) : hook A := fun st => (Thrown e, st).

(** [try { body } catch (e) { handler e }] *)
Definition try_catch {A} (body : hook A) (handler : api_error -> hook A) : hook A :=
  fun st => match body st with
            | (Done a, st') => (Done a, st')
            | (Thrown e, st') => handler e st'
            end.

(** [try { body } finally { fin }] *)
Definition finally {A} (body : hook A) (fin : hook unit) : hook A :=
  fun st => match body st with
            | (r, st') => (r, snd (fin st'))
            end.

Notation "x <- m ;; k" := (bind m (fun x => k))
  (at level 61, m at next level, right associativity).
Notation "m ;; k" := (bind m (fun _ => k))
  (at level 61, right associativity).

Definition setMessages (f : list Message -> list Message) : hook unit :=
  fun st => (Done tt, mkStore (f (messages st)) (loading st) (issued st)).

Definition setLoading (b : bool) : hook unit :=
  fun st => (Done tt, mkStore (messages st) b (issued st)).

Definition issue (r : request) : hook unit :=
  fun st => (Done tt, mkStore (messages st) (loading st) (issued st ++ [r])).

Definition when (b : bool) (m : hook unit) : hook unit :=
  if b then m else ret tt.

(** *** Loading history *)

Definition fetchMessages (recipientId currentUser : option uuid)
    (r : reply (list Message)) : hook unit :=
  match recipientId, currentUser with
  | Some peer, Some cur =>
      if String.eqb peer "" then ret tt else
      finally
        (try_catch
           (setLoading true ;;
            issue (select_thread cur peer) ;;
            match error r with
            | Some e => throw e
            | None =>
                setMessages (fun _ => match data r with Some l => l | None => [] end)
            end)
           (fun _ => setMessages (fun _ => [])))
        (setLoading false)
  | _, _ => ret tt
  end.

Definition markMessagesAsSeen (recipientId currentUser : option uuid) : hook unit :=
  match recipientId, currentUser with
  | Some peer, Some cur =>
      if String.eqb peer "" then ret tt
      else issue (rpc_mark_messages_as_seen peer cur)
  | _, _ => ret tt
  end.

Definition markMessagesAsDelivered (currentUser : option uuid) : hook unit :=
  match currentUser with
  | Some cur => issue (rpc_mark_messages_as_delivered cur)
  | None => ret tt
  end.

Definition updateLastSeen (userId : uuid) : hook unit :=
  issue (update_last_seen userId).

(** The body of the effect that runs when [recipientId], [currentUser] or
    [authLoading] change. *)
Definition useMessages_effect (recipientId : option uuid) (authLoading : bool)
    (currentUser : option uuid) (r : reply (list Message)) : hook unit :=
  if negb (truthy recipientId) then
    setMessages (fun _ => []) ;; setLoading false
  else if authLoading || is_none currentUser then
    setLoading true
  else
    fetchMessages recipientId currentUser r ;;
    markMessagesAsSeen recipientId currentUser ;;
    issue (subscribe "public:messages").

Definition refreshMessages (recipientId currentUser : option uuid)
    (r : reply (list Message)) : hook unit :=
  if truthy recipientId && negb (is_none currentUser) then
    fetchMessages recipientId currentUser r ;;
    markMessagesAsSeen recipientId currentUser
  else ret tt.

(** *** Realtime events *)

Definition isRelevantMessage (cur peer : uuid) (payload : Db.message) : bool :=
  (String.eqb (Db.user_id payload) cur && opt_eqb (Db.recipient_id payload) peer)
  || (String.eqb (Db.user_id payload) peer && opt_eqb (Db.recipient_id payload) cur).

Definition created_le (a b : Message) : bool :=
  msg_created_at a <=? msg_created_at b.

(** The updater of the [INSERT] handler. *)
Definition apply_insert (d : Message) (prev : list Message) : list Message :=
  if existsb (fun msg => String.eqb (msg_id msg) (msg_id d)) prev then prev
  else stable_sort created_le (prev ++ [d]).

(** The updater of the [UPDATE] handler. *)
Definition apply_update (d : Message) (prev : list Message) : list Message :=
  map (fun msg => if String.eqb (msg_id msg) (msg_id d) then d else msg) prev.

Definition on_insert (cur peer : uuid) (payload : Db.message)
    (r : reply Message) : hook unit :=
  when (isRelevantMessage cur peer payload)
    (issue (select_message (Db.id payload)) ;;
     match error r, data r with
     | None, Some d =>
         setMessages (apply_insert d) ;;
         when (String.eqb (Db.user_id payload) peer)
              (issue (set_timeout 1000 (rpc_mark_messages_as_seen peer cur)))
     | _, _ => ret tt
     end).

Definition on_update (cur peer : uuid) (payload : Db.message)
    (r : reply Message) : hook unit :=
  when (isRelevantMessage cur peer payload)
    (issue (select_message (Db.id payload)) ;;
     match error r, data r with
     | None, Some d => setMessages (apply_update d)
     | _, _ => ret tt
     end).

(** *** Sending *)

(** [`temp-${Date.now()}`] *)
Definition temp_id (now : timestamp) : uuid :=
  String.append "temp-" (DecimalString.NilZero.string_of_int (Z.to_int now)).

(** What one call of [sendMessage] reads from outside: the clock (for the
    temporary id, for [created_at] and for [sent_at]) and the replies of its
    three awaited requests. *)
Record send_env := mkSendEnv {
  date_now : timestamp;
  created_now : timestamp;
  sent_now : timestamp;
  profile_reply : reply Db.user_profile;
  conversation_reply : reply uuid;
  insert_reply : reply Message
}.

Definition optimisticMessage (content : string) (userId recipientId : uuid)
    (env : send_env) : Message :=
  let p := data (profile_reply env) in
  (Db.mkMessage (temp_id (date_now env)) content userId (Some recipientId) None
                (created_now env) None None None sending,
   Some (Db.mkUserProfile
           (or_else (option_map Db.up_username p) "user")
           (match p with
            | Some q => if truthy (Db.up_full_name q) then Db.up_full_name q else None
            | None => None
            end)
           (match p with
            | Some q => if truthy (Db.up_avatar_url q) then Db.up_avatar_url q else None
            | None => None
            end))).

Definition remove_optimistic (tid : uuid) (prev : list Message) : list Message :=
  filter (fun msg => negb (String.eqb (msg_id msg) tid)) prev.

Definition replace_optimistic (tid : uuid) (sentMessage : Message)
    (prev : list Message) : list Message :=
  map (fun msg => if String.eqb (msg_id msg) tid then sentMessage else msg) prev.

(** The row handed to [.insert({...})]: [status: 'sent'],
    [conversation_id: conversationId || null]. *)
Definition send_insert (content : string) (userId recipientId : uuid)
    (env : send_env) : Db.message_insert :=
  Db.mkInsert content userId (Some recipientId)
              (if truthy (data (conversation_reply env))
               then data (conversation_reply env) else None)
              sent (Some (sent_now env)).

Definition sendMessage (currentUser : option uuid) (content : string)
    (userId recipientId : uuid) (env : send_env) : hook unit :=
  try_catch
    (issue (select_profile userId) ;;
     let opt := optimisticMessage content userId recipientId env in
     setMessages (fun prev => prev ++ [opt]) ;;
     issue (rpc_get_or_create_conversation userId recipientId) ;;
     issue (insert_message (send_insert content userId recipientId env)) ;;
     match error (insert_reply env) with
     | Some e =>
         setMessages (remove_optimistic (msg_id opt)) ;;
         throw e
     | None =>
         match data (insert_reply env) with
         | Some sentMessage => setMessages (replace_optimistic (msg_id opt) sentMessage)
         | None => ret tt
         end ;;
         updateLastSeen userId ;;
         markMessagesAsDelivered currentUser
     end)
    (fun e => throw e).

End MessageStore.

(** ** Directory search ([useUserSearch] and the [UserSearch] dropdown) *)

Module Directory.

(** Texts are held in UTF-8, as the database stores them and as the requests
    carry them: a character takes one to four bytes, of which only the first
    is not a continuation byte. *)
Definition chars (s : string) : list ascii := list_ascii_of_string s.

Definition byte (c : ascii) : N := N_of_ascii c.

(** *** White space *)

(** The white space [String.prototype.trim] removes, by the bytes of its
    characters: tab, line feed, vertical tab, form feed, carriage return and
    space; U+00A0; U+1680, U+2000 to U+200A, U+2028, U+2029, U+202F, U+205F,
    U+3000 and U+FEFF. *)
Definition space1 (c1 : ascii) : bool :=
  ((9 <=? byte c1) && (byte c1 <=? 13) || (byte c1 =? 32))%N.

Definition space2 (c1 c2 : ascii) : bool :=
  ((byte c1 =? 194) && (byte c2 =? 160))%N.

Definition space3 (c1 c2 c3 : ascii) : bool :=
  ((byte c1 =? 225) && (byte c2 =? 154) && (byte c3 =? 128)
   || (byte c1 =? 226) && (byte c2 =? 128)
      && ((128 <=? byte c3) && (byte c3 <=? 138)
          || (byte c3 =? 168) || (byte c3 =? 169) || (byte c3 =? 175))
   || (byte c1 =? 226) && (byte c2 =? 129) && (byte c3 =? 159)
   || (byte c1 =? 227) && (byte c2 =? 128) && (byte c3 =? 128)
   || (byte c1 =? 239) && (byte c2 =? 187) && (byte c3 =? 191))%N.

(** The text is made of white space only. *)
Fixpoint blank_chars (l : list ascii) : bool :=
  match l with
  | [] => true
  | c1 :: t1 =>
      if space1 c1 then blank_chars t1
      else match t1 with
           | [] => false
           | c2 :: t2 =>
               if space2 c1 c2 then blank_chars t2
               else match t2 with
                    | [] => false
                    | c3 :: t3 => space3 c1 c2 c3 && blank_chars t3
                    end
           end
  end.

(** [String.prototype.trimStart] *)
Fixpoint trim_start (l : list ascii) : list ascii :=
  match l with
  | [] => []
  | c1 :: t1 =>
      if space1 c1 then trim_start t1
      else match t1 with
           | [] => l
           | c2 :: t2 =>
               if space2 c1 c2 then trim_start t2
               else match t2 with
                    | [] => l
                    | c3 :: t3 => if space3 c1 c2 c3 then trim_start t3 else l
                    end
           end
  end.

(** [String.prototype.trimEnd]: the text up to where only white space
    follows. *)
Fixpoint trim_end (l : list ascii) : list ascii :=
  match l with
  | [] => []
  | c :: t => if blank_chars l then [] else c :: trim_end t
  end.

(** [s.trim()] *)
Definition trim (s : string) : string :=
  string_of_list_ascii (trim_end (trim_start (chars s))).

(** [!s.trim()] *)
Definition blank (s : string) : bool := blank_chars (chars s).

(** [searchTerm.startsWith('@') ? searchTerm.slice(1) : searchTerm] *)
Definition cleanUsername (searchTerm : string) : string :=
  match searchTerm with
  | String "@" rest => rest
  | _ => searchTerm
  end.

(** *** The backend's [ILIKE] *)

(** A byte [10xxxxxx]: inside a character, never at its start. *)
Definition continuation (c : ascii) : bool :=
  ((128 <=? byte c) && (byte c <? 192))%N.

(** The text from its next character on, once a first byte was taken. *)
Fixpoint skip_continuation (s : list ascii) : list ascii :=
  match s with
  | [] => []
  | c :: t => if continuation c then skip_continuation t else s
  end.

(** [LIKE] on UTF-8 texts: [%] matches any run of characters, [_] any one
    character, and a backslash takes the byte after it literally; the other
    bytes of the pattern match themselves.  A pattern that ends in a lone
    backslash is an error in PostgreSQL, after which the hook shows no
    result: here it matches nothing. *)
Fixpoint like (p : list ascii) : list ascii -> bool :=
  match p with
  | [] => fun s => match s with [] => true | _ :: _ => false end
  | c :: p' =>
      if Ascii.eqb c "%" then
        fun s =>
          like p' s
          || (fix skip (s : list ascii) : bool :=
                match s with
                | [] => false
                | _ :: s' =>
                    match s' with
                    | [] => like p' []
                    | x :: _ => negb (continuation x) && like p' s'
                    end || skip s'
                end) s
      else if Ascii.eqb c "_" then
        fun s => match s with
                 | [] => false
                 | _ :: s' => like p' (skip_continuation s')
                 end
      else if Ascii.eqb c "\" then
        match p' with
        | [] => fun _ => false
        | e :: p'' =>
            fun s => match s with
                     | [] => false
                     | x :: s' => Ascii.eqb x e && like p'' s'
                     end
        end
      else
        fun s => match s with
                 | [] => false
                 | x :: s' => Ascii.eqb x c && like p' s'
                 end
  end.

(** The REST layer reads [*] in a [like]/[ilike] pattern as [%]. *)
Definition rest_pattern (p : list ascii) : list ascii :=
  map (fun c => if Ascii.eqb c "*" then "%"%char else c) p.

Section Locale.

(** The locale of the database, which the migrations do not fix: what
    [lower()] makes of a text, and whether the collation puts a text before
    another or takes them as equal. *)
Variable fold : list ascii -> list ascii.
Variable collate : string -> string -> bool.

(** [ILIKE]: [LIKE] on the lower-cased pattern and text. *)
Definition ilike (pattern text : string) : bool :=
  like (fold (rest_pattern (chars pattern))) (fold (chars text)).

(** [ORDER BY username] *)
Definition username_le (a b : Db.profile) : bool :=
  collate (Db.username a) (Db.username b).

Definition search_cap : nat := 10.

(** [from('profiles').select('*').ilike('username', pattern).order('username')
    .limit(10)] *)
Definition search_profiles (ps : list Db.profile) (pattern : string)
    : reply (list Db.profile) :=
  mkReply (Some (firstn search_cap
                   (stable_sort username_le
                      (filter (fun p => ilike pattern (Db.username p)) ps))))
          None.

End Locale.

(** The locale C, for the examples: [lower()] folds the ASCII letters and the
    collation compares byte by byte. *)
Definition lower (c : ascii) : ascii :=
  if ((65 <=? byte c) && (byte c <=? 90))%N then ascii_of_N (byte c + 32) else c.

(** The characters that are not taken literally in the pattern of a search. *)
Definition wildcard (c : ascii) : bool :=
  Ascii.eqb c "%" || Ascii.eqb c "_" || Ascii.eqb c "\" || Ascii.eqb c "*".

Definition plain (l : list ascii) : bool := forallb (fun c => negb (wildcard c)) l.

(** *** The hook *)

Record search_state := mkSearch {
  searchResults : list Db.profile;
  loading : bool;
  search_error : option string
}.

Definition searchUserByUsername (searchTerm : string)
    (backend : string -> reply (list Db.profile)) (st : search_state)
    : search_state :=
  if blank searchTerm then mkSearch [] (loading st) (search_error st)
  else
    let cleaned := cleanUsername searchTerm in
    if blank cleaned then mkSearch [] false None
    else
      let r := backend (String.append "%" (String.append cleaned "%")) in
      match error r with
      | Some e => mkSearch [] false (Some (message e))
      | None => mkSearch (match data r with Some l => l | None => [] end) false None
      end.

Definition clearSearch (st : search_state) : search_state :=
  mkSearch [] (loading st) None.

(** *** The dropdown *)

Definition is_self (currentUserId : option uuid) (user : Db.profile) : bool :=
  match currentUserId with
  | Some me => String.eqb (Db.p_id user) me
  | None => false
  end.

(** [searchResults.filter(user => user.id !== currentUserId)]: the rows the
    dropdown renders as buttons. *)
Definition filteredResults (currentUserId : option uuid) (st : search_state)
    : list Db.profile :=
  filter (fun user => negb (is_self currentUserId user)) (searchResults st).

(** [handleSelectUser]: the profile handed to [onSelectUser], if any. *)
Definition handleSelectUser (currentUserId : option uuid) (user : Db.profile)
    : option Db.profile :=
  if negb (is_self currentUserId user) then Some user else None.

End Directory.

(** ** Session bootstrap ([useAuth] and the profile of [ChatRoom]) *)

Module Session.

(** The authenticated identity, with the metadata attached at sign-up. *)
Record User := mkUser {
  u_id : uuid;
  email : option string;
  meta_username : option string;
  meta_full_name : option string
}.

(** [s.split('@')[0]] *)
Fixpoint before_at (s : string) : string :=
  match s with
  | EmptyString => EmptyString
  | String c rest => if Ascii.eqb c "@" then EmptyString else String c (before_at rest)
  end.

(** [user.email?.split('@')[0]] *)
Definition email_local (user : User) : option string :=
  option_map before_at (email user).

(** [user.user_metadata?.username || user.email?.split('@')[0] ||
     `user_${user.id.slice(0, 8)}`] *)
Definition default_username (user : User) : string :=
  or_else (meta_username user)
    (or_else (email_local user)
       (String.append "user_" (substring 0 8 (u_id user)))).

(** [user.user_metadata?.full_name || user.user_metadata?.username ||
     user.email?.split('@')[0] || 'User'] *)
Definition default_full_name (user : User) : string :=
  or_else (meta_full_name user)
    (or_else (meta_username user)
       (or_else (email_local user) "User")).

Record profile_insert := mkProfileInsert {
  pi_id : uuid;
  pi_username : string;
  pi_full_name : string;
  pi_last_seen : option timestamp
}.

Inductive request :=
| get_session
| select_profile (i : uuid)
| insert_profile (ins : profile_insert)
| update_last_seen (i : uuid)
| set_interval (period : Z) (r : request).

(** What a function of the provider does, in order: a request it sends or an
    interval it arms itself, or a call it starts without awaiting it, with
    the requests that call sends while the function goes on. *)
Inductive effect :=
| direct (r : request)
| detached (rs : list request).

(** [ensureProfileExists]: what it returns ([None] for [null]) and what it
    sent.  No path of it throws. *)
Definition ensureProfileExists (user : User) (now : timestamp)
    (fetch create : reply Db.profile) : option Db.profile * list request :=
  match data fetch, error fetch with
  | Some existingProfile, None =>
      (Some existingProfile, [select_profile (u_id user); update_last_seen (u_id user)])
  | None, _ =>
      let ins := mkProfileInsert (u_id user) (default_username user)
                                 (default_full_name user) (Some now) in
      (match error create with
       | Some _ => None
       | None => data create
       end,
       [select_profile (u_id user); insert_profile ins])
  | Some _, Some _ => (None, [select_profile (u_id user)])
  end.

Record auth_state := mkAuth {
  user : option User;
  loading : bool;
  auth_error : option string
}.

Definition heartbeat : Z := 2 * 60 * 1000.

(** [initializeAuth] of a mounted provider: the state it leaves and what it
    did.  [ensureProfileExists(session.user)] is called and not awaited, and
    its result is not used; the interval is armed right after the call. *)
Definition initializeAuth (supabaseUrl supabaseAnonKey : option string)
    (session : reply User) (now : timestamp) (fetch create : reply Db.profile)
    : auth_state * list effect :=
  if negb (truthy supabaseUrl && truthy supabaseAnonKey) then
    (mkAuth None false
       (Some (String.append "Initialization error: "
                "Supabase configuration is missing. Please check your environment variables.")),
     [])
  else
    match error session with
    | Some e =>
        (mkAuth None false (Some (String.append "Authentication error: " (message e))),
         [direct get_session])
    | None =>
        match data session with
        | Some u =>
            (mkAuth (Some u) false None,
             [direct get_session;
              detached (snd (ensureProfileExists u now fetch create));
              direct (set_interval heartbeat (update_last_seen (u_id u)))])
        | None => (mkAuth None false None, [direct get_session])
        end
    end.

(** The minimal profile [ChatRoom] builds locally. *)
Definition placeholder (user : User) (now : timestamp) : Db.profile :=
  Db.mkProfile (u_id user)
               (or_else (email_local user) "user")
               (Some (or_else (email_local user) "User"))
               None (Some now) None.

(** [fetchCurrentUserProfile] of [ChatRoom]: the value of [currentUserProfile]
    it leaves, from the value [current] it found. *)
Definition fetchCurrentUserProfile (user : option User) (now : timestamp)
    (fetch create : reply Db.profile) (current : option Db.profile)
    : option Db.profile :=
  match user with
  | None => current
  | Some u =>
      match error fetch with
      | Some e =>
          if String.eqb (code e) "PGRST116" || is_none (data fetch) then
            match error create with
            | Some _ => Some (placeholder u now)
            | None => data create
            end
          else current
      | None =>
          match data fetch with
          | Some p => Some p
          | None => Some (placeholder u now)
          end
      end
  end.

End Session.

(** ** The backend seen from the client

    How the tables answer the requests of the message store: the reply the
    client gets is the outcome of the query or procedure on the database. *)

Module Backend.

Definition api_error_of (e : Db.db_error) : api_error :=
  match e with
  | Db.unique_violation =>
      mkError "23505" "duplicate key value violates unique constraint"
  | Db.foreign_key_violation =>
      mkError "23503" "insert or update on table violates foreign key constraint"
  | Db.rls_violation =>
      mkError "42501" "new row violates row-level security policy"
  end.

(** The clock and the random uuids the server draws while it serves one
    [sendMessage]. *)
Record server_draw := mkDraw {
  server_now : timestamp;
  new_conversation_id : uuid;
  new_message_id : uuid
}.

(** The reply to [fetchMessages]. *)
Definition serve_thread (cur peer : uuid) (db : Db.database)
    : reply (list MessageStore.Message) :=
  mkReply (Some (Db.select_thread cur peer db)) None.

(** The reply to the re-fetch of one message by a realtime handler. *)
Definition serve_message (i : uuid) (db : Db.database)
    : reply MessageStore.Message :=
  match Db.select_message i db with
  | Some d => mkReply (Some d) None
  | None => mkReply None (Some (mkError "PGRST116" "no rows returned"))
  end.

(** The three replies [sendMessage] awaits, served in order by [db] for the
    signed-in user [auth_uid] whose clock reads [t_id], [t_created], [t_sent],
    and the database the requests leave. *)
Definition serve_send (auth_uid : uuid) (draw : server_draw)
    (t_id t_created t_sent : timestamp) (content : string)
    (userId recipientId : uuid) (db : Db.database)
    : MessageStore.send_env * Db.database :=
  let prof :=
    option_map (fun p => Db.mkUserProfile (Db.username p) (Db.full_name p)
                                         (Db.avatar_url p))
               (find (fun p => String.eqb (Db.p_id p) userId) (Db.profiles db)) in
  let profile_reply :=
    match prof with
    | Some q => mkReply (Some q) None
    | None => mkReply None (Some (mkError "PGRST116" "no rows returned"))
    end in
  let '(conversation_reply, db1) :=
    match Db.get_or_create_conversation (new_conversation_id draw)
            (server_now draw) userId recipientId db with
    | Db.Ok (c, db') => (mkReply (Some c) None, db')
    | Db.Err e => (mkReply None (Some (api_error_of e)), db)
    end in
  let env0 :=
    MessageStore.mkSendEnv t_id t_created t_sent profile_reply
                           conversation_reply (mkReply None None) in
  match Db.insert_message auth_uid (new_message_id draw) (server_now draw)
          (MessageStore.send_insert content userId recipientId env0) db1 with
  | Db.Ok (m, db2) =>
      (MessageStore.mkSendEnv t_id t_created t_sent profile_reply conversation_reply
         (mkReply (Some (Db.join_profile (Db.profiles db2) m)) None),
       db2)
  | Db.Err e =>
      (MessageStore.mkSendEnv t_id t_created t_sent profile_reply conversation_reply
         (mkReply None (Some (api_error_of e))),
       db1)
  end.

End Backend.

(** ** Vocabulary of the properties *)

(** [m'] is the row [m] at a later time: same id, status not lower. *)
Definition advances (m m' : Db.message) : Prop :=
  Db.id m' = Db.id m
  /\ (status_rank (Db.status m) <= status_rank (Db.status m'))%nat.

(** No entry of the list is held under the id [tid]. *)
Definition fresh_id (tid : uuid) (prev : list MessageStore.Message) : Prop :=
  Forall (fun msg => MessageStore.msg_id msg <> tid) prev.

(** The row [c] is a conversation of the two users, in either column order. *)
Definition links (a b : uuid) (c : Db.conversation) : bool :=
  Db.pair_is a b c || Db.pair_is b a c.

Definition participants (c : Db.conversation) : uuid * uuid :=
  (Db.user1_id c, Db.user2_id c).

(** The state of the [conversations] table the procedure maintains: every row
    has its smaller participant first, and no ordered pair occurs twice
    ([UNIQUE(user1_id, user2_id)]). *)
Definition canonical_table (cs : list Db.conversation) : Prop :=
  Forall (fun c => String.ltb (Db.user2_id c) (Db.user1_id c) = false) cs
  /\ NoDup (map participants cs).

(** [a] was created no later than [b]. *)
Definition not_after (a b : Db.message) : Prop := Db.created_at a <= Db.created_at b.

(** Where the stable sort puts an element that was appended to a sorted list:
    behind every element it is not smaller than. *)
Fixpoint insert_last {A} (le : A -> A -> bool) (x : A) (l : list A) : list A :=
  match l with
  | [] => [x]
  | y :: t => if le y x then y :: insert_last le x t else x :: y :: t
  end.

(** The list after the insert events [events] were applied in that order. *)
Definition apply_inserts (events : list MessageStore.Message)
    (prev : list MessageStore.Message) : list MessageStore.Message :=
  fold_left (fun l d => MessageStore.apply_insert d l) events prev.

Definition has_id (i : uuid) (l : list MessageStore.Message) : bool :=
  existsb (fun msg => String.eqb (MessageStore.msg_id msg) i) l.

(** The message was created in the millisecond [t]: the comparator of the
    list reads [created_at] through [Date.getTime()], so to it the messages
    of one millisecond are created at the same time. *)
Definition created_in (t : timestamp) (msg : MessageStore.Message) : bool :=
  MessageStore.msg_created_at msg =? t.

(** The text is empty or starts with the first byte of a character. *)
Definition starts_character (l : list ascii) : Prop :=
  match l with
  | [] => True
  | c :: _ => Directory.continuation c = false
  end.

(** Where a [%] may stop: at the start of the text, at its end, and in front
    of every first byte of a character. *)
Definition boundary (pre post : list ascii) : Prop :=
  pre = [] \/ starts_character post.

(** What the properties about terms without pattern characters ask of the
    case folding: it leaves a [%] at either end where it is, and makes no
    pattern character out of another character. *)
Definition respects_patterns (fold : list ascii -> list ascii) : Prop :=
  (forall l, fold ("%"%char :: l ++ ["%"%char]) = "%"%char :: fold l ++ ["%"%char])
  /\ (forall l, Directory.plain l = true -> Directory.plain (fold l) = true).

(** The text contains the term, up to case. *)
Definition contains_ci (fold : list ascii -> list ascii) (term text : string)
    : Prop :=
  exists pre post : list ascii,
    fold (Directory.chars text) = pre ++ fold (Directory.chars term) ++ post.

(** The inner loop of [%]: the positions after the first byte. *)
Definition later (p : list ascii) : list ascii -> bool :=
  fix skip (s : list ascii) : bool :=
    match s with
    | [] => false
    | _ :: s' =>
        match s' with
        | [] => Directory.like p []
        | x :: _ => negb (Directory.continuation x) && Directory.like p s'
        end || skip s'
    end.

(** The text starts with a white-space character. *)
Definition space_head (l : list ascii) : bool :=
  match l with
  | [] => false
  | c1 :: t1 =>
      Directory.space1 c1
      || match t1 with
         | [] => false
         | c2 :: t2 =>
             Directory.space2 c1 c2
             || match t2 with
                | [] => false
                | c3 :: _ => Directory.space3 c1 c2 c3
                end
         end
  end.

(** ** Sample data *)

Module Sample.

(** The locale C. *)
Definition fold : list ascii -> list ascii := map Directory.lower.
Definition collate : string -> string -> bool := String.leb.

Definition alice : uuid := "0a000000-0000-4000-8000-000000000001".
Definition bob : uuid := "0b000000-0000-4000-8000-000000000002".
Definition carol : uuid := "0c000000-0000-4000-8000-000000000003".
Definition dave : uuid := "0d000000-0000-4000-8000-000000000004".

Definition noon : timestamp := 1751198400000.

Definition person (i : uuid) (handle : string) (seen : option timestamp)
    : Db.profile :=
  Db.mkProfile i handle None None (Some 0) seen.

(** Bob was active a minute before noon; Alice and Carol were not. *)
Definition people : list Db.profile :=
  [person alice "alice" None;
   person bob "bob" (Some (noon - 60000));
   person carol "carol" None].

Definition db0 : Db.database := Db.mkDb people [] [].

Definition draw1 : Backend.server_draw :=
  Backend.mkDraw noon "c0000000-0000-4000-8000-000000000001"
                 "e0000000-0000-4000-8000-000000000001".

Definition empty_store : MessageStore.store := MessageStore.mkStore [] false [].

(** A message of the thread, by its id, sender, recipient, instant and status. *)
Definition note (i from to : uuid) (t : timestamp) (s : message_status)
    : Db.message :=
  Db.mkMessage i "hi" from (Some to) None t (Some t) None None s.

(** The id of the [k]-th message of a long thread. *)
Definition nth_id (k : nat) : uuid :=
  String.append "f0000000-0000-4000-8000-000000000"
    (substring 1 3 (DecimalString.NilZero.string_of_uint (Nat.to_uint (1000 + k)))).

(** A thread of [n] messages between Alice and Bob, one per millisecond from
    noon, the two taking turns; the table holds the newest first. *)
Definition thread (n : nat) : list Db.message :=
  map (fun k => if Nat.even k
                then note (nth_id k) alice bob (noon + Z.of_nat k) sent
                else note (nth_id k) bob alice (noon + Z.of_nat k) sent)
      (rev (seq 0 n)).

Definition long_db : Db.database := Db.mkDb people (thread 101) [].

(** Alice sends "hi" to Bob at noon; the backend serves the three requests. *)
Definition hi_served : MessageStore.send_env * Db.database :=
  Backend.serve_send alice draw1 noon noon (noon + 40) "hi" alice bob db0.

(** Alice sends "hi" to Dave, who has no profile. *)
Definition lost_served : MessageStore.send_env * Db.database :=
  Backend.serve_send alice draw1 noon noon (noon + 40) "hi" alice dave db0.

(** Alice's thread with Bob already shows one earlier message. *)
Definition one_message_store : MessageStore.store :=
  MessageStore.mkStore
    [Db.join_profile people (note (nth_id 0) bob alice (noon - 5000) seen)]
    false [].

(** Erin signed up with an e-mail address and no metadata. *)
Definition erin : Session.User :=
  Session.mkUser "0e000000-0000-4000-8000-000000000005" (Some "erin@example.org")
                 None None.

Definition no_row : reply Db.profile := mkReply None None.

Definition refused : reply Db.profile :=
  mkReply None (Some (Backend.api_error_of Db.unique_violation)).

Definition idle_search : Directory.search_state := Directory.mkSearch [] false None.

End Sample.

(** ** More of the code

    The rest of the migrations and of the components that sit around the
    hooks: the sign-up trigger, the list of recent users, the exact lookup and
    the keyboard of the search dropdown, the composer, and the heartbeat of
    the session provider. *)

(** The row recorded for message [i], if the table has it. *)
Definition row_of (i : uuid) (ms : list Db.message) : option Db.message :=
  find (fun m => String.eqb (Db.id m) i) ms.

(** Every message is from a user with a profile, and to one if it has a
    recipient (the two foreign keys of [messages]). *)
Definition references_hold (db : Db.database) : Prop :=
  Forall (fun m => Db.has_profile (Db.profiles db) (Db.user_id m) = true
                   /\ match Db.recipient_id m with
                      | Some r => Db.has_profile (Db.profiles db) r = true
                      | None => True
                      end)
         (Db.messages db).

(** [m'] is what became of the row [m]: what the sender wrote is the same,
    a milestone that was set is still the same, the status is not lower. *)
Definition later_version (m m' : Db.message) : Prop :=
  Db.id m' = Db.id m
  /\ Db.content m' = Db.content m
  /\ Db.user_id m' = Db.user_id m
  /\ Db.recipient_id m' = Db.recipient_id m
  /\ Db.conversation_id m' = Db.conversation_id m
  /\ Db.created_at m' = Db.created_at m
  /\ Db.sent_at m' = Db.sent_at m
  /\ (forall t, Db.delivered_at m = Some t -> Db.delivered_at m' = Some t)
  /\ (forall t, Db.seen_at m = Some t -> Db.seen_at m' = Some t)
  /\ (status_rank (Db.status m) <= status_rank (Db.status m'))%nat.

(** How many entries the list holds under the id [i]. *)
Definition count_id (i : uuid) (l : list MessageStore.Message) : nat :=
  List.length (filter (fun msg => String.eqb (MessageStore.msg_id msg) i) l).

(** [n] rendered in decimal ([counter::text], [`${n}`]). *)
Definition decimal (n : nat) : string :=
  DecimalString.NilZero.string_of_uint (Nat.to_uint n).

(** *** The sign-up trigger ([handle_new_user], last migration) *)

Module Signup.

Inductive signup_error :=
| not_null_violation
| duplicate_key
| still_looping.

Inductive outcome :=
| Created (ps : list Db.profile)
| Raised (e : signup_error).

Definition username_taken (ps : list Db.profile) (name : string) : bool :=
  existsb (fun p => String.eqb (Db.username p) name) ps.

(** [WHILE EXISTS (SELECT 1 FROM profiles WHERE username = username_value) LOOP
     counter := counter + 1; username_value := base_username || counter::text;
     END LOOP], cut after [rounds] further rounds. *)
Fixpoint free_username (rounds : nat) (ps : list Db.profile) (base_username : string)
    (counter : nat) (username_value : string) : option string :=
  if username_taken ps username_value then
    match rounds with
    | O => None
    | S r => free_username r ps base_username (S counter)
               (String.append base_username (decimal (S counter)))
    end
  else Some username_value.

(** The name the trigger starts from: the [username] of the metadata, or the
    part of the e-mail before the first [@] when that is null or empty. *)
Definition base_username (NEW : Session.User) : option string :=
  if truthy (Session.meta_username NEW) then Session.meta_username NEW
  else Session.email_local NEW.

(** [handle_new_user], run after the insert of [NEW] into [auth.users].  A
    null name makes the insert fail on [NOT NULL], a known id on the primary
    key; either error is raised again, so the sign-up fails.  The loop is run
    for as many rounds as the table has rows, which is enough
    ([free_username_found]). *)
Definition handle_new_user (NEW : Session.User) (now : timestamp)
    (ps : list Db.profile) : outcome :=
  match base_username NEW with
  | None => Raised not_null_violation
  | Some base =>
      match free_username (List.length ps) ps base 0 base with
      | None => Raised still_looping
      | Some username_value =>
          if Db.has_profile ps (Session.u_id NEW) then Raised duplicate_key
          else Created
                 (ps ++ [Db.mkProfile (Session.u_id NEW) username_value
                           (Some (match Session.meta_full_name NEW with
                                  | Some s => s
                                  | None => ""
                                  end))
                           None (Some now) None])
      end
  end.

End Signup.

(** *** Writes to [profiles] *)

Module Accounts.

(** The rows an [UPDATE ... WHERE id = userId] run by [auth_uid] reaches: the
    policy "Users can update their own profile" is [auth.uid() = id]. *)
Definition own_row (auth_uid userId : uuid) (p : Db.profile) : bool :=
  String.eqb (Db.p_id p) userId && String.eqb (Db.p_id p) auth_uid.

Definition same_instant (o : option timestamp) (t : timestamp) : bool :=
  match o with Some x => x =? t | None => false end.

(** [from('profiles').update({ last_seen: sent }).eq('id', userId)]
    ([updateLastSeen] of [useMessages] and of [useAuth]).  The [BEFORE
    UPDATE] trigger [update_last_seen_trigger] fires [WHEN (OLD.last_seen IS
    DISTINCT FROM NEW.last_seen)] and puts the server's [now()] in place of
    the instant the client sent. *)
Definition update_last_seen (auth_uid userId : uuid) (sent now : timestamp)
    (ps : list Db.profile) : list Db.profile :=
  map (fun p => if own_row auth_uid userId p
                then Db.mkProfile (Db.p_id p) (Db.username p) (Db.full_name p)
                       (Db.avatar_url p) (Db.p_created_at p)
                       (Some (if same_instant (Db.last_seen p) sent
                              then sent else now))
                else p) ps.

(** What [handleSave] of [ProfileModal] writes. *)
Record profile_edit := mkEdit {
  e_full_name : option string;
  e_username : string;
  e_avatar_url : option string
}.

(** [from('profiles').update({ full_name, username, avatar_url })
    .eq('id', userId)]: [username] is [UNIQUE]; [last_seen] is not written,
    so the trigger does not fire. *)
Definition save_profile (auth_uid userId : uuid) (e : profile_edit)
    (ps : list Db.profile) : Db.result (list Db.profile) :=
  if existsb (own_row auth_uid userId) ps
     && existsb (fun p => negb (String.eqb (Db.p_id p) userId)
                          && String.eqb (Db.username p) (e_username e)) ps
  then Db.Err Db.unique_violation
  else Db.Ok (map (fun p => if own_row auth_uid userId p
                            then Db.mkProfile (Db.p_id p) (e_username e)
                                   (e_full_name e) (e_avatar_url e)
                                   (Db.p_created_at p) (Db.last_seen p)
                            else p) ps).

(** [from('profiles').insert({ id, username, full_name, last_seen })] run by
    [auth_uid] ([ensureProfileExists], [fetchCurrentUserProfile]): the policy
    "Users can insert their own profile", the primary key and the [UNIQUE]
    username; [created_at] takes its default. *)
Definition insert_profile (auth_uid : uuid) (now : timestamp)
    (ins : Session.profile_insert) (ps : list Db.profile)
    : Db.result (Db.profile * list Db.profile) :=
  if negb (String.eqb auth_uid (Session.pi_id ins)) then Db.Err Db.rls_violation
  else if Db.has_profile ps (Session.pi_id ins) then Db.Err Db.unique_violation
  else if Signup.username_taken ps (Session.pi_username ins)
       then Db.Err Db.unique_violation
  else
    let p := Db.mkProfile (Session.pi_id ins) (Session.pi_username ins)
               (Some (Session.pi_full_name ins)) None (Some now)
               (Session.pi_last_seen ins) in
    Db.Ok (p, ps ++ [p]).

End Accounts.

(** *** Everything the application writes *)

Definition with_profiles (ps : list Db.profile) (db : Db.database) : Db.database :=
  Db.mkDb ps (Db.messages db) (Db.conversations db).

(** One write of the application: to [messages] (an insert or a status
    procedure), to [conversations] (through [get_or_create_conversation]), or
    to [profiles] (the heartbeat, the creation of a profile by the client or
    by the sign-up trigger, the edit of one's profile). *)
Inductive app_write : Db.database -> Db.database -> Prop :=
| write_message db db' :
    Db.step db db' -> app_write db db'
| write_conversation new_id now user1 user2 db c db' :
    Db.get_or_create_conversation new_id now user1 user2 db = Db.Ok (c, db') ->
    app_write db db'
| write_last_seen auth_uid userId sent now db :
    app_write db (with_profiles
                    (Accounts.update_last_seen auth_uid userId sent now
                       (Db.profiles db)) db)
| write_profile auth_uid now ins db p ps' :
    Accounts.insert_profile auth_uid now ins (Db.profiles db) = Db.Ok (p, ps') ->
    app_write db (with_profiles ps' db)
| write_edit auth_uid userId e db ps' :
    Accounts.save_profile auth_uid userId e (Db.profiles db) = Db.Ok ps' ->
    app_write db (with_profiles ps' db)
| write_sign_up NEW now db ps' :
    Signup.handle_new_user NEW now (Db.profiles db) = Signup.Created ps' ->
    app_write db (with_profiles ps' db).

Inductive app_run : Db.database -> Db.database -> Prop :=
| run_done db : app_run db db
| run_more db1 db2 db3 : app_write db1 db2 -> app_run db2 db3 -> app_run db1 db3.

(** A conversation that was never touched after it was created. *)
Definition untouched (c : Db.conversation) : Prop :=
  Db.updated_at c = Db.c_created_at c.

(** The message is past ['sent'], with the milestone of its status set. *)
Definition delivered_or_seen (m : Db.message) : Prop :=
  (Db.status m = delivered /\ Db.delivered_at m <> None)
  \/ (Db.status m = seen /\ Db.seen_at m <> None).

(** A message on its way to [r]: not delivered yet, or past that. *)
Definition on_its_way (r : uuid) (m : Db.message) : Prop :=
  Db.recipient_id m = Some r
  /\ ((Db.status m = sent /\ Db.delivered_at m = None) \/ delivered_or_seen m).

(** *** The list of recent users ([UserList]) *)

Module Roster.

(** [order('last_seen', { ascending: false, nullsLast: true })]: the client
    library knows [ascending] and [nullsFirst] only, so what is asked is
    [last_seen.desc], and in descending order PostgreSQL puts the rows
    without a value first. *)
Definition recent_first (a b : Db.profile) : bool :=
  match Db.last_seen a, Db.last_seen b with
  | Some x, Some y => y <=? x
  | Some _, None => false
  | None, Some _ => true
  | None, None => true
  end.

Definition roster_cap : nat := 20.

(** [from('profiles').select('*').neq('id', cur).order('last_seen', ...)
    .limit(20)] *)
Definition select_users (cur : uuid) (ps : list Db.profile)
    : reply (list Db.profile) :=
  mkReply (Some (firstn roster_cap
                   (stable_sort recent_first
                      (filter (fun p => negb (String.eqb (Db.p_id p) cur)) ps))))
          None.

Record roster := mkRoster {
  users : list Db.profile;
  loading : bool
}.

Definition fetchUsers (currentUser : option uuid) (r : reply (list Db.profile))
    (st : roster) : roster :=
  match currentUser with
  | None => mkRoster (users st) false
  | Some _ =>
      match error r with
      | Some _ => mkRoster [] false
      | None => mkRoster (match data r with Some l => l | None => [] end) false
      end
  end.

(** The handler of the [UPDATE] events on [profiles]. *)
Definition profile_updated (updatedProfile : Db.profile) (st : roster) : roster :=
  mkRoster (map (fun user => if String.eqb (Db.p_id user) (Db.p_id updatedProfile)
                             then updatedProfile else user)
                (users st))
           (loading st).

(** [handleSearchUserSelect]: the user goes in front unless already listed. *)
Definition handleSearchUserSelect (user : Db.profile) (st : roster) : roster :=
  if existsb (fun u => String.eqb (Db.p_id u) (Db.p_id user)) (users st) then st
  else mkRoster (user :: users st) (loading st).






End Roster.

(** *** The exact lookup and the keyboard of the dropdown *)

Module Picker.

(** [from('profiles').select('*').eq('username', name).maybeSingle()]: more
    than one row is an error. *)
Definition exact_profile (ps : list Db.profile) (name : string)
    : reply Db.profile :=
  match filter (fun p => String.eqb (Db.username p) name) ps with
  | [] => mkReply None None
  | [p] => mkReply (Some p) None
  | _ :: _ :: _ =>
      mkReply None
        (Some (mkError "PGRST116"
                 "JSON object requested, multiple (or no) rows returned"))
  end.

(** [searchUserByExactUsername]: what it returns ([None] for [null]) and the
    state of the hook it leaves. *)
Definition searchUserByExactUsername (username : string)
    (backend : string -> reply Db.profile) (st : Directory.search_state)
    : option Db.profile * Directory.search_state :=
  if Directory.blank username then (None, st)
  else
    let cleaned := Directory.cleanUsername username in
    if Directory.blank cleaned then
      (None, Directory.mkSearch (Directory.searchResults st) false None)
    else
      let r := backend cleaned in
      match error r with
      | Some e =>
          (None, Directory.mkSearch (Directory.searchResults st) false
                                    (Some (message e)))
      | None =>
          (data r, Directory.mkSearch (Directory.searchResults st) false None)
      end.

Inductive key := ArrowDown | ArrowUp | Enter | Escape | other_key.

(** The state of [UserSearch] next to the hook's. *)
Record dropdown := mkDropdown {
  searchTerm : string;
  isOpen : bool;
  selectedIndex : Z
}.

Definition results_length (st : Directory.search_state) : Z :=
  Z.of_nat (List.length (Directory.searchResults st)).

(** [handleKeyDown]: the dropdown and the hook after the key, and the user
    handed to [onSelectUser], if any. *)
Definition handleKeyDown (k : key) (currentUserId : option uuid)
    (st : Directory.search_state) (d : dropdown)
    : dropdown * Directory.search_state * option Db.profile :=
  if negb (isOpen d) || (results_length st =? 0) then (d, st, None)
  else
    match k with
    | ArrowDown =>
        (mkDropdown (searchTerm d) (isOpen d)
           (if selectedIndex d <? results_length st - 1
            then selectedIndex d + 1 else 0),
         st, None)
    | ArrowUp =>
        (mkDropdown (searchTerm d) (isOpen d)
           (if 0 <? selectedIndex d
            then selectedIndex d - 1 else results_length st - 1),
         st, None)
    | Enter =>
        if (0 <=? selectedIndex d) && (selectedIndex d <? results_length st) then
          match nth_error (Directory.searchResults st) (Z.to_nat (selectedIndex d)) with
          | Some user =>
              match Directory.handleSelectUser currentUserId user with
              | Some chosen =>
                  (mkDropdown "" false (selectedIndex d),
                   Directory.clearSearch st, Some chosen)
              | None => (d, st, None)
              end
          | None => (d, st, None)
          end
        else (d, st, None)
    | Escape => (mkDropdown (searchTerm d) false (-1), st, None)
    | other_key => (d, st, None)
    end.

(** Whether the rows are drawn: [isOpen], and [!loading && !error] (with
    [filteredResults.length > 0], or there is no row to draw). *)
Definition rows_drawn (st : Directory.search_state) (d : dropdown) : bool :=
  isOpen d && negb (Directory.loading st)
  && negb (truthy (Directory.search_error st)).

(** The row drawn as selected: when the rows are drawn, the entry of the
    rendered list at [selectedIndex]. *)
Definition highlighted (currentUserId : option uuid)
    (st : Directory.search_state) (d : dropdown) : option Db.profile :=
  if rows_drawn st d && (0 <=? selectedIndex d)
  then nth_error (Directory.filteredResults currentUserId st)
                 (Z.to_nat (selectedIndex d))
  else None.

End Picker.

(** *** The composer ([MessageInput]) *)

Module Composer.

Record composer := mkComposer {
  message : string;
  sending : bool
}.

(** [handleSubmit]: the composer and the hook after the submit, and whether
    [onMessageSent] was scheduled.  [user] is the identity the component
    holds, [currentUser] the one its hook holds. *)
Definition handleSubmit (user currentUser : option uuid) (selectedUser : uuid)
    (env : MessageStore.send_env) (c : composer) (st : MessageStore.store)
    : composer * MessageStore.store * bool :=
  match user with
  | None => (c, st, false)
  | Some me =>
      if Directory.blank (message c) || sending c then (c, st, false)
      else
        match MessageStore.sendMessage currentUser (Directory.trim (message c)) me
                selectedUser env st with
        | (MessageStore.Done _, st') => (mkComposer "" false, st', true)
        | (MessageStore.Thrown _, st') => (mkComposer (message c) false, st', false)
        end
  end.

End Composer.

(** *** The heartbeat of the session provider ([useAuth]) *)

Module Heartbeat.

(** The timers of one mounted provider: the variable [lastSeenInterval], the
    intervals that are running, and the id the next [setInterval] returns. *)
Record timers := mkTimers {
  mounted : bool;
  lastSeenInterval : option nat;
  running : list nat;
  next_id : nat
}.

Definition clearInterval (i : nat) (l : list nat) : list nat :=
  filter (fun j => negb (Nat.eqb j i)) l.

(** [if (lastSeenInterval) clearInterval(lastSeenInterval)]; the id of a
    timer is positive, hence truthy. *)
Definition clear_last (t : timers) : list nat :=
  match lastSeenInterval t with
  | Some i => clearInterval i (running t)
  | None => running t
  end.

Inductive event :=
| session_found
| no_session
| signed_in
| signed_out
| unmounted.

(** What each step of the provider does to the timers: the end of
    [initializeAuth] with or without a session, the auth-state listener with
    or without one, and the clean-up of the effect. *)
Definition step (e : event) (t : timers) : timers :=
  match e with
  | session_found =>
      if mounted t
      then mkTimers true (Some (next_id t)) (running t ++ [next_id t]) (S (next_id t))
      else t
  | no_session => t
  | signed_in =>
      if mounted t
      then mkTimers true (Some (next_id t)) (clear_last t ++ [next_id t]) (S (next_id t))
      else t
  | signed_out =>
      if mounted t
      then mkTimers true (lastSeenInterval t) (clear_last t) (next_id t)
      else t
  | unmounted =>
      mkTimers false (lastSeenInterval t) (clear_last t) (next_id t)
  end.

Definition run (events : list event) (t : timers) : timers :=
  fold_left (fun acc e => step e acc) events t.

Definition fresh_provider : timers := mkTimers true None [] 1.

(** The listener's events, as opposed to the two ends of [initializeAuth]. *)
Definition from_listener (e : event) : bool :=
  match e with
  | session_found | no_session => false
  | _ => true
  end.

End Heartbeat.

(** *** Runs of the components *)

(** The dropdown and the hook after a run of keys, the results of the hook
    changing only through the keys. *)
Definition press_keys (currentUserId : option uuid) (ks : list Picker.key)
    (p : Picker.dropdown * Directory.search_state)
    : Picker.dropdown * Directory.search_state :=
  fold_left (fun acc k =>
               fst (Picker.handleKeyDown k currentUserId (snd acc) (fst acc)))
            ks p.

(** The index of the dropdown is at least [-1] and, while there are results,
    below their number. *)
Definition index_in_range (p : Picker.dropdown * Directory.search_state) : Prop :=
  -1 <= Picker.selectedIndex (fst p)
  /\ (Directory.searchResults (snd p) <> [] ->
      Picker.selectedIndex (fst p) < Picker.results_length (snd p)).

(** What happens to the list of recent users of the user [cur]: a fetch
    answered from the table [ps], an [UPDATE] event on [profiles], a user
    picked in the search dropdown. *)
Inductive roster_event :=
| fetched (ps : list Db.profile)
| updated (updatedProfile : Db.profile)
| picked (user : Db.profile).

Definition roster_step (cur : uuid) (e : roster_event) (st : Roster.roster)
    : Roster.roster :=
  match e with
  | fetched ps => Roster.fetchUsers (Some cur) (Roster.select_users cur ps) st
  | updated p => Roster.profile_updated p st
  | picked user =>
      match Directory.handleSelectUser (Some cur) user with
      | Some chosen => Roster.handleSearchUserSelect chosen st
      | None => st
      end
  end.

Definition roster_run (cur : uuid) (es : list roster_event) (st : Roster.roster)
    : Roster.roster :=
  fold_left (fun acc e => roster_step cur e acc) es st.

(** The tables a fetch is answered from obey the primary key of [profiles]. *)
Definition fetches_obey_key (es : list roster_event) : Prop :=
  forall ps, In (fetched ps) es -> NoDup (map Db.p_id ps).

(** At most the interval held in [lastSeenInterval] is running, and none
    once the provider is unmounted. *)
Definition tidy (t : Heartbeat.timers) : Prop :=
  (Heartbeat.running t = []
   \/ exists i, Heartbeat.running t = [i] /\ Heartbeat.lastSeenInterval t = Some i)
  /\ (Heartbeat.mounted t = false -> Heartbeat.running t = []).

(** The candidates of the sign-up loop: the base name, then the base name
    followed by 1, 2, ... *)
Definition candidate (base : string) (k : nat) : string :=
  match k with
  | O => base
  | S _ => String.append base (decimal k)
  end.

(** * Properties *)

(** ** Status procedures *)

Section StatusFacts.
Import Db.

Lemma opt_eqb_true (o : option uuid) (u : uuid) :
  opt_eqb o u = true <-> o = Some u.
Proof.
  destruct o as [v|]; simpl.
  - rewrite String.eqb_eq. split; congruence.
  - split; discriminate.
Qed.

Lemma status_eqb_true (a b : message_status) :
  status_eqb a b = true <-> a = b.
Proof. destruct a, b; unfold status_eqb; simpl; split; congruence. Qed.

Lemma is_none_true {A} (o : option A) : is_none o = true <-> o = None.
Proof. destruct o; simpl; split; congruence. Qed.

(** The [WHERE] clause of [mark_messages_as_seen], read as a proposition. *)
Lemma seen_target_spec sender viewer m :
  seen_target sender viewer m = true <->
  user_id m = sender /\ recipient_id m = Some viewer /\ seen_at m = None.
Proof.
  unfold seen_target.
  rewrite !andb_true_iff, String.eqb_eq, opt_eqb_true, is_none_true. tauto.
Qed.

Lemma delivered_target_spec r m :
  delivered_target r m = true <->
  recipient_id m = Some r /\ status m = sent /\ delivered_at m = None.
Proof.
  unfold delivered_target.
  rewrite !andb_true_iff, opt_eqb_true, status_eqb_true, is_none_true. tauto.
Qed.

(** A row that was just marked seen is no longer a target. *)
Lemma seen_target_set_seen sender viewer now m :
  seen_target sender viewer (set_seen now m) = false.
Proof. unfold seen_target; simpl. apply andb_false_r. Qed.

Lemma mark_seen_row_idem sender viewer now now' m :
  let f t x := if seen_target sender viewer x then set_seen t x else x in
  f now' (f now m) = f now m.
Proof.
  simpl. destruct (seen_target sender viewer m) eqn:E.
  - now rewrite seen_target_set_seen.
  - now rewrite E.
Qed.

Lemma Forall2_map_self {A} (R : A -> A -> Prop) (f : A -> A) (l : list A) :
  (forall x, R x (f x)) -> Forall2 R l (map f l).
Proof. intros H. induction l; simpl; constructor; auto. Qed.

End StatusFacts.

(** C10. [mark_messages_as_seen(sender_id, viewer_id)] rewrites exactly the
    rows sent by [sender_id] to [viewer_id] whose [seen_at] is null: such a row
    gets [seen_at = now] and [status = 'seen'] and keeps its other columns;
    every other row is left as it is; and calling it again with the same
    arguments, at any later instant, changes nothing. *)
Theorem mark_messages_as_seen_frame_idempotent :
  forall (sender_id viewer_id : uuid) (now later : timestamp) (ms : list Db.message),
    Forall2
      (fun m m' =>
         if Db.seen_target sender_id viewer_id m
         then Db.seen_at m' = Some now /\ Db.status m' = seen
              /\ Db.id m' = Db.id m /\ Db.content m' = Db.content m
              /\ Db.user_id m' = Db.user_id m
              /\ Db.recipient_id m' = Db.recipient_id m
              /\ Db.conversation_id m' = Db.conversation_id m
              /\ Db.created_at m' = Db.created_at m
              /\ Db.sent_at m' = Db.sent_at m
              /\ Db.delivered_at m' = Db.delivered_at m
         else m' = m)
      ms (Db.mark_messages_as_seen sender_id viewer_id now ms)
    /\ (forall m, Db.seen_target sender_id viewer_id m = true <->
                  Db.user_id m = sender_id
                  /\ Db.recipient_id m = Some viewer_id
                  /\ Db.seen_at m = None)
    /\ Db.mark_messages_as_seen sender_id viewer_id later
         (Db.mark_messages_as_seen sender_id viewer_id now ms)
       = Db.mark_messages_as_seen sender_id viewer_id now ms.
Proof.
  intros sender_id viewer_id now later ms. split; [|split].
  - unfold Db.mark_messages_as_seen. apply Forall2_map_self.
    intros m. destruct (Db.seen_target sender_id viewer_id m); simpl; auto 12.
  - intros m. apply seen_target_spec.
  - unfold Db.mark_messages_as_seen. rewrite map_map.
    apply map_ext. intros m. apply mark_seen_row_idem.
Qed.

Section StatusMonotone.
Import Db.

Lemma advances_refl m : advances m m.
Proof. split; auto. Qed.

Lemma seen_row_advances sender viewer now m :
  advances m (if seen_target sender viewer m then set_seen now m else m).
Proof.
  destruct (seen_target sender viewer m); [|apply advances_refl].
  split; simpl; auto. destruct (status m); simpl; lia.
Qed.

Lemma delivered_row_advances r now m :
  advances m (if delivered_target r m then set_delivered now m else m).
Proof.
  destruct (delivered_target r m) eqn:E; [|apply advances_refl].
  apply delivered_target_spec in E. destruct E as (_ & Hs & _).
  split; simpl; auto. rewrite Hs. simpl. lia.
Qed.

(** A pointwise update that keeps ids and never lowers a status keeps the
    status of every recorded id from regressing. *)
Lemma status_of_map (f : message -> message) i s ms :
  (forall m, advances m (f m)) ->
  status_of i ms = Some s ->
  exists s', status_of i (map f ms) = Some s'
             /\ (status_rank s <= status_rank s')%nat.
Proof.
  intros Hf. unfold status_of.
  induction ms as [|m ms IH]; simpl; [discriminate|].
  destruct (Hf m) as [Hid Hrk]. rewrite Hid.
  destruct (String.eqb (id m) i); simpl.
  - intros [= <-]. eauto.
  - exact IH.
Qed.

Lemma status_of_app i s ms extra :
  status_of i ms = Some s -> status_of i (ms ++ extra) = Some s.
Proof.
  unfold status_of. induction ms as [|m ms IH]; simpl; [discriminate|].
  destruct (String.eqb (id m) i); simpl; auto.
Qed.

(** A successful insert appends the new row and touches no other. *)
Lemma insert_message_appends auth_uid new_id now ins db m db' :
  insert_message auth_uid new_id now ins db = Ok (m, db') ->
  messages db' = messages db ++ [m]
  /\ m = auto_mark_delivered (profiles db) now
           (mkMessage new_id (i_content ins) (i_user_id ins) (i_recipient_id ins)
                      (i_conversation_id ins) now (i_sent_at ins) None None
                      (i_status ins))
  /\ has_message (messages db) new_id = false.
Proof.
  unfold insert_message.
  destruct (negb (String.eqb auth_uid (i_user_id ins))); [discriminate|].
  destruct (has_message (messages db) new_id) eqn:E; [discriminate|].
  destruct (negb (has_profile (profiles db) (i_user_id ins))); [discriminate|].
  destruct (negb _); [discriminate|].
  intros [= <- <-]. simpl. auto.
Qed.

(** The trigger leaves the status the client wrote, or sets ['delivered']. *)
Lemma auto_mark_delivered_status ps now NEW :
  status (auto_mark_delivered ps now NEW) =
  if existsb (recently_active now (recipient_id NEW)) ps
  then delivered else status NEW.
Proof.
  unfold auto_mark_delivered.
  destruct (existsb _ ps); reflexivity.
Qed.

Lemma step_monotone db db' i s :
  step db db' ->
  status_of i (messages db) = Some s ->
  exists s', status_of i (messages db') = Some s'
             /\ (status_rank s <= status_rank s')%nat.
Proof.
  intros Hstep Hs. destruct Hstep as [sender viewer now db|r now db|a n now ins m db db' Hins]; simpl.
  - apply status_of_map; auto. intros m. apply seen_row_advances.
  - apply status_of_map; auto. intros m. apply delivered_row_advances.
  - apply insert_message_appends in Hins. destruct Hins as (-> & _).
    exists s. split; [now apply status_of_app | lia].
Qed.

Lemma steps_monotone db db' :
  steps db db' ->
  forall i s, status_of i (messages db) = Some s ->
  exists s', status_of i (messages db') = Some s'
             /\ (status_rank s <= status_rank s')%nat.
Proof.
  induction 1 as [db|db1 db2 db3 H12 _ IH]; intros i s Hs.
  - exists s. split; auto.
  - destruct (step_monotone _ _ _ _ H12 Hs) as (s2 & H2 & Hle).
    destruct (IH _ _ H2) as (s3 & H3 & Hle').
    exists s3. split; auto. lia.
Qed.

End StatusMonotone.

(** ** Sending: the optimistic entry and its reconciliation *)

Section SendFacts.
Import MessageStore.

Lemma optimistic_id content userId recipientId env :
  msg_id (optimisticMessage content userId recipientId env)
  = temp_id (date_now env).
Proof. reflexivity. Qed.

Lemma optimistic_status content userId recipientId env :
  msg_status (optimisticMessage content userId recipientId env) = sending.
Proof. reflexivity. Qed.

(** The run of [sendMessage] when the insert reports an error. *)
Lemma sendMessage_failed cu content userId recipientId env st e :
  error (insert_reply env) = Some e ->
  sendMessage cu content userId recipientId env st =
  (Thrown e,
   mkStore (remove_optimistic (temp_id (date_now env))
              (messages st ++ [optimisticMessage content userId recipientId env]))
           (loading st)
           (issued st ++ [select_profile userId]
              ++ [rpc_get_or_create_conversation userId recipientId]
              ++ [insert_message (send_insert content userId recipientId env)])).
Proof.
  intros He. unfold sendMessage, try_catch, bind, issue, setMessages, throw.
  simpl. rewrite He. simpl. rewrite <- !app_assoc. reflexivity.
Qed.

(** The run of [sendMessage] when the insert returns the new record. *)
Lemma sendMessage_sent cu content userId recipientId env st sentMessage :
  insert_reply env = mkReply (Some sentMessage) None ->
  sendMessage cu content userId recipientId env st =
  (Done tt,
   mkStore (replace_optimistic (temp_id (date_now env)) sentMessage
              (messages st ++ [optimisticMessage content userId recipientId env]))
           (loading st)
           (issued st ++ [select_profile userId]
              ++ [rpc_get_or_create_conversation userId recipientId]
              ++ [insert_message (send_insert content userId recipientId env)]
              ++ [update_last_seen userId]
              ++ match cu with
                 | Some cur => [rpc_mark_messages_as_delivered cur]
                 | None => []
                 end)).
Proof.
  intros He. unfold sendMessage, try_catch, bind, issue, setMessages, throw,
    updateLastSeen, markMessagesAsDelivered, ret.
  simpl. rewrite He. simpl. destruct cu; simpl; unfold issue; simpl;
    rewrite <- ?app_assoc; simpl; rewrite ?app_nil_r; reflexivity.
Qed.

Lemma remove_optimistic_fresh tid prev :
  fresh_id tid prev -> remove_optimistic tid prev = prev.
Proof.
  unfold remove_optimistic. induction 1 as [|m l Hm _ IH]; simpl; auto.
  apply String.eqb_neq in Hm. rewrite Hm. simpl. now rewrite IH.
Qed.

Lemma remove_optimistic_app tid prev opt :
  msg_id opt = tid ->
  remove_optimistic tid (prev ++ [opt]) = remove_optimistic tid prev.
Proof.
  intros <-. unfold remove_optimistic. rewrite filter_app. simpl.
  rewrite String.eqb_refl. simpl. apply app_nil_r.
Qed.

Lemma replace_optimistic_fresh tid sentMessage prev :
  fresh_id tid prev -> replace_optimistic tid sentMessage prev = prev.
Proof.
  unfold replace_optimistic. induction 1 as [|m l Hm _ IH]; simpl; auto.
  apply String.eqb_neq in Hm. rewrite Hm. now rewrite IH.
Qed.

Lemma replace_optimistic_app tid sentMessage prev opt :
  msg_id opt = tid ->
  replace_optimistic tid sentMessage (prev ++ [opt])
  = replace_optimistic tid sentMessage prev ++ [sentMessage].
Proof.
  intros <-. unfold replace_optimistic. rewrite map_app. simpl.
  now rewrite String.eqb_refl.
Qed.

End SendFacts.

Section ClientReplace.
Import MessageStore.

Lemma replace_only_placeholders tid sentMessage prev :
  (forall msg, In msg prev -> msg_id msg = tid -> msg_status msg = sending) ->
  Forall2 (fun msg msg' => msg' = msg \/ (msg_status msg = sending /\ msg' = sentMessage))
          prev (replace_optimistic tid sentMessage prev).
Proof.
  unfold replace_optimistic.
  induction prev as [|m l IH]; intros H; simpl; constructor.
  - destruct (String.eqb (msg_id m) tid) eqn:E; auto.
    right. split; auto. apply H; [now left | now apply String.eqb_eq].
  - apply IH. intros msg Hin. apply H. now right.
Qed.

End ClientReplace.

(** C1 (as amended).  Over any run of the writes the application makes to the
    [messages] table, the status recorded for a message id never moves
    backward in the chain sending, sent, delivered, seen;
    [mark_messages_as_delivered] changes only rows whose status is ['sent'];
    [mark_messages_as_seen] changes a row only by marking it seen; the client
    replaces only ['sending'] placeholders, by the record the insert returned;
    and that record is ['sent'], or already ['delivered'] when the trigger
    [auto_mark_delivered] found the recipient active at insert time. *)
Theorem status_only_advances :
  (forall db db' i s,
      Db.steps db db' ->
      Db.status_of i (Db.messages db) = Some s ->
      exists s', Db.status_of i (Db.messages db') = Some s'
                 /\ (status_rank s <= status_rank s')%nat)
  /\ (forall p_recipient_id now ms,
         Forall2 (fun m m' => m' = m
                              \/ (Db.status m = sent /\ m' = Db.set_delivered now m))
                 ms (Db.mark_messages_as_delivered p_recipient_id now ms))
  /\ (forall sender_id viewer_id now ms,
         Forall2 (fun m m' => m' = m \/ m' = Db.set_seen now m)
                 ms (Db.mark_messages_as_seen sender_id viewer_id now ms))
  /\ (forall cu content userId recipientId env st sentMessage,
         MessageStore.insert_reply env = mkReply (Some sentMessage) None ->
         (forall msg, In msg (MessageStore.messages st) ->
                      MessageStore.msg_id msg = MessageStore.temp_id (MessageStore.date_now env) ->
                      MessageStore.msg_status msg = sending) ->
         Forall2 (fun msg msg' =>
                    msg' = msg
                    \/ (MessageStore.msg_status msg = sending /\ msg' = sentMessage))
                 (MessageStore.messages st
                    ++ [MessageStore.optimisticMessage content userId recipientId env])
                 (MessageStore.messages
                    (snd (MessageStore.sendMessage cu content userId recipientId env st))))
  /\ (forall auth_uid new_id now content userId recipientId env db m db',
         Db.insert_message auth_uid new_id now
           (MessageStore.send_insert content userId recipientId env) db
         = Db.Ok (m, db') ->
         Db.status m =
         if existsb (Db.recently_active now (Some recipientId)) (Db.profiles db)
         then delivered else sent).
Proof.
  split; [|split; [|split; [|split]]].
  - intros db db' i s Hsteps. now apply steps_monotone.
  - intros r now ms. unfold Db.mark_messages_as_delivered.
    apply Forall2_map_self. intros m.
    destruct (Db.delivered_target r m) eqn:E; auto.
    apply delivered_target_spec in E. tauto.
  - intros sender viewer now ms. unfold Db.mark_messages_as_seen.
    apply Forall2_map_self. intros m.
    destruct (Db.seen_target sender viewer m); auto.
  - intros cu content userId recipientId env st sentMessage Hreply Hplace.
    rewrite (sendMessage_sent _ _ _ _ _ _ _ Hreply). simpl.
    apply replace_only_placeholders.
    intros msg Hin Hid. apply in_app_or in Hin. destruct Hin as [Hin|[<-|[]]]; auto.
  - intros auth_uid new_id now content userId recipientId env db m db' Hins.
    apply insert_message_appends in Hins. destruct Hins as (_ & -> & _).
    now rewrite auto_mark_delivered_status.
Qed.

(** C1, on the sample: after Alice's "hi" reached the table, Bob's client
    marks the thread seen and the status recorded for the message did not go
    back; Alice's placeholder was replaced by the returned record. *)
Lemma status_only_advances_witness :
  let env := fst Sample.hi_served in
  let dbA := snd Sample.hi_served in
  let dbB := Db.mkDb (Db.profiles dbA)
               (Db.mark_messages_as_seen Sample.alice Sample.bob (Sample.noon + 1000)
                  (Db.messages dbA))
               (Db.conversations dbA) in
  let i := Backend.new_message_id Sample.draw1 in
  (exists s', Db.status_of i (Db.messages dbB) = Some s'
              /\ (status_rank delivered <= status_rank s')%nat)
  /\ (exists sentMessage,
         MessageStore.insert_reply env = mkReply (Some sentMessage) None
         /\ Forall2 (fun msg msg' =>
                       msg' = msg
                       \/ (MessageStore.msg_status msg = sending /\ msg' = sentMessage))
              (MessageStore.messages Sample.empty_store
                 ++ [MessageStore.optimisticMessage "hi" Sample.alice Sample.bob env])
              (MessageStore.messages
                 (snd (MessageStore.sendMessage (Some Sample.alice) "hi"
                         Sample.alice Sample.bob env Sample.empty_store)))).
Proof.
  intros env dbA dbB i.
  destruct status_only_advances as (Hrun & _ & _ & Hclient & _).
  split.
  - apply (Hrun dbA dbB i delivered).
    + eapply Db.steps_cons; [apply Db.step_seen | apply Db.steps_refl].
    + vm_compute. reflexivity.
  - eexists. split.
    + vm_compute. reflexivity.
    + apply Hclient.
      * vm_compute. reflexivity.
      * intros msg [].
Defined.

(** C1 as stated fails in its last clause: when the recipient was active in
    the five minutes before the insert, the record that replaces the
    ['sending'] placeholder is ['delivered'], not ['sent']. *)
Lemma placeholder_replaced_by_delivered_record :
  let env := fst Sample.hi_served in
  exists db1 row,
    Db.get_or_create_conversation (Backend.new_conversation_id Sample.draw1)
      Sample.noon Sample.alice Sample.bob Sample.db0
    = Db.Ok (Backend.new_conversation_id Sample.draw1, db1)
    /\ Db.insert_message Sample.alice (Backend.new_message_id Sample.draw1) Sample.noon
         (MessageStore.send_insert "hi" Sample.alice Sample.bob env) db1
       = Db.Ok (row, snd Sample.hi_served)
    /\ MessageStore.insert_reply env
       = mkReply (Some (Db.join_profile Sample.people row)) None
    /\ MessageStore.messages
         (snd (MessageStore.sendMessage (Some Sample.alice) "hi" Sample.alice Sample.bob
                 env Sample.empty_store))
       = [Db.join_profile Sample.people row]
    /\ Db.status row = delivered
    /\ Db.status row <> sent.
Proof.
  intros env. eexists. eexists.
  split; [vm_compute; reflexivity|].
  split; [vm_compute; reflexivity|].
  split; [vm_compute; reflexivity|].
  split; [vm_compute; reflexivity|].
  split; [reflexivity | discriminate].
Qed.

(** ** Conversation identity *)

Section ConversationFacts.
Import Db.

Lemma ltb_asym a b : String.ltb a b = true -> String.ltb b a = false.
Proof.
  unfold String.ltb. rewrite (String.compare_antisym b a).
  destruct (String.compare a b); simpl; congruence.
Qed.

Lemma ltb_connected a b :
  String.ltb a b = false -> String.ltb b a = false -> a = b.
Proof.
  unfold String.ltb. rewrite (String.compare_antisym b a).
  destruct (String.compare a b) eqn:E; simpl; try discriminate.
  intros _ _. now apply String.compare_eq_iff.
Qed.

(** The canonical pair does not depend on the order of the arguments. *)
Lemma canonical_pair_sym a b : canonical_pair a b = canonical_pair b a.
Proof.
  unfold canonical_pair.
  destruct (String.ltb a b) eqn:Eab, (String.ltb b a) eqn:Eba; auto.
  - apply ltb_asym in Eab. congruence.
  - now rewrite (ltb_connected a b).
Qed.

(** It is ordered smaller-first and made of the two arguments. *)
Lemma canonical_pair_ordered a b :
  String.ltb (snd (canonical_pair a b)) (fst (canonical_pair a b)) = false.
Proof.
  unfold canonical_pair. destruct (String.ltb a b) eqn:E; simpl; auto.
  now apply ltb_asym.
Qed.

Lemma canonical_pair_cases a b :
  canonical_pair a b = (a, b) \/ canonical_pair a b = (b, a).
Proof. unfold canonical_pair. destruct (String.ltb a b); auto. Qed.

Lemma pair_is_spec a b c :
  pair_is a b c = true <-> participants c = (a, b).
Proof.
  unfold pair_is, participants.
  rewrite andb_true_iff, !String.eqb_eq. split.
  - intros [-> ->]; auto.
  - intros [= -> ->]; auto.
Qed.

(** On a row with its smaller participant first, linking the two users is
    having the canonical pair. *)
Lemma links_canonical a b c :
  String.ltb (user2_id c) (user1_id c) = false ->
  links a b c = pair_is (fst (canonical_pair a b)) (snd (canonical_pair a b)) c.
Proof.
  intros Hc. unfold links.
  destruct (pair_is a b c) eqn:Eab.
  - apply pair_is_spec in Eab. injection Eab as H1 H2. rewrite H1, H2 in Hc.
    unfold canonical_pair. destruct (String.ltb a b) eqn:E; simpl.
    + symmetry. apply pair_is_spec. unfold participants. congruence.
    + rewrite (ltb_connected a b E Hc). symmetry. apply pair_is_spec.
      unfold participants. rewrite H1, H2. now rewrite (ltb_connected a b E Hc).
  - simpl. destruct (pair_is b a c) eqn:Eba.
    + apply pair_is_spec in Eba. injection Eba as H1 H2. rewrite H1, H2 in Hc.
      unfold canonical_pair. rewrite Hc. simpl.
      symmetry. apply pair_is_spec. unfold participants. congruence.
    + destruct (canonical_pair_cases a b) as [-> | ->]; simpl; auto.
Qed.

(** Under the uniqueness constraint at most one row has a given pair. *)
Lemma unique_pair_filter a b cs :
  NoDup (map participants cs) ->
  (List.length (filter (pair_is a b) cs) <= 1)%nat.
Proof.
  induction cs as [|c cs IH]; simpl; intros Hnd; [lia|].
  apply NoDup_cons_iff in Hnd. destruct Hnd as [Hnotin Hnd].
  destruct (pair_is a b c) eqn:E; [|auto].
  simpl. apply pair_is_spec in E.
  assert (filter (pair_is a b) cs = []) as ->; [|simpl; lia].
  destruct (filter (pair_is a b) cs) as [|d l] eqn:F; auto.
  exfalso. apply Hnotin.
  assert (In d (filter (pair_is a b) cs)) as Hd by (rewrite F; now left).
  apply filter_In in Hd. destruct Hd as [Hd Hp].
  apply pair_is_spec in Hp. rewrite E, <- Hp. now apply in_map.
Qed.

Lemma find_filter_nonempty {A} (f : A -> bool) l x :
  find f l = Some x -> (1 <= List.length (filter f l))%nat.
Proof.
  induction l as [|y l IH]; simpl; [discriminate|].
  destruct (f y); simpl; [lia | auto].
Qed.

Lemma find_none_existsb {A} (f : A -> bool) l :
  find f l = None -> existsb f l = false.
Proof.
  induction l as [|y l IH]; simpl; auto.
  destruct (f y); [discriminate | auto].
Qed.

Lemma find_app_none {A} (f : A -> bool) l x :
  find f l = None -> f x = true -> find f (l ++ [x]) = Some x.
Proof.
  induction l as [|y l IH]; simpl; intros Hn Hx.
  - now rewrite Hx.
  - destruct (f y); [discriminate | auto].
Qed.

(** What a call does, by cases on the lookup of the canonical pair. *)
Lemma get_or_create_cases new_id now a b db cid db' :
  get_or_create_conversation new_id now a b db = Ok (cid, db') ->
  let min_user := fst (canonical_pair a b) in
  let max_user := snd (canonical_pair a b) in
  (exists c, find (pair_is min_user max_user) (conversations db) = Some c
             /\ cid = c_id c /\ db' = db)
  \/ (find (pair_is min_user max_user) (conversations db) = None
      /\ cid = new_id
      /\ db' = mkDb (profiles db) (messages db)
                    (conversations db
                       ++ [mkConversation new_id min_user max_user now now])).
Proof.
  unfold get_or_create_conversation.
  destruct (canonical_pair a b) as [mn mx]. simpl.
  destruct (find (pair_is mn mx) (conversations db)) as [c|] eqn:F.
  - intros [= <- <-]. left. eauto.
  - unfold insert_conversation.
    destruct (existsb _ (conversations db)); [discriminate|].
    destruct (existsb (pair_is mn mx) (conversations db)); [discriminate|].
    destruct (negb _); [discriminate|].
    intros [= <- <-]. right. auto.
Qed.

End ConversationFacts.

Section ConversationUnique.
Import Db.

Lemma get_or_create_found new_id now a b db c :
  find (pair_is (fst (canonical_pair a b)) (snd (canonical_pair a b)))
       (conversations db) = Some c ->
  get_or_create_conversation new_id now a b db = Ok (c_id c, db).
Proof.
  unfold get_or_create_conversation.
  destruct (canonical_pair a b) as [mn mx]. simpl. now intros ->.
Qed.

(** In a canonical table a pair that is found is linked by exactly one row. *)
Lemma canonical_table_one_row a b cs c :
  canonical_table cs ->
  find (pair_is (fst (canonical_pair a b)) (snd (canonical_pair a b))) cs = Some c ->
  List.length (filter (links a b) cs) = 1%nat.
Proof.
  intros [Hord Hnd] Hfind.
  rewrite (filter_ext_in (links a b)
             (pair_is (fst (canonical_pair a b)) (snd (canonical_pair a b)))).
  - pose proof (unique_pair_filter (fst (canonical_pair a b))
                  (snd (canonical_pair a b)) cs Hnd).
    pose proof (find_filter_nonempty _ _ _ Hfind). lia.
  - intros x Hx. apply links_canonical.
    rewrite Forall_forall in Hord. now apply Hord.
Qed.

(** Appending the canonical pair that was not found keeps the table canonical. *)
Lemma canonical_table_insert new_id now a b cs :
  canonical_table cs ->
  find (pair_is (fst (canonical_pair a b)) (snd (canonical_pair a b))) cs = None ->
  canonical_table
    (cs ++ [mkConversation new_id (fst (canonical_pair a b))
                           (snd (canonical_pair a b)) now now]).
Proof.
  intros [Hord Hnd] Hfind. split.
  - apply Forall_app. split; auto.
    constructor; [|constructor]. simpl. apply canonical_pair_ordered.
  - rewrite map_app. simpl. apply NoDup_app; auto.
    + constructor; [intros []|constructor].
    + intros p Hp [<-|[]].
      apply in_map_iff in Hp. destruct Hp as (c & Hc & Hin).
      pose proof (find_none _ _ Hfind c Hin) as Hf.
      change (participants c = (fst (canonical_pair a b), snd (canonical_pair a b))) in Hc.
      apply pair_is_spec in Hc. congruence.
Qed.

End ConversationUnique.

(** C2. [get_or_create_conversation(a, b)] and
    [get_or_create_conversation(b, a)] give the same result: the pair is put
    smaller-first, the row of that ordered pair is returned when the table has
    one and a row is inserted otherwise; a repeated call, in either order,
    returns the same id and changes nothing; and on a table that holds the
    smaller participant first and no ordered pair twice, the call keeps the
    table so and leaves exactly one row that links the two users. *)
Theorem conversation_per_unordered_pair :
  forall (new_id : uuid) (now : timestamp) (a b : uuid) (db : Db.database),
    Db.get_or_create_conversation new_id now a b db
    = Db.get_or_create_conversation new_id now b a db
    /\ String.ltb (snd (Db.canonical_pair a b)) (fst (Db.canonical_pair a b)) = false
    /\ forall cid db',
        Db.get_or_create_conversation new_id now a b db = Db.Ok (cid, db') ->
        ((exists c, find (Db.pair_is (fst (Db.canonical_pair a b))
                                     (snd (Db.canonical_pair a b)))
                         (Db.conversations db) = Some c
                    /\ cid = Db.c_id c /\ db' = db)
         \/ (find (Db.pair_is (fst (Db.canonical_pair a b))
                              (snd (Db.canonical_pair a b)))
                  (Db.conversations db) = None
             /\ cid = new_id
             /\ db' = Db.mkDb (Db.profiles db) (Db.messages db)
                        (Db.conversations db
                           ++ [Db.mkConversation new_id
                                 (fst (Db.canonical_pair a b))
                                 (snd (Db.canonical_pair a b)) now now])))
        /\ (forall new_id' now',
               Db.get_or_create_conversation new_id' now' a b db' = Db.Ok (cid, db')
               /\ Db.get_or_create_conversation new_id' now' b a db' = Db.Ok (cid, db'))
        /\ (canonical_table (Db.conversations db) ->
            canonical_table (Db.conversations db')
            /\ List.length (filter (links a b) (Db.conversations db')) = 1%nat).
Proof.
  intros new_id now a b db.
  assert (Hsym : forall n t d,
             Db.get_or_create_conversation n t a b d
             = Db.get_or_create_conversation n t b a d).
  { intros n t d. unfold Db.get_or_create_conversation.
    now rewrite (canonical_pair_sym a b). }
  split; [apply Hsym|]. split; [apply canonical_pair_ordered|].
  intros cid db' Hcall.
  pose proof (get_or_create_cases _ _ _ _ _ _ _ Hcall) as Hcases. simpl in Hcases.
  split; [exact Hcases|].
  assert (Hfound : exists c,
             find (Db.pair_is (fst (Db.canonical_pair a b))
                              (snd (Db.canonical_pair a b)))
                  (Db.conversations db') = Some c /\ Db.c_id c = cid).
  { destruct Hcases as [(c & Hfind & -> & ->) | (Hfind & -> & ->)].
    - eauto.
    - eexists. split.
      + simpl. apply find_app_none; auto.
        apply pair_is_spec. reflexivity.
      + reflexivity. }
  destruct Hfound as (c & Hfind' & Hcid).
  split.
  - intros new_id' now'. rewrite <- Hsym.
    rewrite (get_or_create_found _ _ _ _ _ _ Hfind'), Hcid. auto.
  - intros Hcanon.
    assert (canonical_table (Db.conversations db')) as Hcanon'.
    { destruct Hcases as [(c0 & _ & _ & ->) | (Hnone & _ & ->)]; auto.
      simpl. now apply canonical_table_insert. }
    split; auto. now apply (canonical_table_one_row a b _ c).
Qed.

(** C2, on the sample: Alice opens the conversation with Bob on an empty
    table; Bob asking for it afterwards gets the same id, and one row links
    the two. *)
Lemma conversation_per_unordered_pair_witness :
  exists cid db',
    Db.get_or_create_conversation (Backend.new_conversation_id Sample.draw1)
      Sample.noon Sample.alice Sample.bob Sample.db0 = Db.Ok (cid, db')
    /\ Db.get_or_create_conversation "c0000000-0000-4000-8000-000000000002"
         (Sample.noon + 5) Sample.bob Sample.alice db' = Db.Ok (cid, db')
    /\ canonical_table (Db.conversations db')
    /\ List.length (filter (links Sample.alice Sample.bob) (Db.conversations db')) = 1%nat.
Proof.
  eexists. eexists.
  assert (Hcall : Db.get_or_create_conversation
                    (Backend.new_conversation_id Sample.draw1)
                    Sample.noon Sample.alice Sample.bob Sample.db0
                  = Db.Ok (Backend.new_conversation_id Sample.draw1,
                           Db.mkDb Sample.people []
                             [Db.mkConversation
                                (Backend.new_conversation_id Sample.draw1)
                                Sample.alice Sample.bob Sample.noon Sample.noon]))
    by (vm_compute; reflexivity).
  split; [exact Hcall|].
  destruct (conversation_per_unordered_pair
              (Backend.new_conversation_id Sample.draw1) Sample.noon
              Sample.alice Sample.bob Sample.db0) as (_ & _ & H).
  destruct (H _ _ Hcall) as (_ & Hagain & Hone).
  split; [apply Hagain|].
  apply Hone. split; constructor.
Defined.

(** ** The stable sort *)

Section SortFacts.
Context {A : Type} (le : A -> A -> bool).

Lemma insert_sorted_perm x l : Permutation (x :: l) (insert_sorted le x l).
Proof.
  induction l as [|y t IH]; simpl; auto.
  destruct (le x y); auto.
  rewrite perm_swap. now constructor.
Qed.

Lemma stable_sort_perm l : Permutation l (stable_sort le l).
Proof.
  induction l as [|x l IH]; simpl; auto.
  rewrite <- insert_sorted_perm. now constructor.
Qed.

Lemma stable_sort_length l : List.length (stable_sort le l) = List.length l.
Proof. symmetry. apply Permutation_length, stable_sort_perm. Qed.

Lemma stable_sort_In x l : In x (stable_sort le l) <-> In x l.
Proof.
  split; apply Permutation_in; [symmetry|]; apply stable_sort_perm.
Qed.

Hypothesis le_total : forall a b, le a b = true \/ le b a = true.

Lemma insert_sorted_hd y x t :
  le y x = true ->
  HdRel (fun a b => le a b = true) y t ->
  HdRel (fun a b => le a b = true) y (insert_sorted le x t).
Proof.
  intros Hyx Hhd. destruct t as [|z t]; simpl.
  - now constructor.
  - destruct (le x z); constructor; auto. now inversion Hhd.
Qed.

Lemma insert_sorted_sorted x l :
  Sorted (fun a b => le a b = true) l ->
  Sorted (fun a b => le a b = true) (insert_sorted le x l).
Proof.
  induction 1 as [|y t Hs IH Hhd]; simpl.
  - repeat constructor.
  - destruct (le x y) eqn:E.
    + constructor; [now constructor | now constructor].
    + constructor; auto. apply insert_sorted_hd; auto.
      destruct (le_total x y); congruence.
Qed.

Lemma stable_sort_sorted l :
  Sorted (fun a b => le a b = true) (stable_sort le l).
Proof.
  induction l as [|x l IH]; simpl; [constructor|].
  now apply insert_sorted_sorted.
Qed.

(** A sorted list is left as it is. *)
Lemma insert_sorted_head x l :
  HdRel (fun a b => le a b = true) x l -> insert_sorted le x l = x :: l.
Proof.
  destruct l as [|y t]; simpl; auto.
  intros H. inversion H; subst. now rewrite H1.
Qed.

Lemma stable_sort_sorted_id l :
  Sorted (fun a b => le a b = true) l -> stable_sort le l = l.
Proof.
  induction 1 as [|x l Hs IH Hhd]; simpl; auto.
  rewrite IH. now apply insert_sorted_head.
Qed.

Lemma stable_sort_idem l : stable_sort le (stable_sort le l) = stable_sort le l.
Proof. apply stable_sort_sorted_id, stable_sort_sorted. Qed.

End SortFacts.

Lemma Sorted_impl {A} (R R' : A -> A -> Prop) l :
  (forall a b, R a b -> R' a b) -> Sorted R l -> Sorted R' l.
Proof.
  intros H. induction 1 as [|x l Hs IH Hhd]; constructor; auto.
  destruct Hhd; constructor; auto.
Qed.

Lemma firstn_In {A} (x : A) n l : In x (firstn n l) -> In x l.
Proof.
  revert l. induction n as [|n IH]; intros l H; simpl in H; [contradiction|].
  destruct l as [|y l]; simpl in *; [contradiction|].
  destruct H as [H|H]; auto.
Qed.

Lemma firstn_sorted {A} (R : A -> A -> Prop) n l :
  StronglySorted R l -> StronglySorted R (firstn n l).
Proof.
  intros H. revert n. induction H as [|x l Hs IH Hall]; intros [|n]; simpl;
    try constructor; auto.
  rewrite Forall_forall in *. intros y Hy. apply Hall.
  now apply firstn_In in Hy.
Qed.

(** ** Loading history *)

Section HistoryFacts.
Import Db.

Lemma created_le_total a b : created_le a b = true \/ created_le b a = true.
Proof. unfold created_le. rewrite !Z.leb_le. lia. Qed.

Lemma thread_sorted cur peer ms :
  StronglySorted not_after
    (firstn history_cap (stable_sort created_le (filter (between cur peer) ms))).
Proof.
  apply firstn_sorted. apply Sorted_StronglySorted.
  - intros a b c. unfold not_after. lia.
  - eapply Sorted_impl; [|apply stable_sort_sorted, created_le_total].
    intros a b. unfold not_after, created_le. apply Z.leb_le.
Qed.

Lemma map_fst_join ps l : map fst (map (join_profile ps) l) = l.
Proof. rewrite map_map. simpl. apply map_id. Qed.

(** What the query of [fetchMessages] returns on any table: at most 100
    rows, each a message of the table between the two users, in ascending
    order of [created_at]. *)
Lemma select_thread_spec cur peer db :
  let rows := map fst (select_thread cur peer db) in
  (List.length rows <= 100)%nat
  /\ Forall (fun m => In m (messages db) /\ between cur peer m = true) rows
  /\ StronglySorted not_after rows.
Proof.
  unfold select_thread. cbv zeta. rewrite map_fst_join. split; [|split].
  - exact (firstn_le_length history_cap _).
  - apply Forall_forall. intros m Hm. apply firstn_In in Hm.
    apply stable_sort_In in Hm. now apply filter_In in Hm.
  - apply thread_sorted.
Qed.

Lemma sorted_app_le {A} (R : A -> A -> Prop) l1 l2 :
  StronglySorted R (l1 ++ l2) ->
  forall x y, In x l1 -> In y l2 -> R x y.
Proof.
  induction l1 as [|z l1 IH]; simpl; intros H x y Hx Hy; [contradiction|].
  inversion H as [|? ? Hs Hall]; subst.
  destruct Hx as [->|Hx].
  - rewrite Forall_forall in Hall. apply Hall. apply in_or_app. now right.
  - now apply IH.
Qed.

(** Which rows the cap keeps: the oldest.  A message of the two users that
    is left out was created no earlier than any message returned. *)
Lemma select_thread_keeps_oldest cur peer db m m' :
  let rows := map fst (select_thread cur peer db) in
  In m rows -> In m' (messages db) -> between cur peer m' = true ->
  ~ In m' rows -> created_at m <= created_at m'.
Proof.
  unfold select_thread. cbv zeta. rewrite map_fst_join.
  set (sorted := stable_sort created_le (filter (between cur peer) (messages db))).
  intros Hm Hin Hb Hout.
  assert (In m' sorted) as Hs.
  { apply stable_sort_In. apply filter_In. auto. }
  rewrite <- (firstn_skipn history_cap sorted) in Hs.
  apply in_app_or in Hs. destruct Hs as [Hs|Hs]; [contradiction|].
  apply (sorted_app_le not_after (firstn history_cap sorted) (skipn history_cap sorted));
    auto.
  rewrite firstn_skipn. apply Sorted_StronglySorted.
  - intros a b c. unfold not_after. lia.
  - eapply Sorted_impl; [|apply stable_sort_sorted, created_le_total].
    intros a b. unfold not_after, created_le. apply Z.leb_le.
Qed.

End HistoryFacts.

Section FetchFacts.
Import MessageStore.

(** The run of [fetchMessages] for a signed-in user and a selected peer,
    when the query succeeds. *)
Lemma fetchMessages_loaded (cur peer : uuid) l st :
  peer <> "" ->
  fetchMessages (Some peer) (Some cur) (mkReply (Some l) None) st
  = (Done tt, mkStore l false (issued st ++ [select_thread cur peer])).
Proof.
  intros Hp. apply String.eqb_neq in Hp.
  unfold fetchMessages. rewrite Hp. reflexivity.
Qed.

(** When the query fails the list is emptied and nothing is thrown. *)
Lemma fetchMessages_failed (cur peer : uuid) d e st :
  peer <> "" ->
  fetchMessages (Some peer) (Some cur) (mkReply d (Some e)) st
  = (Done tt, mkStore [] false (issued st ++ [select_thread cur peer])).
Proof.
  intros Hp. apply String.eqb_neq in Hp.
  unfold fetchMessages. rewrite Hp. reflexivity.
Qed.

End FetchFacts.

(** C3, at a thread of 101 messages.  Alice and Bob exchanged 101 messages,
    one per millisecond from noon.  Loading the history in Alice's client
    shows 100 of them in ascending order: the 100 oldest.  The most recent
    message of the thread, created at noon + 100, is in the table and is not
    shown. *)
Lemma history_misses_the_newest_message :
  let shown :=
    MessageStore.messages
      (snd (MessageStore.fetchMessages (Some Sample.bob) (Some Sample.alice)
              (Backend.serve_thread Sample.alice Sample.bob Sample.long_db)
              Sample.empty_store)) in
  List.length (Db.messages Sample.long_db) = 101%nat
  /\ forallb (Db.between Sample.alice Sample.bob) (Db.messages Sample.long_db) = true
  /\ List.length shown = 100%nat
  /\ map MessageStore.msg_created_at shown
     = map (fun k => Sample.noon + Z.of_nat k) (seq 0 100)
  /\ existsb (fun m => Db.created_at m =? Sample.noon + 100)
             (Db.messages Sample.long_db) = true
  /\ existsb (fun m => MessageStore.msg_created_at m =? Sample.noon + 100) shown = false.
Proof.
  vm_compute. repeat split; reflexivity.
Qed.

(** C4. When the insert of a send fails, [sendMessage] throws that same error
    to its caller and leaves the list without any entry under the temporary
    id: the entries under other ids are kept, in order; when the temporary id
    was not already in use, the list is exactly the one before the send. *)
Theorem failed_send_rolls_back :
  forall (cu : option uuid) (content : string) (userId recipientId : uuid)
         (env : MessageStore.send_env) (st : MessageStore.store) (e : api_error),
    error (MessageStore.insert_reply env) = Some e ->
    let tid := MessageStore.temp_id (MessageStore.date_now env) in
    let run := MessageStore.sendMessage cu content userId recipientId env st in
    fst run = MessageStore.Thrown e
    /\ MessageStore.messages (snd run)
       = filter (fun msg => negb (String.eqb (MessageStore.msg_id msg) tid))
                (MessageStore.messages st)
    /\ (fresh_id tid (MessageStore.messages st) ->
        MessageStore.messages (snd run) = MessageStore.messages st).
Proof.
  intros cu content userId recipientId env st e He tid run.
  subst run. rewrite (sendMessage_failed _ _ _ _ _ _ _ He). simpl.
  rewrite (remove_optimistic_app _ _ _ (optimistic_id _ _ _ _)).
  split; [reflexivity|]. split; [reflexivity|].
  intros Hfresh. now apply remove_optimistic_fresh.
Qed.

(** C4, on the sample: Alice writes to Dave, who has no profile; the insert
    is refused by the foreign key, the error reaches the caller and the thread
    shows what it showed before. *)
Lemma failed_send_rolls_back_witness :
  let env := fst Sample.lost_served in
  let run := MessageStore.sendMessage (Some Sample.alice) "hi" Sample.alice Sample.dave
               env Sample.one_message_store in
  fst run = MessageStore.Thrown (Backend.api_error_of Db.foreign_key_violation)
  /\ MessageStore.messages (snd run)
     = MessageStore.messages Sample.one_message_store.
Proof.
  intros env run.
  destruct (failed_send_rolls_back (Some Sample.alice) "hi" Sample.alice Sample.dave
              env Sample.one_message_store
              (Backend.api_error_of Db.foreign_key_violation))
    as (Hthrown & _ & Hsame).
  - vm_compute. reflexivity.
  - split; [exact Hthrown|]. apply Hsame.
    constructor; [vm_compute; discriminate | constructor].
Defined.

(** ** Realtime events *)

Section RealtimeFacts.
Import MessageStore.

Lemma isRelevantMessage_spec cur peer payload :
  isRelevantMessage cur peer payload = true <->
  (Db.user_id payload = cur /\ Db.recipient_id payload = Some peer)
  \/ (Db.user_id payload = peer /\ Db.recipient_id payload = Some cur).
Proof.
  unfold isRelevantMessage.
  rewrite orb_true_iff, !andb_true_iff, !String.eqb_eq, !opt_eqb_true. tauto.
Qed.

Lemma when_false m st : when false m st = (Done tt, st).
Proof. reflexivity. Qed.

End RealtimeFacts.

(** C5. A realtime insert or update event whose (sender, recipient) pair is
    not the (self, peer) pair in one of the two directions is dropped by the
    handler: the store is left as it was, whatever the backend would have
    answered, and no request is sent.  Hence an event that changes the list
    matches the pair in one of the two directions. *)
Theorem unrelated_event_is_ignored :
  forall (cur peer : uuid) (payload : Db.message)
         (r : reply MessageStore.Message) (st : MessageStore.store),
    ~ ((Db.user_id payload = cur /\ Db.recipient_id payload = Some peer)
       \/ (Db.user_id payload = peer /\ Db.recipient_id payload = Some cur)) ->
    MessageStore.on_insert cur peer payload r st = (MessageStore.Done tt, st)
    /\ MessageStore.on_update cur peer payload r st = (MessageStore.Done tt, st).
Proof.
  intros cur peer payload r st Hnot.
  assert (MessageStore.isRelevantMessage cur peer payload = false) as E.
  { destruct (MessageStore.isRelevantMessage cur peer payload) eqn:E; auto.
    apply isRelevantMessage_spec in E. contradiction. }
  unfold MessageStore.on_insert, MessageStore.on_update. rewrite E.
  split; apply when_false.
Qed.

(** An event that a handler acts upon matches the pair. *)
Corollary processed_event_is_relevant cur peer payload r st :
  MessageStore.on_insert cur peer payload r st <> (MessageStore.Done tt, st)
  \/ MessageStore.on_update cur peer payload r st <> (MessageStore.Done tt, st) ->
  (Db.user_id payload = cur /\ Db.recipient_id payload = Some peer)
  \/ (Db.user_id payload = peer /\ Db.recipient_id payload = Some cur).
Proof.
  intros H. apply isRelevantMessage_spec.
  destruct (MessageStore.isRelevantMessage cur peer payload) eqn:E; auto.
  exfalso. unfold MessageStore.on_insert, MessageStore.on_update in H.
  rewrite E in H. destruct H as [H|H]; apply H; reflexivity.
Qed.

(** C5, on the sample: while Alice looks at her thread with Bob, a message
    from Carol to Alice is inserted; Alice's list does not change. *)
Lemma unrelated_event_is_ignored_witness :
  let payload := Sample.note (Sample.nth_id 7) Sample.carol Sample.alice
                   (Sample.noon + 7) sent in
  let r := mkReply (Some (Db.join_profile Sample.people payload)) None in
  MessageStore.on_insert Sample.alice Sample.bob payload r Sample.one_message_store
  = (MessageStore.Done tt, Sample.one_message_store)
  /\ MessageStore.on_update Sample.alice Sample.bob payload r Sample.one_message_store
     = (MessageStore.Done tt, Sample.one_message_store).
Proof.
  intros payload r.
  apply (unrelated_event_is_ignored Sample.alice Sample.bob payload r
           Sample.one_message_store).
  intros [[H _]|[H _]]; vm_compute in H; discriminate H.
Defined.

Section SortAppend.
Context {A : Type} (le : A -> A -> bool).
Hypothesis le_total : forall a b, le a b = true \/ le b a = true.
Hypothesis le_trans : forall a b c, le a b = true -> le b c = true -> le a c = true.

Lemma le_false_flip a b : le a b = false -> le b a = true.
Proof. destruct (le_total a b); congruence. Qed.

(** Inserting at the front and inserting at the back commute. *)
Lemma insert_sorted_last_comm y x s :
  insert_sorted le y (insert_last le x s) = insert_last le x (insert_sorted le y s).
Proof.
  induction s as [|z t IH]; simpl.
  - destruct (le y x); reflexivity.
  - destruct (le y z) eqn:Eyz, (le z x) eqn:Ezx; simpl; rewrite ?Eyz, ?Ezx.
    + now rewrite (le_trans y z x).
    + destruct (le y x); simpl; rewrite ?Eyz, ?Ezx; reflexivity.
    + now rewrite IH.
    + assert (le y x = false) as ->; [|simpl; rewrite ?Eyz, ?Ezx; reflexivity].
      destruct (le y x) eqn:Eyx; auto.
      apply le_false_flip in Ezx. rewrite (le_trans y x z) in Eyz; congruence.
Qed.

(** Sorting a list with one more element at its end. *)
Lemma stable_sort_snoc l x :
  stable_sort le (l ++ [x]) = insert_last le x (stable_sort le l).
Proof.
  induction l as [|y l IH]; simpl; auto.
  rewrite IH. apply insert_sorted_last_comm.
Qed.

(** Two appended elements that the order tells apart end up in the same
    places whichever came first. *)
Lemma insert_last_comm a b s :
  le a b = negb (le b a) ->
  insert_last le a (insert_last le b s) = insert_last le b (insert_last le a s).
Proof.
  intros Hab. induction s as [|y t IH]; simpl.
  - rewrite Hab. destruct (le b a); reflexivity.
  - destruct (le y a) eqn:Eya, (le y b) eqn:Eyb; simpl; rewrite ?Eya, ?Eyb.
    + now rewrite IH.
    + apply le_false_flip in Eyb. now rewrite (le_trans b y a).
    + apply le_false_flip in Eya. now rewrite (le_trans a y b).
    + rewrite Hab. destruct (le b a); simpl; rewrite ?Eya, ?Eyb; reflexivity.
Qed.

End SortAppend.

Section InsertEventFacts.
Import MessageStore.

Lemma msg_created_le_total a b : created_le a b = true \/ created_le b a = true.
Proof. unfold created_le. rewrite !Z.leb_le. lia. Qed.

Lemma msg_created_le_trans a b c :
  created_le a b = true -> created_le b c = true -> created_le a c = true.
Proof. unfold created_le. rewrite !Z.leb_le. lia. Qed.

Lemma msg_created_le_apart a b :
  msg_created_at a <> msg_created_at b ->
  created_le a b = negb (created_le b a).
Proof.
  unfold created_le. intros H.
  destruct (Z.leb_spec (msg_created_at a) (msg_created_at b)),
           (Z.leb_spec (msg_created_at b) (msg_created_at a)); simpl; auto; lia.
Qed.

Lemma has_id_perm i l l' : Permutation l l' -> has_id i l = has_id i l'.
Proof.
  unfold has_id. induction 1; simpl; auto.
  - now rewrite IHPermutation.
  - now rewrite !orb_assoc, (orb_comm (String.eqb (msg_id y) i)).
  - congruence.
Qed.

Lemma has_id_snoc i l d :
  has_id i (l ++ [d]) = has_id i l || String.eqb (msg_id d) i.
Proof. unfold has_id. rewrite existsb_app. simpl. now rewrite orb_false_r. Qed.

Lemma apply_insert_present d prev :
  has_id (msg_id d) prev = true -> apply_insert d prev = prev.
Proof. unfold apply_insert, has_id. now intros ->. Qed.

Lemma apply_insert_absent d prev :
  has_id (msg_id d) prev = false ->
  apply_insert d prev = stable_sort created_le (prev ++ [d]).
Proof. unfold apply_insert, has_id. now intros ->. Qed.

(** Whether an id is in the list after an insert event. *)
Lemma has_id_apply_insert i d prev :
  has_id i (apply_insert d prev) =
  has_id i prev || (negb (has_id (msg_id d) prev) && String.eqb (msg_id d) i).
Proof.
  destruct (has_id (msg_id d) prev) eqn:E.
  - rewrite apply_insert_present by auto. simpl. now rewrite orb_false_r.
  - rewrite apply_insert_absent by auto. simpl.
    rewrite <- (has_id_perm i _ _ (stable_sort_perm created_le (prev ++ [d]))).
    apply has_id_snoc.
Qed.

Lemma apply_insert_idem d prev :
  apply_insert d (apply_insert d prev) = apply_insert d prev.
Proof.
  apply apply_insert_present. rewrite has_id_apply_insert.
  destruct (has_id (msg_id d) prev); simpl; auto.
  apply String.eqb_refl.
Qed.

(** Two insert events for different messages with different creation
    instants can be applied in either order. *)
Lemma apply_insert_comm d1 d2 prev :
  msg_id d1 <> msg_id d2 ->
  msg_created_at d1 <> msg_created_at d2 ->
  apply_insert d1 (apply_insert d2 prev) = apply_insert d2 (apply_insert d1 prev).
Proof.
  intros Hid Ht.
  assert (String.eqb (msg_id d2) (msg_id d1) = false) as E21
      by (apply String.eqb_neq; congruence).
  assert (String.eqb (msg_id d1) (msg_id d2) = false) as E12
      by (now apply String.eqb_neq).
  destruct (has_id (msg_id d1) prev) eqn:H1.
  { rewrite (apply_insert_present d1 prev H1).
    apply apply_insert_present. rewrite has_id_apply_insert, H1. reflexivity. }
  destruct (has_id (msg_id d2) prev) eqn:H2.
  { rewrite (apply_insert_present d2 prev H2).
    symmetry. apply apply_insert_present.
    rewrite has_id_apply_insert, H2. reflexivity. }
  rewrite (apply_insert_absent d1 (apply_insert d2 prev))
    by (rewrite has_id_apply_insert, H1, E21; simpl; apply andb_false_r).
  rewrite (apply_insert_absent d2 (apply_insert d1 prev))
    by (rewrite has_id_apply_insert, H2, E12; simpl; apply andb_false_r).
  rewrite (apply_insert_absent d1 prev H1), (apply_insert_absent d2 prev H2).
  rewrite (stable_sort_snoc created_le msg_created_le_total msg_created_le_trans
             (stable_sort created_le (prev ++ [d2])) d1).
  rewrite (stable_sort_snoc created_le msg_created_le_total msg_created_le_trans
             (stable_sort created_le (prev ++ [d1])) d2).
  rewrite !(stable_sort_idem created_le msg_created_le_total).
  rewrite !(stable_sort_snoc created_le msg_created_le_total msg_created_le_trans).
  apply (insert_last_comm created_le msg_created_le_total msg_created_le_trans).
  now apply msg_created_le_apart.
Qed.

(** Hence any number of insert events for different messages with
    different creation instants gives the same list in any arrival order. *)
Lemma apply_inserts_perm events events' :
  Permutation events events' ->
  NoDup (map msg_id events) ->
  NoDup (map msg_created_at events) ->
  forall prev, apply_inserts events prev = apply_inserts events' prev.
Proof.
  unfold apply_inserts.
  induction 1 as [|x l l' Hp IH|x y l|l l' l'' Hp1 IH1 Hp2 IH2];
    simpl; intros Hid Ht prev; auto.
  - apply NoDup_cons_iff in Hid. apply NoDup_cons_iff in Ht.
    apply IH; tauto.
  - f_equal. apply apply_insert_comm.
    + apply NoDup_cons_iff in Hid. destruct Hid as [Hn _].
      intros E. apply Hn. left. congruence.
    + apply NoDup_cons_iff in Ht. destruct Ht as [Hn _].
      intros E. apply Hn. left. congruence.
  - rewrite IH1 by auto. apply IH2.
    + eapply Permutation_NoDup; [apply Permutation_map, Hp1 | auto].
    + eapply Permutation_NoDup; [apply Permutation_map, Hp1 | auto].
Qed.

Lemma apply_insert_sorted d prev :
  has_id (msg_id d) prev = false ->
  StronglySorted (fun a b => msg_created_at a <= msg_created_at b)
                 (apply_insert d prev).
Proof.
  intros H. rewrite (apply_insert_absent d prev H).
  apply Sorted_StronglySorted.
  - intros a b c. lia.
  - eapply Sorted_impl; [|apply stable_sort_sorted, msg_created_le_total].
    intros a b. unfold created_le. apply Z.leb_le.
Qed.

(** The sort is stable: the messages of one millisecond keep the order they
    had. *)
Lemma created_in_insert_sorted t x l :
  filter (created_in t) (insert_sorted created_le x l)
  = filter (created_in t) (x :: l).
Proof.
  induction l as [|y l IH]; [reflexivity|].
  cbn [insert_sorted]. destruct (created_le x y) eqn:E; [reflexivity|].
  cbn [filter] in *. rewrite IH.
  destruct (created_in t x) eqn:Ex; [|reflexivity].
  assert (created_in t y = false) as ->; [|reflexivity].
  unfold created_in, created_le in *.
  apply Z.eqb_eq in Ex. apply Z.leb_gt in E. apply Z.eqb_neq. lia.
Qed.

Lemma created_in_stable_sort t l :
  filter (created_in t) (stable_sort created_le l) = filter (created_in t) l.
Proof.
  induction l as [|x l IH]; [reflexivity|].
  cbn [stable_sort fold_right]. fold (stable_sort created_le l).
  rewrite created_in_insert_sorted. cbn [filter]. now rewrite IH.
Qed.

Lemma apply_inserts_fresh_perm events : forall prev,
  NoDup (map msg_id events) ->
  (forall e, In e events -> has_id (msg_id e) prev = false) ->
  Permutation (prev ++ events) (apply_inserts events prev).
Proof.
  unfold apply_inserts.
  induction events as [|e es IH]; intros prev Hnd Hfresh; cbn [fold_left].
  - now rewrite app_nil_r.
  - cbn [map] in Hnd. apply NoDup_cons_iff in Hnd. destruct Hnd as [He Hnd].
    eapply Permutation_trans; [|apply IH; [exact Hnd|]].
    + rewrite (apply_insert_absent e prev) by (apply Hfresh; now left).
      change (e :: es) with ([e] ++ es). rewrite app_assoc.
      apply Permutation_app_tail. apply stable_sort_perm.
    + intros e' He'. rewrite has_id_apply_insert.
      rewrite (Hfresh e') by now right. rewrite (Hfresh e) by now left. simpl.
      apply String.eqb_neq. intros E. apply He. rewrite E. now apply in_map.
Qed.

Lemma created_in_apply_inserts t events : forall prev,
  NoDup (map msg_id events) ->
  (forall e, In e events -> has_id (msg_id e) prev = false) ->
  filter (created_in t) (apply_inserts events prev)
  = filter (created_in t) prev ++ filter (created_in t) events.
Proof.
  unfold apply_inserts.
  induction events as [|e es IH]; intros prev Hnd Hfresh; cbn [fold_left].
  - cbn [filter]. now rewrite app_nil_r.
  - cbn [map] in Hnd. apply NoDup_cons_iff in Hnd. destruct Hnd as [He Hnd].
    rewrite IH; [|exact Hnd|].
    + rewrite (apply_insert_absent e prev) by (apply Hfresh; now left).
      rewrite created_in_stable_sort, filter_app, <- app_assoc.
      change (e :: es) with ([e] ++ es). now rewrite (filter_app _ [e] es).
    + intros e' He'. rewrite has_id_apply_insert.
      rewrite (Hfresh e') by now right. rewrite (Hfresh e) by now left. simpl.
      apply String.eqb_neq. intros E. apply He. rewrite E. now apply in_map.
Qed.

End InsertEventFacts.

(** C6 (as amended).  Applying a relevant insert event is idempotent: when a
    message with the same id is present the list is unchanged, otherwise the
    refreshed message is appended and the whole list is sorted again,
    ascending by creation instant; applying the same event twice is applying
    it once.  The comparator reads the creation instants to the millisecond.
    The final list does not depend on the arrival order of insert events for
    different messages whose creation instants, read so, all differ; messages
    created in the same millisecond stay in the order they had, those already
    listed first and then the new ones in the order of arrival. *)
Theorem insert_event_dedup_and_order :
  forall (d : MessageStore.Message) (prev : list MessageStore.Message),
    (has_id (MessageStore.msg_id d) prev = true ->
     MessageStore.apply_insert d prev = prev)
    /\ (has_id (MessageStore.msg_id d) prev = false ->
        MessageStore.apply_insert d prev
        = stable_sort MessageStore.created_le (prev ++ [d])
        /\ Permutation (prev ++ [d]) (MessageStore.apply_insert d prev)
        /\ StronglySorted
             (fun a b => MessageStore.msg_created_at a <= MessageStore.msg_created_at b)
             (MessageStore.apply_insert d prev)
        /\ forall t, filter (created_in t) (MessageStore.apply_insert d prev)
                     = filter (created_in t) (prev ++ [d]))
    /\ MessageStore.apply_insert d (MessageStore.apply_insert d prev)
       = MessageStore.apply_insert d prev
    /\ (forall events events',
           Permutation events events' ->
           NoDup (map MessageStore.msg_id events) ->
           NoDup (map MessageStore.msg_created_at events) ->
           apply_inserts events prev = apply_inserts events' prev)
    /\ (forall events,
           NoDup (map MessageStore.msg_id events) ->
           (forall e, In e events -> has_id (MessageStore.msg_id e) prev = false) ->
           Permutation (prev ++ events) (apply_inserts events prev)
           /\ forall t, filter (created_in t) (apply_inserts events prev)
                        = filter (created_in t) prev ++ filter (created_in t) events).
Proof.
  intros d prev. split; [|split; [|split; [|split]]].
  - apply apply_insert_present.
  - intros H. split; [now apply apply_insert_absent|]. split; [|split].
    + rewrite (apply_insert_absent d prev H). apply stable_sort_perm.
    + now apply apply_insert_sorted.
    + intros t. rewrite (apply_insert_absent d prev H).
      apply created_in_stable_sort.
  - apply apply_insert_idem.
  - intros events events' Hp Hid Ht. now apply apply_inserts_perm.
  - intros events Hid Hfresh. split.
    + now apply apply_inserts_fresh_perm.
    + intros t. now apply created_in_apply_inserts.
Qed.

(** C6, on the sample: Alice's thread shows one earlier message; the inserts
    of two later messages arrive in one order or the other, one of them
    twice, and the thread ends up the same. *)
Lemma insert_event_dedup_and_order_witness :
  let d1 := Db.join_profile Sample.people
              (Sample.note (Sample.nth_id 1) Sample.alice Sample.bob (Sample.noon + 1) sent) in
  let d2 := Db.join_profile Sample.people
              (Sample.note (Sample.nth_id 2) Sample.bob Sample.alice (Sample.noon + 2) sent) in
  let prev := MessageStore.messages Sample.one_message_store in
  apply_inserts [d1; d2] prev = apply_inserts [d2; d1] prev
  /\ MessageStore.apply_insert d1 (MessageStore.apply_insert d1 prev)
     = MessageStore.apply_insert d1 prev
  /\ Permutation (prev ++ [d1]) (MessageStore.apply_insert d1 prev).
Proof.
  intros d1 d2 prev.
  destruct (insert_event_dedup_and_order d1 prev)
    as (_ & Habsent & Hidem & Hperm & _).
  split; [|split].
  - apply Hperm.
    + apply perm_swap.
    + constructor; [|constructor; [intros []|constructor]].
      intros [H|[]]. vm_compute in H. discriminate H.
    + constructor; [|constructor; [intros []|constructor]].
      intros [H|[]]. vm_compute in H. discriminate H.
  - exact Hidem.
  - apply Habsent. vm_compute. reflexivity.
Defined.

(** C6 as stated fails: two messages created in the same millisecond stay in
    the order in which their insert events arrived. *)
Lemma equal_instants_keep_arrival_order :
  let d1 := Db.join_profile Sample.people
              (Sample.note (Sample.nth_id 1) Sample.alice Sample.bob Sample.noon sent) in
  let d2 := Db.join_profile Sample.people
              (Sample.note (Sample.nth_id 2) Sample.bob Sample.alice Sample.noon sent) in
  MessageStore.msg_id d1 <> MessageStore.msg_id d2
  /\ MessageStore.apply_insert d2 (MessageStore.apply_insert d1 []) = [d1; d2]
  /\ MessageStore.apply_insert d1 (MessageStore.apply_insert d2 []) = [d2; d1]
  /\ MessageStore.apply_insert d2 (MessageStore.apply_insert d1 [])
     <> MessageStore.apply_insert d1 (MessageStore.apply_insert d2 []).
Proof.
  intros d1 d2. split; [|split; [|split]].
  - vm_compute. discriminate.
  - vm_compute. reflexivity.
  - vm_compute. reflexivity.
  - vm_compute. discriminate.
Qed.

(** ** Directory search *)

Section TrimFacts.
Import Directory.

Lemma trim_start_split l :
  exists pre, l = pre ++ trim_start l /\ blank_chars pre = true.
Proof.
  remember (List.length l) as n eqn:Hn.
  revert l Hn. induction n as [n IH] using lt_wf_ind. intros l Hn.
  destruct l as [|c1 t1]; [exists []; auto|].
  cbn [trim_start]. destruct (space1 c1) eqn:E1.
  { destruct (IH (List.length t1)) with (l := t1) as (pre & Hp & Hb);
      [subst n; simpl; lia | reflexivity|].
    exists (c1 :: pre). split; [simpl; congruence|]. simpl. now rewrite E1. }
  destruct t1 as [|c2 t2]; [exists []; auto|].
  destruct (space2 c1 c2) eqn:E2.
  { destruct (IH (List.length t2)) with (l := t2) as (pre & Hp & Hb);
      [subst n; simpl; lia | reflexivity|].
    exists (c1 :: c2 :: pre). split; [simpl; congruence|].
    simpl. now rewrite E1, E2. }
  destruct t2 as [|c3 t3]; [exists []; auto|].
  destruct (space3 c1 c2 c3) eqn:E3; [|exists []; auto].
  destruct (IH (List.length t3)) with (l := t3) as (pre & Hp & Hb);
    [subst n; simpl; lia | reflexivity|].
  exists (c1 :: c2 :: c3 :: pre). split; [simpl; congruence|].
  simpl. now rewrite E1, E2, E3.
Qed.

Lemma trim_start_head l : space_head (trim_start l) = false.
Proof.
  remember (List.length l) as n eqn:Hn.
  revert l Hn. induction n as [n IH] using lt_wf_ind. intros l Hn.
  destruct l as [|c1 t1]; [reflexivity|].
  cbn [trim_start]. destruct (space1 c1) eqn:E1.
  { apply (IH (List.length t1)); [subst n; simpl; lia | reflexivity]. }
  destruct t1 as [|c2 t2]; [simpl; now rewrite E1|].
  destruct (space2 c1 c2) eqn:E2.
  { apply (IH (List.length t2)); [subst n; simpl; lia | reflexivity]. }
  destruct t2 as [|c3 t3]; [simpl; now rewrite E1, E2|].
  destruct (space3 c1 c2 c3) eqn:E3.
  { apply (IH (List.length t3)); [subst n; simpl; lia | reflexivity]. }
  simpl. now rewrite E1, E2, E3.
Qed.

Lemma blank_chars_head l :
  blank_chars l = true -> l = [] \/ space_head l = true.
Proof.
  destruct l as [|c1 t1]; [now left|]. right. simpl in *.
  destruct (space1 c1); [reflexivity|].
  destruct t1 as [|c2 t2]; [discriminate|].
  destruct (space2 c1 c2); [reflexivity|].
  destruct t2 as [|c3 t3]; [discriminate|].
  apply andb_true_iff in H. simpl. tauto.
Qed.

Lemma blank_chars_app a b :
  blank_chars a = true -> blank_chars (a ++ b) = blank_chars b.
Proof.
  remember (List.length a) as n eqn:Hn.
  revert a Hn. induction n as [n IH] using lt_wf_ind. intros a Hn Ha.
  destruct a as [|c1 t1]; [reflexivity|].
  cbn [blank_chars app] in *. destruct (space1 c1) eqn:E1.
  { apply (IH (List.length t1)); [subst n; simpl; lia | reflexivity | exact Ha]. }
  destruct t1 as [|c2 t2]; [discriminate|].
  cbn [app]. destruct (space2 c1 c2) eqn:E2.
  { apply (IH (List.length t2)); [subst n; simpl; lia | reflexivity | exact Ha]. }
  destruct t2 as [|c3 t3]; [discriminate|].
  cbn [app]. apply andb_true_iff in Ha. destruct Ha as [E3 Ha]. rewrite E3.
  apply (IH (List.length t3)); [subst n; simpl; lia | reflexivity | exact Ha].
Qed.

Lemma trim_start_blank l : blank_chars (trim_start l) = blank_chars l.
Proof.
  destruct (trim_start_split l) as (pre & Hl & Hpre).
  rewrite Hl at 2. now rewrite blank_chars_app.
Qed.

Lemma trim_end_split l :
  exists post, l = trim_end l ++ post /\ blank_chars post = true.
Proof.
  induction l as [|c t (post & Hp & Hb)]; [exists []; auto|].
  cbn [trim_end]. destruct (blank_chars (c :: t)) eqn:E.
  - exists (c :: t). auto.
  - exists post. split; [simpl; congruence | exact Hb].
Qed.

Lemma trim_end_nil l : trim_end l = [] <-> blank_chars l = true.
Proof.
  destruct l as [|c t]; [simpl; tauto|].
  cbn [trim_end]. destruct (blank_chars (c :: t)); split; auto; discriminate.
Qed.

(** What is left has no white space at its end. *)
Lemma trim_end_tail l a b :
  trim_end l = a ++ b -> b <> [] -> blank_chars b = false.
Proof.
  revert a. induction l as [|c t IH]; intros a H Hb.
  - simpl in H. symmetry in H. apply app_eq_nil in H. tauto.
  - cbn [trim_end] in H. destruct (blank_chars (c :: t)) eqn:E.
    + symmetry in H. apply app_eq_nil in H. tauto.
    + destruct a as [|x a]; simpl in H.
      * subst b. destruct (trim_end_split t) as (post & Ht & Hp).
        destruct (blank_chars (c :: trim_end t)) eqn:E'; [|reflexivity].
        rewrite Ht in E. change (c :: trim_end t ++ post)
          with ((c :: trim_end t) ++ post) in E.
        rewrite (blank_chars_app _ _ E') in E. congruence.
      * injection H as _ H. now apply (IH a).
Qed.

Lemma space_head_prefix a b : space_head (a ++ b) = false -> space_head a = false.
Proof.
  destruct a as [|c1 [|c2 [|c3 t]]]; simpl; auto.
  - destruct (space1 c1); [discriminate | reflexivity].
  - destruct (space1 c1); [discriminate|]. simpl.
    destruct (space2 c1 c2); [discriminate | reflexivity].
Qed.

Lemma trim_head l : space_head (trim_end (trim_start l)) = false.
Proof.
  destruct (trim_end_split (trim_start l)) as (post & H & _).
  apply (space_head_prefix _ post). rewrite <- H. apply trim_start_head.
Qed.

Lemma trim_chars s : chars (trim s) = trim_end (trim_start (chars s)).
Proof. apply list_ascii_of_string_of_list_ascii. Qed.

Lemma trim_empty s : trim s = "" <-> blank s = true.
Proof.
  unfold blank. rewrite <- trim_start_blank, <- trim_end_nil. unfold trim.
  split.
  - intros H. apply (f_equal list_ascii_of_string) in H.
    now rewrite list_ascii_of_string_of_list_ascii in H.
  - now intros ->.
Qed.

End TrimFacts.

Section LikeFacts.
Import Directory.

Lemma chars_append a b : chars (String.append a b) = chars a ++ chars b.
Proof.
  unfold chars. induction a as [|c a IH]; simpl; auto. now rewrite IH.
Qed.

Lemma like_plain_unfold c p s :
  wildcard c = false ->
  like (c :: p) s
  = match s with [] => false | x :: s' => Ascii.eqb x c && like p s' end.
Proof.
  unfold wildcard. intros H.
  apply orb_false_iff in H. destruct H as [H _].
  apply orb_false_iff in H. destruct H as [H H3].
  apply orb_false_iff in H. destruct H as [H1 H2].
  simpl. now rewrite H1, H2, H3.
Qed.

Lemma like_percent_eq p s : like ("%"%char :: p) s = like p s || later p s.
Proof. reflexivity. Qed.

Lemma later_spec p s :
  later p s = true <->
  exists pre post, s = pre ++ post /\ pre <> [] /\ starts_character post
                   /\ like p post = true.
Proof.
  induction s as [|c s IH].
  - simpl. split; [discriminate|].
    intros (pre & post & H & Hne & _). destruct pre; [now elim Hne | discriminate H].
  - change (later p (c :: s))
      with (match s with
            | [] => like p []
            | x :: _ => negb (continuation x) && like p s
            end || later p s).
    rewrite orb_true_iff, IH. split.
    + intros [H|(pre & post & -> & Hne & Hb & Hl)].
      * exists [c], s. split; [reflexivity|]. split; [discriminate|].
        destruct s as [|x s']; [split; [exact I | exact H]|].
        apply andb_true_iff in H. destruct H as [Hx Hl].
        apply negb_true_iff in Hx. split; [exact Hx | exact Hl].
      * exists (c :: pre), post. split; [reflexivity|]. split; [discriminate|]. auto.
    + intros (pre & post & Hs & Hne & Hb & Hl).
      destruct pre as [|x pre]; [now elim Hne|]. simpl in Hs. injection Hs as <- ->.
      destruct pre as [|y pre].
      * left. simpl. destruct post as [|z post]; [exact Hl|].
        simpl in Hb. now rewrite Hb, Hl.
      * right. exists (y :: pre), post. split; [reflexivity|].
        split; [discriminate|]. auto.
Qed.

(** A leading [%] lets the rest of the pattern match from any character of
    the text on. *)
Lemma like_percent p s :
  like ("%"%char :: p) s = true <->
  exists pre post, s = pre ++ post /\ boundary pre post /\ like p post = true.
Proof.
  rewrite like_percent_eq, orb_true_iff, later_spec. unfold boundary. split.
  - intros [H|(pre & post & Hs & Hne & Hb & Hl)].
    + exists [], s. auto.
    + exists pre, post. auto.
  - intros (pre & post & Hs & Hb & Hl).
    destruct pre as [|x pre]; [left; now subst s|].
    right. exists (x :: pre), post. split; [exact Hs|].
    split; [discriminate|]. destruct Hb as [Hb|Hb]; [discriminate Hb|]. auto.
Qed.

(** A pattern that is a single [%] matches every text. *)
Lemma like_any s : like ["%"%char] s = true.
Proof.
  apply like_percent. exists s, []. rewrite app_nil_r.
  split; [reflexivity|]. split; [right; exact I | reflexivity].
Qed.

(** Plain bytes followed by [%] match the texts they are a prefix of. *)
Lemma like_plain_prefix lit s :
  plain lit = true ->
  like (lit ++ ["%"%char]) s = true <-> exists post, s = lit ++ post.
Proof.
  unfold plain. revert s. induction lit as [|c lit IH]; intros s Hlit.
  - cbn [app]. rewrite like_any. split; eauto.
  - simpl in Hlit. apply andb_true_iff in Hlit. destruct Hlit as [Hc Hlit].
    apply negb_true_iff in Hc. rewrite <- app_comm_cons.
    rewrite (like_plain_unfold c _ s Hc). destruct s as [|x s].
    + split; [discriminate | intros (post & H); discriminate H].
    + rewrite andb_true_iff, Ascii.eqb_eq, (IH s Hlit). split.
      * intros (-> & post & ->). now exists post.
      * intros (post & H). injection H as -> ->. eauto.
Qed.

Lemma rest_pattern_plain l : plain l = true -> rest_pattern l = l.
Proof.
  unfold rest_pattern, plain. induction l as [|c l IH]; simpl; auto.
  intros H. apply andb_true_iff in H. destruct H as [Hc Hl].
  rewrite (IH Hl). apply negb_true_iff in Hc. unfold wildcard in Hc.
  apply orb_false_iff in Hc. destruct Hc as [_ Hc]. now rewrite Hc.
Qed.

Section FoldFacts.
Variable fold : list ascii -> list ascii.
Hypothesis fold_ok : respects_patterns fold.

(** The pattern the backend matches with, for a term without pattern
    characters. *)
Lemma pattern_chars term :
  plain (chars term) = true ->
  fold (rest_pattern (chars (String.append "%" (String.append term "%"))))
  = "%"%char :: (fold (chars term) ++ ["%"%char]).
Proof.
  intros Hplain. rewrite !chars_append.
  unfold rest_pattern. rewrite !map_app.
  fold (rest_pattern (chars term)). rewrite (rest_pattern_plain _ Hplain).
  apply fold_ok.
Qed.

(** For a term without pattern characters, [ILIKE '%term%'] is containment
    up to case. *)
Lemma ilike_plain_contains term text :
  plain (chars term) = true ->
  starts_character (fold (chars term)) ->
  ilike fold (String.append "%" (String.append term "%")) text = true
  <-> contains_ci fold term text.
Proof.
  intros Hplain Hstart. unfold ilike, contains_ci.
  rewrite (pattern_chars term Hplain), like_percent. split.
  - intros (pre & post & Hs & _ & Hl).
    apply like_plain_prefix in Hl; [|now apply fold_ok].
    destruct Hl as (post' & ->). eauto.
  - intros (pre & post & Hs).
    destruct (fold (chars term)) as [|c l] eqn:E.
    + exists [], (fold (chars text)). split; [reflexivity|].
      split; [now left|]. apply like_plain_prefix; [reflexivity|]. now eexists.
    + exists pre, ((c :: l) ++ post). split; [exact Hs|]. split.
      * right. exact Hstart.
      * apply like_plain_prefix; [|eauto].
        rewrite <- E. now apply fold_ok.
Qed.

End FoldFacts.
End LikeFacts.


Section SampleLocale.
Import Directory.

Lemma lower_plain c : wildcard c = false -> wildcard (lower c) = false.
Proof.
  destruct c as [[] [] [] [] [] [] [] []]; vm_compute; congruence.
Qed.

Lemma lower_percent : lower "%" = "%"%char.
Proof. reflexivity. Qed.

(** Folding the ASCII letters byte by byte respects the patterns. *)
Lemma map_lower_respects : respects_patterns (map lower).
Proof.
  split.
  - intros l. cbn [map]. now rewrite map_app.
  - unfold plain. induction l as [|c l IH]; simpl; auto.
    intros H. apply andb_true_iff in H. destruct H as [Hc Hl].
    apply negb_true_iff in Hc. now rewrite (lower_plain c Hc), IH.
Qed.

Lemma ascii_compare_N a b :
  Ascii.compare a b = N.compare (N_of_ascii a) (N_of_ascii b).
Proof. reflexivity. Qed.

Lemma string_leb_trans a b c :
  String.leb a b = true -> String.leb b c = true -> String.leb a c = true.
Proof.
  unfold String.leb. revert b c.
  induction a as [|x a IH]; intros [|y b] [|z c]; simpl; try congruence.
  rewrite !ascii_compare_N.
  destruct (N.compare_spec (N_of_ascii x) (N_of_ascii y)) as [Exy|Exy|Exy];
    destruct (N.compare_spec (N_of_ascii y) (N_of_ascii z)) as [Eyz|Eyz|Eyz];
    try congruence; intros H1 H2.
  - rewrite Exy, Eyz, N.compare_refl. now apply (IH b c).
  - rewrite Exy. now apply N.compare_lt_iff in Eyz as ->.
  - rewrite <- Eyz. now apply N.compare_lt_iff in Exy as ->.
  - assert (N_of_ascii x < N_of_ascii z)%N as E by lia.
    now apply N.compare_lt_iff in E as ->.
Qed.

End SampleLocale.

Lemma firstn_Sorted {A} (R : A -> A -> Prop) n l :
  Sorted R l -> Sorted R (firstn n l).
Proof.
  intros H. revert n. induction H as [|x l Hs IH Hhd]; intros [|n]; simpl;
    try constructor; auto.
  destruct Hhd as [|y l Hxy]; destruct n; simpl; constructor; auto.
Qed.

(** What a cap keeps of a sorted list: an element that is left out comes
    after all those that are kept, and then the cap is reached. *)
Lemma capped_sorted_complete {A} (R : A -> A -> Prop) n (l : list A) x :
  StronglySorted R l -> In x l ->
  In x (firstn n l)
  \/ (List.length (firstn n l) = n /\ Forall (fun y => R y x) (firstn n l)).
Proof.
  intros Hs Hx. rewrite <- (firstn_skipn n l) in Hx, Hs.
  apply in_app_or in Hx. destruct Hx as [Hx|Hx]; [now left|]. right. split.
  - apply firstn_length_le.
    destruct (Nat.le_gt_cases n (List.length l)) as [H|H]; [exact H|].
    rewrite skipn_all2 in Hx by lia. contradiction.
  - apply Forall_forall. intros y Hy.
    now apply (sorted_app_le R (firstn n l) (skipn n l)).
Qed.

Section SearchFacts.
Import Directory.
Variable fold : list ascii -> list ascii.
Variable collate : string -> string -> bool.
Hypothesis collate_total : forall a b, collate a b = true \/ collate b a = true.
Hypothesis collate_trans :
  forall a b c, collate a b = true -> collate b c = true -> collate a c = true.

Lemma username_le_total a b :
  username_le collate a b = true \/ username_le collate b a = true.
Proof. apply collate_total. Qed.

(** The rows the backend finds for a term, before the cap. *)
Lemma matches_sorted pattern ps :
  StronglySorted (fun a b => collate (Db.username a) (Db.username b) = true)
    (stable_sort (username_le collate)
       (filter (fun p => ilike fold pattern (Db.username p)) ps)).
Proof.
  apply Sorted_StronglySorted.
  - intros a b c. apply collate_trans.
  - apply (stable_sort_sorted (username_le collate) username_le_total).
Qed.

(** What the hook holds after a search served by the table [ps]. *)
Lemma search_results_cases searchTerm ps st :
  let found := searchResults (searchUserByUsername searchTerm
                                (search_profiles fold collate ps) st) in
  ((blank searchTerm = true \/ blank (cleanUsername searchTerm) = true)
   /\ found = [])
  \/ (blank searchTerm = false /\ blank (cleanUsername searchTerm) = false
      /\ found = firstn search_cap
                   (stable_sort (username_le collate)
                      (filter (fun p => ilike fold
                                          (String.append "%"
                                             (String.append (cleanUsername searchTerm) "%"))
                                          (Db.username p)) ps))).
Proof.
  unfold searchUserByUsername.
  destruct (blank searchTerm); [left; auto|].
  destruct (blank (cleanUsername searchTerm)); [left; auto|].
  right. auto.
Qed.

End SearchFacts.

Lemma filteredResults_not_self me st :
  Forall (fun p => Db.p_id p <> me) (Directory.filteredResults (Some me) st).
Proof.
  apply Forall_forall. intros p Hp. unfold Directory.filteredResults in Hp.
  apply filter_In in Hp. destruct Hp as [_ Hp].
  apply negb_true_iff in Hp. simpl in Hp. now apply String.eqb_neq.
Qed.

(** C7 (as amended).  Whatever the locale of the database is (its case
    folding and its collation, a total order): the search strips one leading
    [@]; it returns at most 10 profiles of the table, in alphabetical order
    of handle as the collation has it; each returned handle matches the
    case-insensitive pattern [%term%], and a matching handle that is not
    returned comes after 10 that are; for a term without the pattern
    characters [%], [_], [\] and [*], matching the pattern means that the
    handle contains the term up to case; a blank term finds nothing; and the
    searching user's own profile is neither listed among the selectable
    results nor accepted by [handleSelectUser]. *)
Theorem search_by_handle :
  forall (fold : list ascii -> list ascii) (collate : string -> string -> bool)
         (searchTerm : string) (ps : list Db.profile)
         (st : Directory.search_state) (me : uuid),
    (forall a b, collate a b = true \/ collate b a = true) ->
    (forall a b c, collate a b = true -> collate b c = true -> collate a c = true) ->
    let cleaned := Directory.cleanUsername searchTerm in
    let pattern := String.append "%" (String.append cleaned "%") in
    let st' := Directory.searchUserByUsername searchTerm
                 (Directory.search_profiles fold collate ps) st in
    let found := Directory.searchResults st' in
    (forall rest, Directory.cleanUsername (String "@" rest) = rest)
    /\ (forall c rest, c <> "@"%char ->
                       Directory.cleanUsername (String c rest) = String c rest)
    /\ (List.length found <= 10)%nat
    /\ StronglySorted
         (fun a b => collate (Db.username a) (Db.username b) = true) found
    /\ Forall (fun p => In p ps
                        /\ Directory.ilike fold pattern (Db.username p) = true)
              found
    /\ (Directory.blank searchTerm = false -> Directory.blank cleaned = false ->
        forall p, In p ps -> Directory.ilike fold pattern (Db.username p) = true ->
          In p found
          \/ (List.length found = 10%nat
              /\ Forall (fun q => collate (Db.username q) (Db.username p) = true)
                        found))
    /\ (Directory.blank searchTerm = true \/ Directory.blank cleaned = true ->
        found = [])
    /\ (respects_patterns fold ->
        Directory.plain (Directory.chars cleaned) = true ->
        starts_character (fold (Directory.chars cleaned)) ->
        forall handle,
          Directory.ilike fold pattern handle = true
          <-> contains_ci fold cleaned handle)
    /\ Forall (fun p => Db.p_id p <> me) (Directory.filteredResults (Some me) st')
    /\ (forall p, Db.p_id p = me -> Directory.handleSelectUser (Some me) p = None).
Proof.
  intros fold collate searchTerm ps st me Htotal Htrans cleaned pattern st' found.
  pose proof (search_results_cases fold collate searchTerm ps st) as Hcases.
  cbv zeta in Hcases. fold st' in Hcases. fold found in Hcases.
  fold cleaned in Hcases. fold pattern in Hcases.
  pose proof (matches_sorted fold collate Htotal Htrans pattern ps) as Hsorted.
  set (rows := stable_sort (Directory.username_le collate)
                 (filter (fun p => Directory.ilike fold pattern (Db.username p)) ps))
    in *.
  split; [reflexivity|]. split.
  { intros c rest Hc. unfold Directory.cleanUsername.
    destruct c as [[] [] [] [] [] [] [] []]; try reflexivity. now elim Hc. }
  split.
  { destruct Hcases as [[_ ->]|(_ & _ & ->)]; [simpl; lia|].
    exact (firstn_le_length Directory.search_cap _). }
  split.
  { destruct Hcases as [[_ ->]|(_ & _ & ->)]; [constructor|].
    now apply firstn_sorted. }
  split.
  { destruct Hcases as [[_ ->]|(_ & _ & ->)]; [constructor|].
    apply Forall_forall. intros p Hp. apply firstn_In in Hp.
    apply stable_sort_In in Hp. now apply filter_In in Hp. }
  split.
  { intros Hb Hc p Hin Hmatch.
    destruct Hcases as [[[H|H] _]|(_ & _ & ->)]; [congruence | congruence |].
    apply (capped_sorted_complete _ Directory.search_cap rows p Hsorted).
    apply stable_sort_In. apply filter_In. auto. }
  split.
  { intros Hb. destruct Hcases as [[_ H]|(H1 & H2 & _)]; [exact H|].
    destruct Hb; congruence. }
  split.
  { intros Hfold Hplain Hstart handle.
    now apply ilike_plain_contains. }
  split; [apply filteredResults_not_self|].
  intros p <-. unfold Directory.handleSelectUser. simpl.
  now rewrite String.eqb_refl.
Qed.

(** C7, on the sample, in the locale C: Alice searches "@ALI" and the only
    match is her own profile, which the dropdown does not offer. *)
Lemma search_by_handle_witness :
  let st' := Directory.searchUserByUsername "@ALI"
               (Directory.search_profiles Sample.fold Sample.collate Sample.people)
               Sample.idle_search in
  map Db.username (Directory.searchResults st') = ["alice"]
  /\ Forall (fun p => contains_ci Sample.fold "ALI" (Db.username p))
            (Directory.searchResults st')
  /\ Directory.filteredResults (Some Sample.alice) st' = [].
Proof.
  intros st'.
  destruct (search_by_handle Sample.fold Sample.collate "@ALI" Sample.people
              Sample.idle_search Sample.alice String.leb_total string_leb_trans)
    as (_ & _ & _ & _ & Hmatch & _ & _ & Hcontains & _ & _).
  split; [vm_compute; reflexivity|]. split.
  - eapply Forall_impl; [|exact Hmatch]. intros p [_ Hp].
    apply (Hcontains map_lower_respects); [reflexivity | reflexivity | exact Hp].
  - vm_compute. reflexivity.
Defined.

(** C7 as stated fails for a term with a pattern character: in the locale C,
    "@b_b" finds the handle "bob", which does not contain "b_b". *)
Lemma underscore_matches_any_character :
  let st' := Directory.searchUserByUsername "@b_b"
               (Directory.search_profiles Sample.fold Sample.collate Sample.people)
               Sample.idle_search in
  map Db.username (Directory.searchResults st') = ["bob"]
  /\ ~ contains_ci Sample.fold "b_b" "bob".
Proof.
  intros st'. split; [vm_compute; reflexivity|].
  intros (pre & post & H).
  assert (Hlen := f_equal (@List.length ascii) H).
  rewrite !length_app in Hlen. simpl in Hlen.
  destruct pre; [|simpl in Hlen; lia].
  destruct post; [|simpl in Hlen; lia].
  vm_compute in H. discriminate H.
Qed.

(** ** What loading a thread sends *)

Section LoadFacts.
Import MessageStore.

(** [fetchMessages] never throws, and sends the one query. *)
Lemma fetchMessages_run (cur peer : uuid) r st :
  peer <> "" ->
  exists l,
    fetchMessages (Some peer) (Some cur) r st
    = (Done tt, mkStore l false (issued st ++ [select_thread cur peer])).
Proof.
  intros Hp. apply String.eqb_neq in Hp.
  unfold fetchMessages. rewrite Hp.
  destruct r as [d [e|]]; [|destruct d]; eexists; reflexivity.
Qed.

Lemma markMessagesAsSeen_run (cur peer : uuid) st :
  peer <> "" ->
  markMessagesAsSeen (Some peer) (Some cur) st
  = (Done tt, mkStore (messages st) (loading st)
                      (issued st ++ [rpc_mark_messages_as_seen peer cur])).
Proof.
  intros Hp. apply String.eqb_neq in Hp.
  unfold markMessagesAsSeen. now rewrite Hp.
Qed.

Lemma truthy_some (s : uuid) : s <> "" -> truthy (Some s) = true.
Proof. intros H. apply String.eqb_neq in H. simpl. now rewrite H. Qed.

End LoadFacts.

(** C8 (as amended).  When the history of a selected peer is loaded, by the
    effect of the hook or by a refresh, the store sends the query and then the
    mark-seen call, [mark_messages_as_seen] with the peer as sender and the
    current user as viewer, and nothing else but opening the subscription.
    The mark-delivered call for the current user is sent by [sendMessage]
    after a successful insert. *)
Theorem load_marks_seen :
  forall (cur peer : uuid) (r : reply (list MessageStore.Message))
         (st : MessageStore.store),
    peer <> "" ->
    MessageStore.issued
      (snd (MessageStore.useMessages_effect (Some peer) false (Some cur) r st))
    = MessageStore.issued st
        ++ [MessageStore.select_thread cur peer;
            MessageStore.rpc_mark_messages_as_seen peer cur;
            MessageStore.subscribe "public:messages"]
    /\ MessageStore.issued
         (snd (MessageStore.refreshMessages (Some peer) (Some cur) r st))
       = MessageStore.issued st
           ++ [MessageStore.select_thread cur peer;
               MessageStore.rpc_mark_messages_as_seen peer cur]
    /\ (forall content env sentMessage,
           MessageStore.insert_reply env = mkReply (Some sentMessage) None ->
           In (MessageStore.rpc_mark_messages_as_delivered cur)
              (MessageStore.issued
                 (snd (MessageStore.sendMessage (Some cur) content cur peer env st)))).
Proof.
  intros cur peer r st Hp.
  destruct (fetchMessages_run cur peer r st Hp) as (l & Hfetch).
  split; [|split].
  - unfold MessageStore.useMessages_effect.
    rewrite (truthy_some peer Hp). cbn [negb orb andb is_none].
    unfold MessageStore.bind. rewrite Hfetch.
    rewrite (markMessagesAsSeen_run cur peer _ Hp). simpl.
    now rewrite <- !app_assoc.
  - unfold MessageStore.refreshMessages.
    rewrite (truthy_some peer Hp). cbn [negb orb andb is_none].
    unfold MessageStore.bind. rewrite Hfetch.
    rewrite (markMessagesAsSeen_run cur peer _ Hp). simpl.
    now rewrite <- !app_assoc.
  - intros content env sentMessage Hreply.
    rewrite (sendMessage_sent _ _ _ _ _ _ _ Hreply). simpl.
    apply in_or_app. right. simpl. auto 6.
Qed.

(** C8, on the sample: Alice opens her thread with Bob. *)
Lemma load_marks_seen_witness :
  MessageStore.issued
    (snd (MessageStore.useMessages_effect (Some Sample.bob) false (Some Sample.alice)
            (Backend.serve_thread Sample.alice Sample.bob Sample.long_db)
            Sample.empty_store))
  = [MessageStore.select_thread Sample.alice Sample.bob;
     MessageStore.rpc_mark_messages_as_seen Sample.bob Sample.alice;
     MessageStore.subscribe "public:messages"].
Proof.
  destruct (load_marks_seen Sample.alice Sample.bob
              (Backend.serve_thread Sample.alice Sample.bob Sample.long_db)
              Sample.empty_store) as (H & _).
  - discriminate.
  - exact H.
Defined.

(** C8 as stated fails: loading the history sends no mark-delivered call. *)
Lemma load_sends_no_mark_delivered :
  let sent_by_load :=
    MessageStore.issued
      (snd (MessageStore.useMessages_effect (Some Sample.bob) false (Some Sample.alice)
              (Backend.serve_thread Sample.alice Sample.bob Sample.long_db)
              Sample.empty_store)) in
  let sent_by_refresh :=
    MessageStore.issued
      (snd (MessageStore.refreshMessages (Some Sample.bob) (Some Sample.alice)
              (Backend.serve_thread Sample.alice Sample.bob Sample.long_db)
              Sample.empty_store)) in
  ~ In (MessageStore.rpc_mark_messages_as_delivered Sample.alice) sent_by_load
  /\ ~ In (MessageStore.rpc_mark_messages_as_delivered Sample.alice) sent_by_refresh.
Proof.
  split; vm_compute; intros H; repeat (destruct H as [H|H]; [discriminate H|]);
    exact H.
Qed.

(** ** Session bootstrap *)

Section SessionFacts.
Import Session.

Lemma or_else_truthy o d : truthy o = true -> exists s, o = Some s /\ or_else o d = s.
Proof.
  destruct o as [s|]; simpl; [|discriminate].
  intros H. apply negb_true_iff in H. rewrite H. eauto.
Qed.

Lemma or_else_falsy o d : truthy o = false -> or_else o d = d.
Proof.
  destruct o as [s|]; simpl; auto.
  intros H. apply negb_false_iff in H. now rewrite H.
Qed.

(** The local part of an address: what stands before the first [@]. *)
Lemma before_at_local (local_part domain : string) :
  (forall pre post, local_part <> String.append pre (String "@" post)) ->
  before_at (String.append local_part (String "@" domain)) = local_part.
Proof.
  induction local_part as [|c s IH]; intros Hno; simpl.
  - reflexivity.
  - destruct (Ascii.eqb c "@") eqn:E.
    + apply Ascii.eqb_eq in E. subst c. now elim (Hno EmptyString s).
    + rewrite IH; auto. intros pre post ->. now elim (Hno (String c pre) post).
Qed.

(** The requests of [ensureProfileExists], by what the first read found. *)
Lemma ensureProfileExists_requests u now fetch create :
  snd (ensureProfileExists u now fetch create) =
  select_profile (u_id u)
  :: match data fetch, error fetch with
     | Some _, None => [update_last_seen (u_id u)]
     | None, _ => [insert_profile (mkProfileInsert (u_id u) (default_username u)
                                                   (default_full_name u) (Some now))]
     | Some _, Some _ => []
     end.
Proof.
  unfold ensureProfileExists.
  destruct (data fetch), (error fetch); reflexivity.
Qed.

End SessionFacts.

(** C9.  When the bootstrap of the session finds a signed-in user it keeps
    the user, stops loading and starts [ensureProfileExists], whatever the
    replies about the profile are.  [ensureProfileExists] reads the profile
    first and sends an insert exactly when the read found none; the handle it
    inserts comes from the sign-up metadata when there is one, and otherwise
    from the local part of the e-mail address when there is one; when the
    creation fails nothing is thrown ([null] is returned), and [ChatRoom],
    which finds no profile and cannot create one, goes on with the profile it
    builds locally: the user's id, the local part of the address (or "user",
    "User") as handle and name, no avatar, never seen. *)
Theorem profile_bootstrap :
  forall (u : Session.User) (now : timestamp) (fetch create : reply Db.profile),
    let out := Session.ensureProfileExists u now fetch create in
    let ins := Session.mkProfileInsert (Session.u_id u)
                 (Session.default_username u) (Session.default_full_name u)
                 (Some now) in
    (forall url key,
        truthy url = true -> truthy key = true ->
        Session.initializeAuth url key (mkReply (Some u) None) now fetch create
        = (Session.mkAuth (Some u) false None,
           [Session.direct Session.get_session;
            Session.detached (snd out);
            Session.direct
              (Session.set_interval (2 * 60 * 1000)
                 (Session.update_last_seen (Session.u_id u)))]))
    /\ snd out
       = Session.select_profile (Session.u_id u)
         :: match data fetch, error fetch with
            | Some _, None => [Session.update_last_seen (Session.u_id u)]
            | None, _ => [Session.insert_profile ins]
            | Some _, Some _ => []
            end
    /\ (forall ins', In (Session.insert_profile ins') (snd out) <->
                     data fetch = None /\ ins' = ins)
    /\ (forall existing, data fetch = Some existing -> error fetch = None ->
                         fst out = Some existing)
    /\ (forall s, Session.meta_username u = Some s -> s <> "" ->
                  Session.default_username u = s)
    /\ (truthy (Session.meta_username u) = false ->
        forall local_part domain,
          Session.email u = Some (String.append local_part (String "@" domain)) ->
          local_part <> "" ->
          (forall pre post, local_part <> String.append pre (String "@" post)) ->
          Session.default_username u = local_part)
    /\ (error create <> None ->
        (data fetch = None -> fst out = None)
        /\ (forall current,
               data fetch = None ->
               Session.fetchCurrentUserProfile (Some u) now fetch create current
               = Some (Db.mkProfile (Session.u_id u)
                         (or_else (Session.email_local u) "user")
                         (Some (or_else (Session.email_local u) "User"))
                         None (Some now) None))).
Proof.
  intros u now fetch create out ins. subst out ins.
  split; [|split; [|split; [|split; [|split; [|split]]]]].
  - intros url key Hurl Hkey. unfold Session.initializeAuth.
    rewrite Hurl, Hkey. reflexivity.
  - apply ensureProfileExists_requests.
  - intros ins. rewrite ensureProfileExists_requests.
    destruct (data fetch) as [p|], (error fetch) as [e|]; simpl; split.
    + intros [H|[]]. discriminate H.
    + intros [H _]. discriminate H.
    + intros [H|[H|[]]]; discriminate H.
    + intros [H _]. discriminate H.
    + intros [H|[H|[]]]; [discriminate H|]. injection H as <-. auto.
    + intros [_ ->]. auto.
    + intros [H|[H|[]]]; [discriminate H|]. injection H as <-. auto.
    + intros [_ ->]. auto.
  - intros existing Hd He. unfold Session.ensureProfileExists.
    now rewrite Hd, He.
  - intros s Hs Hne. unfold Session.default_username. rewrite Hs. simpl.
    apply String.eqb_neq in Hne. now rewrite Hne.
  - intros Hmeta local_part domain Hmail Hne Hno.
    unfold Session.default_username. rewrite (or_else_falsy _ _ Hmeta).
    unfold Session.email_local. rewrite Hmail. simpl.
    rewrite (before_at_local local_part domain Hno).
    apply String.eqb_neq in Hne. now rewrite Hne.
  - intros Hfail. destruct (error create) as [e|] eqn:Ecreate; [|now elim Hfail].
    split.
    + intros Hd. unfold Session.ensureProfileExists. rewrite Hd, Ecreate.
      reflexivity.
    + intros current Hd. unfold Session.fetchCurrentUserProfile.
      rewrite Hd, Ecreate. simpl.
      destruct (error fetch) as [e'|]; [|reflexivity].
      now rewrite orb_true_r.
Qed.

(** C9, on the sample: Erin has no profile row and its creation is refused.
    The session holds her and the bootstrap has started the read and the
    insert of a profile under the local part of her address; nothing is
    thrown, and [ChatRoom] shows the profile it builds locally. *)
Lemma profile_bootstrap_witness :
  Session.initializeAuth (Some "https://project.supabase.co") (Some "anon-key")
    (mkReply (Some Sample.erin) None) Sample.noon Sample.no_row Sample.refused
  = (Session.mkAuth (Some Sample.erin) false None,
     [Session.direct Session.get_session;
      Session.detached
        [Session.select_profile (Session.u_id Sample.erin);
         Session.insert_profile
           (Session.mkProfileInsert (Session.u_id Sample.erin) "erin" "erin"
              (Some Sample.noon))];
      Session.direct
        (Session.set_interval 120000
           (Session.update_last_seen (Session.u_id Sample.erin)))])
  /\ fst (Session.ensureProfileExists Sample.erin Sample.noon Sample.no_row
            Sample.refused) = None
  /\ Session.default_username Sample.erin = "erin"
  /\ Session.fetchCurrentUserProfile (Some Sample.erin) Sample.noon
       Sample.no_row Sample.refused None
     = Some (Db.mkProfile (Session.u_id Sample.erin) "erin" (Some "erin") None
               (Some Sample.noon) None).
Proof.
  destruct (profile_bootstrap Sample.erin Sample.noon Sample.no_row Sample.refused)
    as (Hboot & Hreq & _ & _ & _ & Hmail & Hfail).
  destruct Hfail as (Hnull & Hplace); [discriminate|].
  split.
  { rewrite (Hboot (Some "https://project.supabase.co") (Some "anon-key")
               eq_refl eq_refl), Hreq. reflexivity. }
  split; [apply Hnull; reflexivity|].
  split.
  - apply (Hmail eq_refl "erin" "example.org"); [reflexivity | discriminate |].
    intros pre post H.
    do 4 (destruct pre as [|? pre]; simpl in H; [discriminate H | injection H as _ H]).
    destruct pre; discriminate H.
  - apply Hplace. reflexivity.
Defined.

(** ** The scenario of the specification

    Alice sends "hi" to Bob.  Bob's client, subscribed to the thread, gets the
    insert event, fetches the joined row, appends it and arms the timer that
    marks the thread seen; once that call ran, the row is ['seen']. *)
Lemma scenario_hi :
  let db := snd Sample.hi_served in
  let i := Backend.new_message_id Sample.draw1 in
  let payload := Sample.note i Sample.alice Sample.bob Sample.noon delivered in
  let bob_side :=
    snd (MessageStore.on_insert Sample.bob Sample.alice payload
           (Backend.serve_message i db) Sample.empty_store) in
  map MessageStore.msg_id (MessageStore.messages bob_side) = [i]
  /\ MessageStore.issued bob_side
     = [MessageStore.select_message i;
        MessageStore.set_timeout 1000
          (MessageStore.rpc_mark_messages_as_seen Sample.alice Sample.bob)]
  /\ Db.status_of i
       (Db.mark_messages_as_seen Sample.alice Sample.bob (Sample.noon + 1000)
          (Db.messages db))
     = Some seen.
Proof. vm_compute. repeat split; reflexivity. Qed.

(** * Further properties *)

(** ** The delivery procedure *)

Section DeliveredFacts.
Import Db.

Lemma delivered_target_set_delivered r now m :
  delivered_target r (set_delivered now m) = false.
Proof. unfold delivered_target. simpl. apply andb_false_r. Qed.

Lemma delivered_target_other r r' now m :
  delivered_target r' m = false ->
  delivered_target r' (if delivered_target r m then set_delivered now m else m) = false.
Proof.
  intros H. destruct (delivered_target r m); auto.
  apply delivered_target_set_delivered.
Qed.

Lemma set_delivered_keeps_seen_target sender viewer now m :
  seen_target sender viewer (set_delivered now m) = seen_target sender viewer m.
Proof. reflexivity. Qed.

Lemma set_seen_not_delivered_target r now m :
  delivered_target r (set_seen now m) = false.
Proof. unfold delivered_target. simpl. now rewrite andb_false_r. Qed.

End DeliveredFacts.

(** X1. [mark_messages_as_delivered] is idempotent, at any later instant,
    and the calls for two recipients can be made in either order. *)
Theorem mark_messages_as_delivered_idempotent_commutes :
  forall (r r' : uuid) (now later : timestamp) (ms : list Db.message),
    Db.mark_messages_as_delivered r later (Db.mark_messages_as_delivered r now ms)
    = Db.mark_messages_as_delivered r now ms
    /\ (r <> r' ->
        Db.mark_messages_as_delivered r now (Db.mark_messages_as_delivered r' later ms)
        = Db.mark_messages_as_delivered r' later (Db.mark_messages_as_delivered r now ms)).
Proof.
  intros r r' now later ms. unfold Db.mark_messages_as_delivered. split.
  - rewrite map_map. apply map_ext. intros m.
    destruct (Db.delivered_target r m) eqn:E.
    + now rewrite delivered_target_set_delivered.
    + now rewrite E.
  - intros Hne. rewrite !map_map. apply map_ext. intros m.
    destruct (Db.delivered_target r m) eqn:E, (Db.delivered_target r' m) eqn:E';
      cbv beta iota; rewrite ?delivered_target_set_delivered, ?E, ?E'; auto.
    apply delivered_target_spec in E. apply delivered_target_spec in E'.
    destruct E as (E & _), E' as (E' & _). congruence.
Qed.

(** X1, on the sample. *)
Lemma mark_messages_as_delivered_idempotent_commutes_witness :
  let ms := Sample.thread 4 in
  Db.mark_messages_as_delivered Sample.alice Sample.noon
    (Db.mark_messages_as_delivered Sample.bob (Sample.noon + 1) ms)
  = Db.mark_messages_as_delivered Sample.bob (Sample.noon + 1)
      (Db.mark_messages_as_delivered Sample.alice Sample.noon ms).
Proof.
  intros ms.
  destruct (mark_messages_as_delivered_idempotent_commutes
              Sample.alice Sample.bob Sample.noon (Sample.noon + 1) ms) as (_ & H).
  apply H. discriminate.
Defined.

(** X3. The two status procedures can run in either order: every row ends
    with the same status (its [delivered_at] alone may differ). *)
Theorem status_procedures_commute_on_status :
  forall (sender_id viewer_id r : uuid) (t1 t2 : timestamp) (ms : list Db.message),
    map Db.status
        (Db.mark_messages_as_delivered r t2
           (Db.mark_messages_as_seen sender_id viewer_id t1 ms))
    = map Db.status
          (Db.mark_messages_as_seen sender_id viewer_id t1
             (Db.mark_messages_as_delivered r t2 ms))
    /\ map Db.seen_at
           (Db.mark_messages_as_delivered r t2
              (Db.mark_messages_as_seen sender_id viewer_id t1 ms))
       = map Db.seen_at
             (Db.mark_messages_as_seen sender_id viewer_id t1
                (Db.mark_messages_as_delivered r t2 ms)).
Proof.
  intros sender_id viewer_id r t1 t2 ms.
  unfold Db.mark_messages_as_delivered, Db.mark_messages_as_seen.
  rewrite !map_map. split; apply map_ext; intros m;
    destruct (Db.seen_target sender_id viewer_id m) eqn:Es,
             (Db.delivered_target r m) eqn:Ed;
    cbv beta iota;
    rewrite ?set_seen_not_delivered_target, ?set_delivered_keeps_seen_target,
            ?Es, ?Ed; reflexivity.
Qed.

(** ** What the table keeps over time *)

Section TableFacts.
Import Db.

Lemma later_version_refl m : later_version m m.
Proof. unfold later_version. auto 12. Qed.

Lemma later_version_trans a b c :
  later_version a b -> later_version b c -> later_version a c.
Proof.
  unfold later_version.
  intros (A1 & A2 & A3 & A4 & A5 & A6 & A7 & A8 & A9 & A10)
         (B1 & B2 & B3 & B4 & B5 & B6 & B7 & B8 & B9 & B10).
  repeat split; try congruence; auto. lia.
Qed.

Lemma seen_row_later sender viewer now m :
  later_version m (if seen_target sender viewer m then set_seen now m else m).
Proof.
  destruct (seen_target sender viewer m) eqn:E; [|apply later_version_refl].
  apply seen_target_spec in E. destruct E as (_ & _ & Hs).
  unfold later_version. simpl. repeat split; auto.
  - intros t Ht. congruence.
  - destruct (status m); simpl; lia.
Qed.

Lemma delivered_row_later r now m :
  later_version m (if delivered_target r m then set_delivered now m else m).
Proof.
  destruct (delivered_target r m) eqn:E; [|apply later_version_refl].
  apply delivered_target_spec in E. destruct E as (_ & Hs & Hd).
  unfold later_version. simpl. repeat split; auto.
  - intros t Ht. congruence.
  - rewrite Hs. simpl. lia.
Qed.

Lemma row_of_map (f : message -> message) i ms :
  (forall m, id (f m) = id m) ->
  row_of i (map f ms) = option_map f (row_of i ms).
Proof.
  intros Hf. unfold row_of. induction ms as [|m ms IH]; simpl; auto.
  rewrite Hf. destruct (String.eqb (id m) i); auto.
Qed.

Lemma row_of_app i m ms extra :
  row_of i ms = Some m -> row_of i (ms ++ extra) = Some m.
Proof.
  unfold row_of. induction ms as [|x ms IH]; simpl; [discriminate|].
  destruct (String.eqb (id x) i); auto.
Qed.

Lemma row_of_fresh i ms m :
  has_message ms i = false -> id m = i -> row_of i (ms ++ [m]) = Some m.
Proof.
  unfold row_of, has_message. intros Hf <-.
  induction ms as [|x ms IH]; simpl in *.
  - now rewrite String.eqb_refl.
  - apply orb_false_iff in Hf. destruct Hf as [Hx Hf]. rewrite Hx. auto.
Qed.

Lemma row_of_other i m ms :
  id m <> i -> row_of i (ms ++ [m]) = row_of i ms.
Proof.
  unfold row_of. intros Hne. apply String.eqb_neq in Hne.
  induction ms as [|x ms IH]; simpl.
  - now rewrite Hne.
  - destruct (String.eqb (id x) i); auto.
Qed.

Lemma step_later db db' i m :
  step db db' ->
  row_of i (messages db) = Some m ->
  exists m', row_of i (messages db') = Some m' /\ later_version m m'.
Proof.
  intros Hstep Hrow.
  destruct Hstep as [sender viewer now db|r now db|a n now ins x db db' Hins]; simpl.
  - unfold mark_messages_as_seen. rewrite row_of_map, Hrow.
    + eexists. split; [reflexivity|]. apply seen_row_later.
    + intros y. now destruct (seen_target sender viewer y).
  - unfold mark_messages_as_delivered. rewrite row_of_map, Hrow.
    + eexists. split; [reflexivity|]. apply delivered_row_later.
    + intros y. now destruct (delivered_target r y).
  - apply insert_message_appends in Hins. destruct Hins as (-> & _).
    exists m. split; [now apply row_of_app | apply later_version_refl].
Qed.

End TableFacts.

(** X4. Over any run of the writes the application makes to [messages], a
    row stays in the table and keeps what its sender wrote (content, sender,
    recipient, conversation, creation and sending instants); a milestone
    ([delivered_at], [seen_at]) that was set is never overwritten. *)
Theorem rows_are_write_once :
  forall (db db' : Db.database) (i : uuid) (m : Db.message),
    Db.steps db db' ->
    row_of i (Db.messages db) = Some m ->
    exists m', row_of i (Db.messages db') = Some m' /\ later_version m m'.
Proof.
  intros db db' i m Hsteps. revert m.
  induction Hsteps as [db|db1 db2 db3 H12 _ IH]; intros m Hrow.
  - exists m. split; auto. apply later_version_refl.
  - destruct (step_later _ _ _ _ H12 Hrow) as (m2 & H2 & L12).
    destruct (IH _ H2) as (m3 & H3 & L23).
    exists m3. split; auto. eapply later_version_trans; eauto.
Qed.

(** X4, on the sample: Alice's "hi", delivered at noon, is then marked seen
    and a second delivery call follows; it still carries noon as its
    delivery instant. *)
Lemma rows_are_write_once_witness :
  let dbA := snd Sample.hi_served in
  let dbB := Db.mkDb (Db.profiles dbA)
               (Db.mark_messages_as_seen Sample.alice Sample.bob (Sample.noon + 1000)
                  (Db.messages dbA))
               (Db.conversations dbA) in
  let dbC := Db.mkDb (Db.profiles dbB)
               (Db.mark_messages_as_delivered Sample.bob (Sample.noon + 2000)
                  (Db.messages dbB))
               (Db.conversations dbB) in
  exists m m',
    row_of (Backend.new_message_id Sample.draw1) (Db.messages dbA) = Some m
    /\ row_of (Backend.new_message_id Sample.draw1) (Db.messages dbC) = Some m'
    /\ later_version m m'
    /\ Db.delivered_at m' = Some Sample.noon.
Proof.
  intros dbA dbB dbC.
  assert (Hrow : row_of (Backend.new_message_id Sample.draw1) (Db.messages dbA)
                 = Some (Db.mkMessage (Backend.new_message_id Sample.draw1) "hi"
                           Sample.alice (Some Sample.bob)
                           (Some (Backend.new_conversation_id Sample.draw1))
                           Sample.noon (Some (Sample.noon + 40)) (Some Sample.noon)
                           None delivered))
    by (vm_compute; reflexivity).
  destruct (rows_are_write_once dbA dbC _ _
              (Db.steps_cons _ _ _ (Db.step_seen Sample.alice Sample.bob
                                      (Sample.noon + 1000) dbA)
                 (Db.steps_cons _ _ _ (Db.step_delivered Sample.bob
                                         (Sample.noon + 2000) dbB)
                    (Db.steps_refl dbC)))
              Hrow) as (m' & Hrow' & Hlater).
  eexists. exists m'. split; [exact Hrow|]. split; [exact Hrow'|].
  split; [exact Hlater|].
  destruct Hlater as (_ & _ & _ & _ & _ & _ & _ & Hd & _).
  apply Hd. reflexivity.
Defined.

Section IntegrityFacts.
Import Db.

Lemma map_id_seen sender viewer now ms :
  map id (mark_messages_as_seen sender viewer now ms) = map id ms.
Proof.
  unfold mark_messages_as_seen. rewrite map_map. apply map_ext.
  intros m. now destruct (seen_target sender viewer m).
Qed.

Lemma map_id_delivered r now ms :
  map id (mark_messages_as_delivered r now ms) = map id ms.
Proof.
  unfold mark_messages_as_delivered. rewrite map_map. apply map_ext.
  intros m. now destruct (delivered_target r m).
Qed.

Lemma has_message_In ms i : has_message ms i = false -> ~ In i (map id ms).
Proof.
  unfold has_message. intros H Hin. apply in_map_iff in Hin.
  destruct Hin as (m & Hm & Hin).
  assert (existsb (fun x => String.eqb (id x) i) ms = true) as E.
  { apply existsb_exists. exists m. split; auto. now apply String.eqb_eq. }
  congruence.
Qed.

Lemma auto_mark_delivered_keeps ps now NEW :
  let m := auto_mark_delivered ps now NEW in
  id m = id NEW /\ content m = content NEW /\ user_id m = user_id NEW
  /\ recipient_id m = recipient_id NEW /\ conversation_id m = conversation_id NEW
  /\ created_at m = created_at NEW /\ sent_at m = sent_at NEW
  /\ seen_at m = seen_at NEW.
Proof.
  unfold auto_mark_delivered. destruct (existsb _ ps); simpl; auto 10.
Qed.

(** The checks a successful insert went through. *)
Lemma insert_message_checked auth_uid new_id now ins db m db' :
  insert_message auth_uid new_id now ins db = Ok (m, db') ->
  auth_uid = i_user_id ins
  /\ has_profile (profiles db) (i_user_id ins) = true
  /\ match i_recipient_id ins with
     | Some r => has_profile (profiles db) r = true
     | None => True
     end
  /\ profiles db' = profiles db
  /\ conversations db'
     = update_conversation_timestamp auth_uid now m (conversations db).
Proof.
  unfold insert_message.
  destruct (String.eqb auth_uid (i_user_id ins)) eqn:E1; [|discriminate].
  simpl. destruct (has_message (messages db) new_id); [discriminate|].
  destruct (has_profile (profiles db) (i_user_id ins)) eqn:E2; [|discriminate].
  simpl.
  destruct (i_recipient_id ins) as [r|] eqn:E3.
  - destruct (has_profile (profiles db) r) eqn:E4; [|discriminate]. simpl.
    intros [= <- <-]. simpl. apply String.eqb_eq in E1. auto.
  - simpl. intros [= <- <-]. simpl. apply String.eqb_eq in E1. auto.
Qed.

Lemma step_profiles db db' : step db db' -> profiles db' = profiles db.
Proof.
  intros [sender viewer now d|r now d|a n now ins x d d' Hins]; auto.
  now apply insert_message_checked in Hins.
Qed.

Lemma step_unique_ids db db' :
  step db db' -> NoDup (map id (messages db)) -> NoDup (map id (messages db')).
Proof.
  intros [sender viewer now d|r now d|a n now ins x d d' Hins]; simpl.
  - now rewrite map_id_seen.
  - now rewrite map_id_delivered.
  - intros Hnd. apply insert_message_appends in Hins.
    destruct Hins as (-> & -> & Hfresh).
    rewrite map_app. apply NoDup_app; auto.
    + simpl. constructor; [intros []|constructor].
    + intros i Hi [<-|[]].
      destruct (auto_mark_delivered_keeps (profiles d) now
                  (mkMessage n (i_content ins) (i_user_id ins) (i_recipient_id ins)
                     (i_conversation_id ins) now (i_sent_at ins) None None
                     (i_status ins))) as (Hid & _).
      rewrite Hid in Hi. simpl in Hi. now apply has_message_In in Hfresh.
Qed.

Lemma step_references db db' :
  step db db' -> references_hold db -> references_hold db'.
Proof.
  unfold references_hold.
  intros [sender viewer now d|r now d|a n now ins x d d' Hins]; simpl.
  - unfold mark_messages_as_seen. intros H. apply Forall_map.
    eapply Forall_impl; [|exact H]. intros m Hm.
    now destruct (seen_target sender viewer m).
  - unfold mark_messages_as_delivered. intros H. apply Forall_map.
    eapply Forall_impl; [|exact H]. intros m Hm.
    now destruct (delivered_target r m).
  - intros H. pose proof (insert_message_checked _ _ _ _ _ _ _ Hins)
      as (_ & Hu & Hr & -> & _).
    apply insert_message_appends in Hins. destruct Hins as (-> & -> & _).
    apply Forall_app. split; auto. constructor; [|constructor].
    destruct (auto_mark_delivered_keeps (profiles d) now
                (mkMessage n (i_content ins) (i_user_id ins) (i_recipient_id ins)
                   (i_conversation_id ins) now (i_sent_at ins) None None
                   (i_status ins))) as (_ & _ & -> & -> & _).
    simpl. auto.
Qed.

Lemma has_profile_find ps u :
  has_profile ps u = true ->
  find (fun p => String.eqb (p_id p) u) ps <> None.
Proof.
  unfold has_profile. induction ps as [|p ps IH]; simpl; [discriminate|].
  destruct (String.eqb (p_id p) u); [discriminate | auto].
Qed.

Lemma join_profile_found ps m :
  has_profile ps (user_id m) = true -> snd (join_profile ps m) <> None.
Proof.
  intros H. apply has_profile_find in H. unfold join_profile. simpl.
  destruct (find _ ps); [discriminate | contradiction].
Qed.

End IntegrityFacts.

Section AccountFacts.
Import Db.

Lemma has_profile_ids ps ps' u :
  (exists more, map p_id ps' = map p_id ps ++ more) ->
  has_profile ps u = true -> has_profile ps' u = true.
Proof.
  intros [more E] H. unfold has_profile in *.
  apply existsb_exists in H. destruct H as (q & Hq & Hu).
  apply String.eqb_eq in Hu.
  assert (Hin : In u (map p_id ps')).
  { rewrite E. apply in_or_app. left. rewrite <- Hu. now apply in_map. }
  apply in_map_iff in Hin. destruct Hin as (q' & Hq' & Hin').
  apply existsb_exists. exists q'. split; [exact Hin' | now apply String.eqb_eq].
Qed.

Lemma has_profile_absent ps (u : uuid) :
  has_profile ps u = false -> ~ In u (map p_id ps).
Proof.
  unfold has_profile. intros H Hin. apply in_map_iff in Hin.
  destruct Hin as (q & Hq & Hin).
  assert (existsb (fun p => String.eqb (p_id p) u) ps = true) as E.
  { apply existsb_exists. exists q. split; [exact Hin | now apply String.eqb_eq]. }
  congruence.
Qed.

Lemma map_id_update_last_seen a u sent now ps :
  map p_id (Accounts.update_last_seen a u sent now ps) = map p_id ps.
Proof.
  unfold Accounts.update_last_seen. rewrite map_map. apply map_ext.
  intros q. now destruct (Accounts.own_row a u q).
Qed.

Lemma map_id_save_profile a u e ps ps' :
  Accounts.save_profile a u e ps = Ok ps' -> map p_id ps' = map p_id ps.
Proof.
  unfold Accounts.save_profile. destruct (_ && _); [discriminate|].
  intros [= <-]. rewrite map_map. apply map_ext.
  intros q. now destruct (Accounts.own_row a u q).
Qed.

Lemma insert_profile_appends a now ins ps q ps' :
  Accounts.insert_profile a now ins ps = Ok (q, ps') ->
  ps' = ps ++ [q] /\ p_id q = Session.pi_id ins /\ a = Session.pi_id ins
  /\ has_profile ps (p_id q) = false.
Proof.
  unfold Accounts.insert_profile.
  destruct (String.eqb a (Session.pi_id ins)) eqn:Ea; [|discriminate]. simpl.
  destruct (has_profile ps (Session.pi_id ins)) eqn:Eh; [discriminate|].
  destruct (Signup.username_taken ps (Session.pi_username ins)); [discriminate|].
  intros [= <- <-]. simpl. apply String.eqb_eq in Ea. auto.
Qed.

Lemma handle_new_user_appends NEW now ps ps' :
  Signup.handle_new_user NEW now ps = Signup.Created ps' ->
  exists q, ps' = ps ++ [q] /\ p_id q = Session.u_id NEW
            /\ has_profile ps (p_id q) = false.
Proof.
  unfold Signup.handle_new_user.
  destruct (Signup.base_username NEW); [|discriminate].
  destruct (Signup.free_username _ _ _ _ _); [|discriminate].
  destruct (has_profile ps (Session.u_id NEW)) eqn:Eh; [discriminate|].
  intros [= <-]. eexists. split; [reflexivity|]. simpl. auto.
Qed.

(** What one write does to the ids of the profiles: they stay, in place, and
    a new one is one that was not there. *)
Lemma app_write_profile_ids db db' :
  app_write db db' ->
  exists more, map p_id (profiles db') = map p_id (profiles db) ++ more
               /\ NoDup more /\ forall u, In u more -> ~ In u (map p_id (profiles db)).
Proof.
  assert (Hsame : forall ps ps' : list profile, map p_id ps' = map p_id ps ->
            exists more, map p_id ps' = map p_id ps ++ more
                         /\ NoDup more /\ forall u, In u more -> ~ In u (map p_id ps)).
  { intros ps ps' E. exists []. rewrite app_nil_r. split; [exact E|].
    split; [constructor | intros u []]. }
  assert (Hnew : forall ps q, has_profile ps (p_id q) = false ->
            exists more, map p_id (ps ++ [q]) = map p_id ps ++ more
                         /\ NoDup more /\ forall u, In u more -> ~ In u (map p_id ps)).
  { intros ps q Hq. exists [p_id q]. rewrite map_app. split; [reflexivity|].
    split; [repeat constructor; intros [] |].
    intros u [<-|[]]. now apply has_profile_absent. }
  intros [d d' Hstep|n now u1 u2 d c d' Hc|a u sent now d|a now ins d q ps' Hi
          |a u e d ps' He|NEW now d ps' Hs]; simpl.
  - apply Hsame. f_equal. now apply step_profiles.
  - apply Hsame. f_equal.
    unfold get_or_create_conversation in Hc.
    destruct (canonical_pair u1 u2) as [lo hi].
    destruct (find _ (conversations d)); [now injection Hc as _ <-|].
    unfold insert_conversation in Hc.
    destruct (existsb _ (conversations d)); [discriminate|].
    destruct (existsb _ (conversations d)); [discriminate|].
    destruct (negb _); [discriminate|]. now injection Hc as _ <-.
  - apply Hsame. apply map_id_update_last_seen.
  - apply insert_profile_appends in Hi. destruct Hi as (-> & _ & _ & Hq).
    now apply Hnew.
  - apply Hsame. now apply map_id_save_profile in He.
  - apply handle_new_user_appends in Hs. destruct Hs as (q & -> & _ & Hq).
    now apply Hnew.
Qed.

Lemma app_write_messages db db' :
  app_write db db' -> step db db' \/ messages db' = messages db.
Proof.
  intros [d d' Hstep|n now u1 u2 d c d' Hc|a u sent now d|a now ins d q ps' Hi
          |a u e d ps' He|NEW now d ps' Hs]; auto.
  right. unfold get_or_create_conversation in Hc.
  destruct (canonical_pair u1 u2) as [lo hi].
  destruct (find _ (conversations d)); [now injection Hc as _ <-|].
  unfold insert_conversation in Hc.
  destruct (existsb _ (conversations d)); [discriminate|].
  destruct (existsb _ (conversations d)); [discriminate|].
  destruct (negb _); [discriminate|]. now injection Hc as _ <-.
Qed.

Lemma references_grow ps ps' ms cs cs' :
  (exists more, map p_id ps' = map p_id ps ++ more) ->
  references_hold (mkDb ps ms cs) -> references_hold (mkDb ps' ms cs').
Proof.
  unfold references_hold. simpl. intros E H.
  eapply Forall_impl; [|exact H]. intros m [Hu Hr]. split.
  - now apply (has_profile_ids ps).
  - destruct (recipient_id m); [now apply (has_profile_ids ps) | exact I].
Qed.

Lemma app_write_references db db' :
  app_write db db' -> references_hold db -> references_hold db'.
Proof.
  intros Hw Href.
  destruct (app_write_profile_ids db db' Hw) as (more & E & _).
  destruct (app_write_messages db db' Hw) as [Hstep|Hm].
  - now apply (step_references db).
  - destruct db as [ps ms cs], db' as [ps' ms' cs']. simpl in *. subst ms'.
    apply (references_grow ps ps' ms cs cs'); eauto.
Qed.

End AccountFacts.

(** X5. Over every run of what the application writes, to [messages], to
    [conversations] and to [profiles], no profile goes away or changes its
    id and the ids of the profiles stay pairwise different, the ids of the
    messages stay pairwise different, and every message stays tied to the
    profile of its sender and, when it has one, of its recipient. *)
Theorem writes_keep_integrity :
  forall (db db' : Db.database),
    app_run db db' ->
    (exists more, map Db.p_id (Db.profiles db')
                  = map Db.p_id (Db.profiles db) ++ more)
    /\ (NoDup (map Db.p_id (Db.profiles db)) -> NoDup (map Db.p_id (Db.profiles db')))
    /\ (NoDup (map Db.id (Db.messages db)) -> NoDup (map Db.id (Db.messages db')))
    /\ (references_hold db -> references_hold db').
Proof.
  induction 1 as [db|db1 db2 db3 H12 _ IH].
  - split; [exists []; now rewrite app_nil_r | auto].
  - destruct IH as ((more' & E') & Hp & Hn & Hr).
    destruct (app_write_profile_ids db1 db2 H12) as (more & E & Hnd & Hfresh).
    split; [|split; [|split]].
    + exists (more ++ more'). now rewrite E', E, app_assoc.
    + intros H. apply Hp. rewrite E. apply NoDup_app; auto.
      intros u Hu Hin. now apply (Hfresh u).
    + intros H. apply Hn.
      destruct (app_write_messages db1 db2 H12) as [Hstep|Hm].
      * now apply (step_unique_ids db1).
      * now rewrite Hm.
    + intros H. apply Hr. now apply (app_write_references db1).
Qed.

(** X5, on the sample: Erin signs up, Alice's "hi" reaches the table, Bob's
    heartbeat is recorded and he marks the message seen. *)
Lemma writes_keep_integrity_witness :
  exists db',
    app_run Sample.db0 db'
    /\ map Db.username (Db.profiles db') = ["alice"; "bob"; "carol"; "erin"]
    /\ NoDup (map Db.p_id (Db.profiles db'))
    /\ references_hold db'.
Proof.
  set (db1 := with_profiles
                (Sample.people ++
                 [Db.mkProfile (Session.u_id Sample.erin) "erin" (Some "") None
                    (Some Sample.noon) None]) Sample.db0).
  set (m := Db.mkMessage (Backend.new_message_id Sample.draw1) "hi"
              Sample.alice (Some Sample.bob) None Sample.noon
              (Some (Sample.noon + 40)) (Some Sample.noon) None delivered).
  set (db2 := Db.mkDb (Db.profiles db1) [m] []).
  set (db3 := with_profiles
                (Accounts.update_last_seen Sample.bob Sample.bob
                   (Sample.noon + 900) (Sample.noon + 1000) (Db.profiles db2)) db2).
  set (db4 := Db.mkDb (Db.profiles db3)
                (Db.mark_messages_as_seen Sample.alice Sample.bob
                   (Sample.noon + 1000) (Db.messages db3))
                (Db.conversations db3)).
  assert (Hrun : app_run Sample.db0 db4).
  { apply (run_more _ db1);
      [apply (write_sign_up Sample.erin Sample.noon Sample.db0); reflexivity|].
    apply (run_more _ db2);
      [apply write_message;
       apply (Db.step_insert Sample.alice (Backend.new_message_id Sample.draw1)
                Sample.noon
                (Db.mkInsert "hi" Sample.alice (Some Sample.bob) None sent
                   (Some (Sample.noon + 40))) m);
       vm_compute; reflexivity|].
    apply (run_more _ db3); [apply write_last_seen|].
    apply (run_more _ db4); [apply write_message, Db.step_seen | apply run_done]. }
  exists db4. split; [exact Hrun|].
  destruct (writes_keep_integrity Sample.db0 db4 Hrun) as (_ & Hp & _ & Hr).
  split; [vm_compute; reflexivity|]. split.
  - apply Hp. vm_compute. repeat constructor; simpl; intuition discriminate.
  - apply Hr. unfold references_hold. simpl. constructor.
Defined.

(** X6. In a table whose messages are tied to the profiles of their
    senders, the rows the client reads always come with the sender's profile:
    no message of a thread, and no message fetched by id, has a null
    [user_profile]. *)
Theorem sender_profile_is_joined :
  forall (db : Db.database) (cur peer i : uuid),
    references_hold db ->
    Forall (fun j => snd j <> None) (Db.select_thread cur peer db)
    /\ (forall j, Db.select_message i db = Some j -> snd j <> None).
Proof.
  intros db cur peer i Href. unfold references_hold in Href.
  rewrite Forall_forall in Href. split.
  - unfold Db.select_thread. apply Forall_map. apply Forall_forall.
    intros m Hm. apply firstn_In in Hm. apply stable_sort_In in Hm.
    apply filter_In in Hm. destruct Hm as [Hm _].
    apply join_profile_found. now apply Href.
  - unfold Db.select_message. intros j Hj.
    destruct (find _ (Db.messages db)) as [m|] eqn:F; [|discriminate].
    injection Hj as <-. apply find_some in F. destruct F as [Hm _].
    apply join_profile_found. now apply Href.
Qed.

(** X6, on the sample. *)
Lemma sender_profile_is_joined_witness :
  Forall (fun j => snd j <> None)
         (Db.select_thread Sample.alice Sample.bob (snd Sample.hi_served)).
Proof.
  destruct (sender_profile_is_joined (snd Sample.hi_served) Sample.alice Sample.bob
              Sample.alice) as (H & _).
  - unfold references_hold. vm_compute.
    constructor; [split; reflexivity|constructor].
  - exact H.
Defined.

(** X7. A message that was inserted is what a fetch by its id returns,
    joined with the sender's profile; fetching any other id gives what it
    gave before; and the row holds what the client wrote, under the new id
    and the signed-in user as sender. *)
Theorem inserted_message_is_fetched :
  forall (auth_uid new_id : uuid) (now : timestamp) (ins : Db.message_insert)
         (db : Db.database) (m : Db.message) (db' : Db.database),
    Db.insert_message auth_uid new_id now ins db = Db.Ok (m, db') ->
    Db.select_message new_id db' = Some (Db.join_profile (Db.profiles db') m)
    /\ snd (Db.join_profile (Db.profiles db') m) <> None
    /\ (forall i, i <> new_id ->
                  option_map fst (Db.select_message i db')
                  = option_map fst (Db.select_message i db))
    /\ Db.id m = new_id /\ Db.user_id m = auth_uid
    /\ Db.content m = Db.i_content ins
    /\ Db.recipient_id m = Db.i_recipient_id ins
    /\ Db.created_at m = now.
Proof.
  intros auth_uid new_id now ins db m db' Hins.
  pose proof (insert_message_checked _ _ _ _ _ _ _ Hins) as (Hauth & Hu & _ & Hp & _).
  pose proof (insert_message_appends _ _ _ _ _ _ _ Hins) as (Hms & Hm & Hfresh).
  destruct (auto_mark_delivered_keeps (Db.profiles db) now
              (Db.mkMessage new_id (Db.i_content ins) (Db.i_user_id ins)
                 (Db.i_recipient_id ins) (Db.i_conversation_id ins) now
                 (Db.i_sent_at ins) None None (Db.i_status ins)))
    as (K1 & K2 & K3 & K4 & _ & K6 & _).
  rewrite <- Hm in K1, K2, K3, K4, K6. simpl in K1, K2, K3, K4, K6.
  split; [|split; [|split]].
  - unfold Db.select_message. rewrite Hms.
    change (find (fun x => String.eqb (Db.id x) new_id) (Db.messages db ++ [m]))
      with (row_of new_id (Db.messages db ++ [m])).
    now rewrite (row_of_fresh new_id (Db.messages db) m Hfresh K1).
  - apply join_profile_found. rewrite Hp, K3. exact Hu.
  - intros i Hne. unfold Db.select_message. rewrite Hms.
    change (find (fun x => String.eqb (Db.id x) i) (Db.messages db ++ [m]))
      with (row_of i (Db.messages db ++ [m])).
    rewrite (row_of_other i m (Db.messages db)) by congruence.
    unfold row_of. now destruct (find _ (Db.messages db)).
  - repeat split; congruence.
Qed.

(** X7, on the sample: Alice's "hi". *)
Lemma inserted_message_is_fetched_witness :
  exists j,
    Db.select_message (Backend.new_message_id Sample.draw1) (snd Sample.hi_served)
    = Some j
    /\ Db.content (fst j) = "hi" /\ Db.user_id (fst j) = Sample.alice
    /\ snd j <> None.
Proof.
  assert (Hins :
    Db.insert_message Sample.alice (Backend.new_message_id Sample.draw1) Sample.noon
      (MessageStore.send_insert "hi" Sample.alice Sample.bob (fst Sample.hi_served))
      (Db.mkDb Sample.people []
         [Db.mkConversation (Backend.new_conversation_id Sample.draw1)
            Sample.alice Sample.bob Sample.noon Sample.noon])
    = Db.Ok (Db.mkMessage (Backend.new_message_id Sample.draw1) "hi" Sample.alice
               (Some Sample.bob) (Some (Backend.new_conversation_id Sample.draw1))
               Sample.noon (Some (Sample.noon + 40)) (Some Sample.noon) None
               delivered,
             snd Sample.hi_served)) by (vm_compute; reflexivity).
  destruct (inserted_message_is_fetched _ _ _ _ _ _ _ Hins)
    as (Hsel & Hjoin & _ & _ & Hu & Hc & _).
  eexists. split; [exact Hsel|]. simpl. split; [reflexivity|].
  split; [reflexivity | exact Hjoin].
Defined.

(** X8. The two participants load the same thread: the query of
    [fetchMessages] does not depend on which of the two asks. *)
Theorem thread_is_the_same_for_both :
  forall (a b : uuid) (db : Db.database),
    Db.select_thread a b db = Db.select_thread b a db.
Proof.
  intros a b db. unfold Db.select_thread. do 3 f_equal.
  apply filter_ext. intros m. unfold Db.between. apply orb_comm.
Qed.

Section DeliveredOnce.
Import Db.

Lemma delivered_target_trigger ps now NEW r :
  delivered_at NEW = None -> status NEW = sent -> recipient_id NEW = Some r ->
  delivered_target r (auto_mark_delivered ps now NEW)
  = negb (existsb (recently_active now (Some r)) ps).
Proof.
  intros Hd Hs Hr. unfold auto_mark_delivered. rewrite Hr.
  destruct (existsb (recently_active now (Some r)) ps); simpl.
  - unfold delivered_target. simpl. apply andb_false_r.
  - apply delivered_target_spec. auto.
Qed.

End DeliveredOnce.

Section OnItsWay.
Import Db.

Lemma seen_row_on_its_way r sender viewer now m :
  on_its_way r m ->
  on_its_way r (if seen_target sender viewer m then set_seen now m else m).
Proof.
  intros [Hr H]. destruct (seen_target sender viewer m); [|now split].
  split; [exact Hr|]. right. right. simpl. split; [reflexivity | discriminate].
Qed.

Lemma delivered_row_on_its_way r p now m :
  on_its_way r m ->
  on_its_way r (if delivered_target p m then set_delivered now m else m).
Proof.
  intros [Hr H]. destruct (delivered_target p m); [|now split].
  split; [exact Hr|]. right. left. simpl. split; [reflexivity | discriminate].
Qed.

Lemma step_on_its_way r db db' i m :
  step db db' ->
  row_of i (messages db) = Some m -> on_its_way r m ->
  exists m', row_of i (messages db') = Some m' /\ on_its_way r m'.
Proof.
  intros Hstep Hrow Hm.
  destruct Hstep as [sender viewer now db|p now db|a n now ins x db db' Hins]; simpl.
  - unfold mark_messages_as_seen. rewrite row_of_map, Hrow.
    + eexists. split; [reflexivity|]. now apply seen_row_on_its_way.
    + intros y. now destruct (seen_target sender viewer y).
  - unfold mark_messages_as_delivered. rewrite row_of_map, Hrow.
    + eexists. split; [reflexivity|]. now apply delivered_row_on_its_way.
    + intros y. now destruct (delivered_target p y).
  - apply insert_message_appends in Hins. destruct Hins as (-> & _).
    exists m. split; [now apply row_of_app | exact Hm].
Qed.

Lemma app_run_on_its_way r db db' :
  app_run db db' ->
  forall i m, row_of i (messages db) = Some m -> on_its_way r m ->
  exists m', row_of i (messages db') = Some m' /\ on_its_way r m'.
Proof.
  induction 1 as [db|db1 db2 db3 H12 _ IH]; intros i m Hrow Hm; [eauto|].
  destruct (app_write_messages _ _ H12) as [Hstep|E].
  - destruct (step_on_its_way r _ _ i m Hstep Hrow Hm) as (m2 & Hrow2 & Hm2).
    now apply (IH i m2).
  - apply (IH i m); [now rewrite E | exact Hm].
Qed.

(** The row a successful insert of a ['sent'] message to [r] puts in the
    table. *)
Lemma inserted_on_its_way auth_uid new_id r now ins db m db' :
  i_status ins = sent -> i_recipient_id ins = Some r ->
  insert_message auth_uid new_id now ins db = Ok (m, db') ->
  row_of new_id (messages db') = Some m /\ on_its_way r m.
Proof.
  intros Hs Hr Hins.
  apply insert_message_appends in Hins. destruct Hins as (-> & Hm & Hfresh).
  split.
  - apply row_of_fresh; [exact Hfresh|]. rewrite Hm. apply auto_mark_delivered_keeps.
  - rewrite Hm. unfold on_its_way, delivered_or_seen, auto_mark_delivered.
    destruct (existsb _ (profiles db)); simpl; rewrite ?Hs; split; auto.
    right. left. split; [reflexivity | discriminate].
Qed.

End OnItsWay.

(** X9. A message the client inserted as ['sent'] for a recipient is never
    left ['sent'] once that recipient's client has called
    [mark_messages_as_delivered], whatever the application wrote in
    between: it is ['delivered'] with its delivery instant
    set, or it is ['seen'] with its seen instant set (a message that was
    seen first keeps the delivery instant it had, possibly none).  When the
    call comes right after the insert the message is ['delivered'], and its
    delivery instant was set once: at the insert when the trigger found the
    recipient active, at the call otherwise. *)
Theorem delivered_once :
  forall (auth_uid new_id r : uuid) (now later : timestamp)
         (ins : Db.message_insert) (db : Db.database) (m : Db.message)
         (db1 : Db.database),
    Db.i_status ins = sent ->
    Db.i_recipient_id ins = Some r ->
    Db.insert_message auth_uid new_id now ins db = Db.Ok (m, db1) ->
    (forall db2, app_run db1 db2 ->
       exists m',
         row_of new_id (Db.mark_messages_as_delivered r later (Db.messages db2))
         = Some m'
         /\ delivered_or_seen m')
    /\ (exists m',
          row_of new_id (Db.mark_messages_as_delivered r later (Db.messages db1))
          = Some m'
          /\ Db.status m' = delivered
          /\ Db.delivered_at m'
             = Some (if existsb (Db.recently_active now (Some r)) (Db.profiles db)
                     then now else later)).
Proof.
  intros auth_uid new_id r now later ins db m db1 Hs Hr Hins. split.
  - intros db2 Hsteps.
    destruct (inserted_on_its_way _ _ r _ _ _ _ _ Hs Hr Hins) as (Hrow & Hm).
    destruct (app_run_on_its_way r _ _ Hsteps new_id m Hrow Hm) as (m2 & Hrow2 & Hr2 & H2).
    unfold Db.mark_messages_as_delivered.
    rewrite row_of_map by (intros y; now destruct (Db.delivered_target r y)).
    rewrite Hrow2. simpl. eexists. split; [reflexivity|].
    destruct H2 as [[Hsent Hnone]|Hpast].
    + assert (Db.delivered_target r m2 = true) as ->
          by (apply delivered_target_spec; auto).
      left. simpl. split; [reflexivity | discriminate].
    + destruct (Db.delivered_target r m2) eqn:E; [|exact Hpast].
      apply delivered_target_spec in E. destruct E as (_ & Hst & Hd).
      destruct Hpast as [[H1 H2]|[H1 _]]; congruence.
  - apply insert_message_appends in Hins. destruct Hins as (-> & Hm & Hfresh).
    unfold Db.mark_messages_as_delivered.
    rewrite row_of_map by (intros y; now destruct (Db.delivered_target r y)).
    rewrite (row_of_fresh new_id (Db.messages db) m Hfresh).
    + simpl. eexists. split; [reflexivity|]. rewrite Hm.
      rewrite (delivered_target_trigger _ _ _ r) by (simpl; auto).
      unfold Db.auto_mark_delivered. simpl. rewrite Hr.
      destruct (existsb (Db.recently_active now (Some r)) (Db.profiles db));
        simpl; auto.
    + rewrite Hm. apply auto_mark_delivered_keeps.
Qed.

(** X9, on the sample: Bob writes to Alice, who was not active.  When she
    opens the thread the message is marked seen; her client's later call of
    [mark_messages_as_delivered] finds it ['seen'], with no delivery instant.
    Had the call come first, the message would be ['delivered']. *)
Lemma delivered_once_witness :
  let i := "e0000000-0000-4000-8000-000000000009" in
  let ins := Db.mkInsert "yo" Sample.bob (Some Sample.alice) None sent
               (Some Sample.noon) in
  let m := Db.mkMessage i "yo" Sample.bob (Some Sample.alice) None Sample.noon
             (Some Sample.noon) None None sent in
  let db1 := Db.mkDb Sample.people [m] [] in
  let db2 := Db.mkDb Sample.people
               (Db.mark_messages_as_seen Sample.bob Sample.alice
                  (Sample.noon + 500) [m]) [] in
  Db.insert_message Sample.bob i Sample.noon ins Sample.db0 = Db.Ok (m, db1)
  /\ (exists m',
        row_of i (Db.mark_messages_as_delivered Sample.alice (Sample.noon + 1000)
                    (Db.messages db2)) = Some m'
        /\ delivered_or_seen m' /\ Db.status m' = seen
        /\ Db.delivered_at m' = None)
  /\ (exists m',
        row_of i (Db.mark_messages_as_delivered Sample.alice (Sample.noon + 1000)
                    (Db.messages db1)) = Some m'
        /\ Db.status m' = delivered
        /\ Db.delivered_at m' = Some (Sample.noon + 1000)).
Proof.
  intros i ins m db1 db2.
  assert (Hins : Db.insert_message Sample.bob i Sample.noon ins Sample.db0
                 = Db.Ok (m, db1)) by (vm_compute; reflexivity).
  destruct (delivered_once Sample.bob i Sample.alice Sample.noon (Sample.noon + 1000)
              ins Sample.db0 m db1 eq_refl eq_refl Hins) as (Hany & Hdirect).
  split; [exact Hins|]. split.
  - destruct (Hany db2) as (m' & Hrow & Hm').
    + apply (run_more _ db2); [|apply run_done]. apply write_message.
      exact (Db.step_seen Sample.bob Sample.alice (Sample.noon + 500) db1).
    + exists m'. split; [exact Hrow|]. split; [exact Hm'|].
      vm_compute in Hrow. injection Hrow as <-. split; reflexivity.
  - exact Hdirect.
Defined.

Section ConversationTimestamp.
Import Db.

(** Under the row-level security of [conversations] the trigger updates
    nothing. *)
Lemma update_conversation_timestamp_none auth_uid now NEW cs :
  update_conversation_timestamp auth_uid now NEW cs = cs.
Proof.
  unfold update_conversation_timestamp, conversations_update_policy.
  destruct (conversation_id NEW); [|reflexivity].
  induction cs as [|c cs IH]; simpl; [reflexivity|].
  rewrite IH, andb_false_r. reflexivity.
Qed.

Lemma step_conversations db db' : step db db' -> conversations db' = conversations db.
Proof.
  intros [sender viewer now d|r now d|a n now ins x d d' Hins]; auto.
  apply insert_message_checked in Hins. destruct Hins as (_ & _ & _ & _ & ->).
  apply update_conversation_timestamp_none.
Qed.

Lemma app_write_conversations db db' :
  app_write db db' ->
  conversations db' = conversations db
  \/ exists c, conversations db' = conversations db ++ [c] /\ untouched c.
Proof.
  intros [d d' Hstep|n now u1 u2 d c d' Hc|a u sent now d|a now ins d q ps' Hi
          |a u e d ps' He|NEW now d ps' Hs]; auto.
  - left. now apply step_conversations.
  - unfold get_or_create_conversation in Hc.
    destruct (canonical_pair u1 u2) as [lo hi].
    destruct (find _ (conversations d)); [left; now injection Hc as _ <-|].
    unfold insert_conversation in Hc.
    destruct (existsb _ (conversations d)); [discriminate|].
    destruct (existsb _ (conversations d)); [discriminate|].
    destruct (negb _); [discriminate|]. injection Hc as _ <-.
    right. eexists. split; reflexivity.
Qed.

End ConversationTimestamp.

(** X10. The trigger that should move a conversation up when a message is
    inserted has no effect: inserting a message leaves [conversations] as it
    is, [updated_at] included, because the update of the trigger runs under
    the row-level security of the table, which has no policy for updates.
    Over every run of what the application writes, a conversation row stays
    what it was when it was created: rows are only added, and every
    [updated_at] still equals its [created_at]. *)
Theorem conversations_are_never_touched :
  forall (db db' : Db.database),
    app_run db db' ->
    (exists more, Db.conversations db' = Db.conversations db ++ more
                  /\ Forall untouched more)
    /\ (Forall untouched (Db.conversations db) ->
        Forall untouched (Db.conversations db'))
    /\ (forall auth_uid new_id now ins m db'',
          Db.insert_message auth_uid new_id now ins db = Db.Ok (m, db'') ->
          Db.conversations db'' = Db.conversations db).
Proof.
  intros db db' Hrun.
  assert (Hmore : exists more, Db.conversations db' = Db.conversations db ++ more
                               /\ Forall untouched more).
  { induction Hrun as [db|db1 db2 db3 H12 _ IH].
    - exists []. split; [now rewrite app_nil_r | constructor].
    - destruct IH as (more' & E' & Hm').
      destruct (app_write_conversations _ _ H12) as [E|(c & E & Hc)].
      + exists more'. now rewrite E', E.
      + exists (c :: more'). rewrite E', E, <- app_assoc. split; [reflexivity|].
        now constructor. }
  split; [exact Hmore|]. split.
  - intros H. destruct Hmore as (more & -> & Hm). apply Forall_app. now split.
  - intros auth_uid new_id now ins m db'' Hins.
    apply (step_conversations db db'').
    now apply (Db.step_insert auth_uid new_id now ins m).
Qed.

(** X10, on the sample: the conversation that was opened at noon for Alice's
    "hi" still has noon as its [updated_at] after the messages sent in it a
    minute later. *)
Lemma conversations_are_never_touched_witness :
  exists db',
    app_run Sample.db0 db'
    /\ Forall untouched (Db.conversations db')
    /\ map Db.c_id (Db.conversations db') = [Backend.new_conversation_id Sample.draw1]
    /\ map (fun m => (Db.conversation_id m, Db.created_at m)) (Db.messages db')
       = [(Some (Backend.new_conversation_id Sample.draw1), Sample.noon + 60000)].
Proof.
  set (cid := Backend.new_conversation_id Sample.draw1).
  set (db1 := Db.mkDb Sample.people []
                [Db.mkConversation cid Sample.alice Sample.bob Sample.noon Sample.noon]).
  set (m := Db.mkMessage (Backend.new_message_id Sample.draw1) "hi" Sample.alice
              (Some Sample.bob) (Some cid) (Sample.noon + 60000)
              (Some (Sample.noon + 60000)) (Some (Sample.noon + 60000)) None
              delivered).
  set (db2 := Db.mkDb Sample.people [m] (Db.conversations db1)).
  assert (Hrun : app_run Sample.db0 db2).
  { apply (run_more _ db1);
      [apply (write_conversation cid Sample.noon Sample.alice Sample.bob
                Sample.db0 cid); vm_compute; reflexivity|].
    apply (run_more _ db2); [|apply run_done].
    apply write_message.
    apply (Db.step_insert Sample.alice (Backend.new_message_id Sample.draw1)
             (Sample.noon + 60000)
             (Db.mkInsert "hi" Sample.alice (Some Sample.bob) (Some cid) sent
                (Some (Sample.noon + 60000))) m).
    vm_compute. reflexivity. }
  exists db2. split; [exact Hrun|].
  destruct (conversations_are_never_touched Sample.db0 db2 Hrun)
    as (_ & Hkept & _).
  split; [apply Hkept; constructor|]. split; reflexivity.
Defined.

(** ** The list of the message store *)

Section StoreListFacts.
Import MessageStore.

Lemma map_id_apply_update d prev :
  map msg_id (apply_update d prev) = map msg_id prev.
Proof.
  unfold apply_update. rewrite map_map. apply map_ext_in. intros m _.
  destruct (String.eqb (msg_id m) (msg_id d)) eqn:E; auto.
  apply String.eqb_eq in E. congruence.
Qed.

Lemma apply_update_absent d prev :
  has_id (msg_id d) prev = false -> apply_update d prev = prev.
Proof.
  unfold apply_update, has_id. induction prev as [|m l IH]; simpl; auto.
  intros H. apply orb_false_iff in H. destruct H as [Hm Hl].
  now rewrite Hm, IH.
Qed.

Lemma apply_update_same_id d1 d2 prev :
  msg_id d1 = msg_id d2 ->
  apply_update d2 (apply_update d1 prev) = apply_update d2 prev.
Proof.
  intros Hid. unfold apply_update. rewrite map_map. apply map_ext. intros m.
  cbv beta. rewrite Hid.
  destruct (String.eqb (msg_id m) (msg_id d2)) eqn:E; rewrite ?E; auto.
  now rewrite Hid, String.eqb_refl.
Qed.

Lemma count_id_perm i l l' : Permutation l l' -> count_id i l = count_id i l'.
Proof.
  unfold count_id. induction 1; simpl; auto.
  - destruct (String.eqb (msg_id x) i); simpl; auto.
  - destruct (String.eqb (msg_id x) i), (String.eqb (msg_id y) i); simpl; auto.
  - congruence.
Qed.

Lemma count_id_app i l l' : count_id i (l ++ l') = (count_id i l + count_id i l')%nat.
Proof. unfold count_id. now rewrite filter_app, length_app. Qed.

Lemma count_id_absent i l : has_id i l = false -> count_id i l = 0%nat.
Proof.
  unfold count_id, has_id. induction l as [|m l IH]; simpl; auto.
  intros H. apply orb_false_iff in H. destruct H as [Hm Hl]. now rewrite Hm, IH.
Qed.

Lemma has_id_fresh i l : fresh_id i l -> has_id i l = false.
Proof.
  unfold has_id. induction 1 as [|m l Hm _ IH]; simpl; auto.
  apply String.eqb_neq in Hm. now rewrite Hm.
Qed.

(** After the replacement, the entries under the id of the record are those
    that were under it or under the temporary id. *)
Lemma count_id_replace tid sm l :
  tid <> msg_id sm ->
  count_id (msg_id sm) (replace_optimistic tid sm l)
  = (count_id (msg_id sm) l + count_id tid l)%nat.
Proof.
  intros Hne. unfold count_id, replace_optimistic.
  induction l as [|m l IH]; simpl; auto.
  destruct (String.eqb (msg_id m) tid) eqn:Et.
  - rewrite String.eqb_refl. apply String.eqb_eq in Et.
    assert (String.eqb (msg_id m) (msg_id sm) = false) as ->
        by (apply String.eqb_neq; congruence).
    simpl. rewrite IH. lia.
  - destruct (String.eqb (msg_id m) (msg_id sm)); simpl; rewrite IH; lia.
Qed.

End StoreListFacts.

(** X11. A realtime update replaces by id and does nothing else: every
    entry listed under the id of the fetched record becomes that record, at
    its place, and every other entry stays what it was; so the ids of the
    list, their order and their number are unchanged, an update for a
    message that is not listed changes nothing, and of two updates for the
    same message the last one wins. *)
Theorem update_event_replaces_by_id :
  forall (d d' : MessageStore.Message) (prev : list MessageStore.Message),
    Forall2 (fun old new =>
               (MessageStore.msg_id old = MessageStore.msg_id d -> new = d)
               /\ (MessageStore.msg_id old <> MessageStore.msg_id d -> new = old))
            prev (MessageStore.apply_update d prev)
    /\ map MessageStore.msg_id (MessageStore.apply_update d prev)
       = map MessageStore.msg_id prev
    /\ (has_id (MessageStore.msg_id d) prev = false ->
        MessageStore.apply_update d prev = prev)
    /\ (MessageStore.msg_id d = MessageStore.msg_id d' ->
        MessageStore.apply_update d' (MessageStore.apply_update d prev)
        = MessageStore.apply_update d' prev).
Proof.
  intros d d' prev. split.
  { unfold MessageStore.apply_update. apply Forall2_map_self. intros old.
    destruct (String.eqb_spec (MessageStore.msg_id old) (MessageStore.msg_id d));
      split; intros; congruence. }
  split; [apply map_id_apply_update|].
  split; [apply apply_update_absent | apply apply_update_same_id].
Qed.

(** X11, on the sample: Alice's thread shows Bob's message as delivered; the
    update that reports it seen takes its place. *)
Lemma update_event_replaces_by_id_witness :
  let old := Db.join_profile Sample.people
               (Sample.note (Sample.nth_id 0) Sample.bob Sample.alice
                  (Sample.noon - 5000) delivered) in
  let d := Db.join_profile Sample.people
             (Sample.note (Sample.nth_id 0) Sample.bob Sample.alice
                (Sample.noon - 5000) seen) in
  MessageStore.apply_update d [old] = [d].
Proof.
  intros old d.
  destruct (update_event_replaces_by_id d d [old]) as (H & _).
  remember (MessageStore.apply_update d [old]) as out eqn:E. clear E.
  inversion H as [|x y l l' [Hsame _] Hrest]; subst.
  inversion Hrest; subst. f_equal. apply Hsame. reflexivity.
Defined.

(** X12. A list in which no id occurs twice stays so under an insert event,
    an update event and the removal of a placeholder. *)
Theorem store_ids_stay_unique :
  forall (d : MessageStore.Message) (tid : uuid) (prev : list MessageStore.Message),
    NoDup (map MessageStore.msg_id prev) ->
    NoDup (map MessageStore.msg_id (MessageStore.apply_insert d prev))
    /\ NoDup (map MessageStore.msg_id (MessageStore.apply_update d prev))
    /\ NoDup (map MessageStore.msg_id (MessageStore.remove_optimistic tid prev)).
Proof.
  intros d tid prev Hnd. split; [|split].
  - destruct (has_id (MessageStore.msg_id d) prev) eqn:E.
    + now rewrite apply_insert_present.
    + rewrite apply_insert_absent by auto.
      eapply Permutation_NoDup.
      * apply Permutation_map. apply stable_sort_perm.
      * rewrite map_app. simpl. apply NoDup_app; auto.
        -- constructor; [intros []|constructor].
        -- intros i Hi [<-|[]]. apply in_map_iff in Hi.
           destruct Hi as (m & Hm & Hin).
           assert (has_id (MessageStore.msg_id d) prev = true) as E'.
           { apply existsb_exists. exists m. split; auto. now apply String.eqb_eq. }
           congruence.
  - now rewrite map_id_apply_update.
  - unfold MessageStore.remove_optimistic.
    induction prev as [|m l IH]; simpl; [constructor|].
    apply NoDup_cons_iff in Hnd. destruct Hnd as [Hm Hl].
    destruct (negb _); simpl; auto.
    constructor; auto. intros Hin. apply Hm.
    apply in_map_iff in Hin. destruct Hin as (x & Hx & Hxin).
    apply filter_In in Hxin. rewrite <- Hx. apply in_map. tauto.
Qed.

(** X12, on the sample. *)
Lemma store_ids_stay_unique_witness :
  let d := Db.join_profile Sample.people
             (Sample.note (Sample.nth_id 1) Sample.alice Sample.bob (Sample.noon + 1) sent) in
  NoDup (map MessageStore.msg_id
           (MessageStore.apply_insert d (MessageStore.messages Sample.one_message_store))).
Proof.
  intros d.
  destruct (store_ids_stay_unique d "" (MessageStore.messages Sample.one_message_store))
    as (H & _).
  - vm_compute. constructor; [intros []|constructor].
  - exact H.
Defined.

(** X13. Reconciling a send.  With a temporary id that was not in use and a
    durable record that is not listed yet, the reply of the insert turns the
    list into the earlier list followed by the record, and an insert event for
    that record that comes afterwards changes nothing.  When the event is
    applied before the reply, the record ends up listed twice. *)
Theorem send_reconciles_in_one_order :
  forall (tid : uuid) (opt sentMessage : MessageStore.Message)
         (prev : list MessageStore.Message),
    MessageStore.msg_id opt = tid ->
    tid <> MessageStore.msg_id sentMessage ->
    fresh_id tid prev ->
    has_id (MessageStore.msg_id sentMessage) prev = false ->
    MessageStore.replace_optimistic tid sentMessage (prev ++ [opt])
    = prev ++ [sentMessage]
    /\ MessageStore.apply_insert sentMessage
         (MessageStore.replace_optimistic tid sentMessage (prev ++ [opt]))
       = prev ++ [sentMessage]
    /\ count_id (MessageStore.msg_id sentMessage)
         (MessageStore.replace_optimistic tid sentMessage
            (MessageStore.apply_insert sentMessage (prev ++ [opt])))
       = 2%nat.
Proof.
  intros tid opt sm prev Hopt Hne Hfresh Habsent.
  assert (Hrep : MessageStore.replace_optimistic tid sm (prev ++ [opt]) = prev ++ [sm]).
  { rewrite (replace_optimistic_app _ _ _ _ Hopt).
    now rewrite (replace_optimistic_fresh _ _ _ Hfresh). }
  split; [exact Hrep|]. split.
  - rewrite Hrep. apply apply_insert_present.
    rewrite has_id_snoc, String.eqb_refl. apply orb_true_r.
  - assert (has_id (MessageStore.msg_id sm) (prev ++ [opt]) = false) as Hab.
    { rewrite has_id_snoc, Habsent, Hopt. simpl.
      apply String.eqb_neq. exact Hne. }
    rewrite (count_id_replace tid sm _ Hne).
    rewrite (apply_insert_absent sm _ Hab).
    rewrite <- !(count_id_perm _ _ _
                   (stable_sort_perm MessageStore.created_le ((prev ++ [opt]) ++ [sm]))).
    rewrite !count_id_app.
    rewrite (count_id_absent _ prev Habsent).
    rewrite (count_id_absent tid prev (has_id_fresh _ _ Hfresh)).
    unfold count_id. simpl. rewrite Hopt, !String.eqb_refl.
    assert (String.eqb tid (MessageStore.msg_id sm) = false) as ->
        by (now apply String.eqb_neq).
    assert (String.eqb (MessageStore.msg_id sm) tid = false) as ->
        by (apply String.eqb_neq; congruence).
    reflexivity.
Qed.

(** X13, on the sample: Alice's "hi" on top of one earlier message. *)
Lemma send_reconciles_in_one_order_witness :
  let env := fst Sample.hi_served in
  let opt := MessageStore.optimisticMessage "hi" Sample.alice Sample.bob env in
  let prev := MessageStore.messages Sample.one_message_store in
  exists sentMessage,
    MessageStore.insert_reply env = mkReply (Some sentMessage) None
    /\ MessageStore.apply_insert sentMessage
         (MessageStore.replace_optimistic (MessageStore.msg_id opt) sentMessage
            (prev ++ [opt]))
       = prev ++ [sentMessage]
    /\ count_id (MessageStore.msg_id sentMessage)
         (MessageStore.replace_optimistic (MessageStore.msg_id opt) sentMessage
            (MessageStore.apply_insert sentMessage (prev ++ [opt])))
       = 2%nat.
Proof.
  intros env opt prev. eexists. split; [vm_compute; reflexivity|].
  eapply (fun H1 H2 H3 H4 =>
            proj2 (send_reconciles_in_one_order (MessageStore.msg_id opt) opt _ prev
                     H1 H2 H3 H4)).
  - reflexivity.
  - vm_compute. discriminate.
  - constructor; [vm_compute; discriminate | constructor].
  - vm_compute. reflexivity.
Defined.

(** ** Temporary ids *)

Section TempIdFacts.
Import MessageStore.

Lemma append_cancel (p a b : string) :
  String.append p a = String.append p b -> a = b.
Proof. induction p as [|c p IH]; simpl; auto. intros [= H]. auto. Qed.

Lemma to_int_printable z :
  Z.to_int z <> Decimal.Pos Decimal.Nil /\ Z.to_int z <> Decimal.Neg Decimal.Nil.
Proof.
  destruct z as [|p|p]; simpl; split; try discriminate;
    intros [= H]; now apply (DecimalPos.Unsigned.to_uint_nonnil p).
Qed.

Lemma show_int_inj a b :
  DecimalString.NilZero.string_of_int (Z.to_int a)
  = DecimalString.NilZero.string_of_int (Z.to_int b) -> a = b.
Proof.
  intros H. apply DecimalZ.to_int_inj.
  destruct (to_int_printable a) as [A1 A2], (to_int_printable b) as [B1 B2].
  pose proof (DecimalString.NilZero.isi _ A1 A2) as Ia.
  pose proof (DecimalString.NilZero.isi _ B1 B2) as Ib.
  rewrite H in Ia. congruence.
Qed.

End TempIdFacts.

(** X14. Sends made at different readings of the clock get different
    temporary ids.  Hence a send that fails while an earlier one is still
    pending removes its own placeholder and leaves the other in place. *)
Theorem temp_ids_differ :
  forall (t1 t2 : timestamp),
    t1 <> t2 ->
    MessageStore.temp_id t1 <> MessageStore.temp_id t2
    /\ forall cu content userId recipientId env (pending : MessageStore.Message)
              (st : MessageStore.store) e,
        MessageStore.date_now env = t2 ->
        MessageStore.messages st = [pending] ->
        MessageStore.msg_id pending = MessageStore.temp_id t1 ->
        error (MessageStore.insert_reply env) = Some e ->
        MessageStore.messages
          (snd (MessageStore.sendMessage cu content userId recipientId env st))
        = [pending].
Proof.
  intros t1 t2 Hne.
  assert (Hid : MessageStore.temp_id t1 <> MessageStore.temp_id t2).
  { unfold MessageStore.temp_id. intros H. apply append_cancel in H.
    now apply show_int_inj in H. }
  split; auto.
  intros cu content userId recipientId env pending st e Hnow Hst Hp He.
  rewrite (sendMessage_failed _ _ _ _ _ _ _ He). simpl.
  rewrite (remove_optimistic_app _ _ _ (optimistic_id _ _ _ _)).
  rewrite Hst, Hnow. unfold MessageStore.remove_optimistic. simpl.
  rewrite Hp. apply String.eqb_neq in Hid. now rewrite Hid.
Qed.

(** X14, on the sample. *)
Lemma temp_ids_differ_witness :
  MessageStore.temp_id Sample.noon <> MessageStore.temp_id (Sample.noon + 1).
Proof.
  destruct (temp_ids_differ Sample.noon (Sample.noon + 1)) as (H & _).
  - vm_compute. discriminate.
  - exact H.
Defined.

(** ** Guards and failures of the hook *)

(** X15. Without a selected peer or without a signed-in user the hook asks
    the backend nothing: neither its effect, nor a refresh, nor
    [fetchMessages], nor [markMessagesAsSeen] issues a request, and of these
    only the effect touches the list, which it empties when no peer is
    selected. *)
Theorem nothing_is_requested_without_peer_or_user :
  forall (recipientId currentUser : option uuid) (authLoading : bool)
         (r : reply (list MessageStore.Message)) (st : MessageStore.store),
    truthy recipientId = false \/ currentUser = None ->
    MessageStore.fetchMessages recipientId currentUser r st = (MessageStore.Done tt, st)
    /\ MessageStore.markMessagesAsSeen recipientId currentUser st
       = (MessageStore.Done tt, st)
    /\ MessageStore.refreshMessages recipientId currentUser r st
       = (MessageStore.Done tt, st)
    /\ MessageStore.issued
         (snd (MessageStore.useMessages_effect recipientId authLoading currentUser r st))
       = MessageStore.issued st
    /\ MessageStore.messages
         (snd (MessageStore.useMessages_effect recipientId authLoading currentUser r st))
       = if truthy recipientId then MessageStore.messages st else [].
Proof.
  intros recipientId currentUser authLoading r st H.
  unfold MessageStore.fetchMessages, MessageStore.markMessagesAsSeen,
    MessageStore.refreshMessages, MessageStore.useMessages_effect.
  destruct H as [H| ->].
  - rewrite H. destruct recipientId as [peer|]; simpl in *.
    + apply negb_false_iff in H. rewrite H.
      destruct currentUser; repeat split; reflexivity.
    + destruct currentUser; repeat split; reflexivity.
  - destruct recipientId as [peer|]; simpl.
    + destruct (String.eqb peer ""); simpl; rewrite ?orb_true_r, ?andb_false_r;
        repeat split; reflexivity.
    + repeat split; reflexivity.
Qed.

(** X15, on the sample: no peer is selected. *)
Lemma nothing_is_requested_without_peer_or_user_witness :
  let after :=
    snd (MessageStore.useMessages_effect None false (Some Sample.alice)
           (Backend.serve_thread Sample.alice Sample.bob Sample.long_db)
           Sample.one_message_store) in
  MessageStore.issued after = [] /\ MessageStore.messages after = [].
Proof.
  destruct (nothing_is_requested_without_peer_or_user None (Some Sample.alice) false
              (Backend.serve_thread Sample.alice Sample.bob Sample.long_db)
              Sample.one_message_store) as (_ & _ & _ & Hi & Hm).
  - left. reflexivity.
  - split; [exact Hi | exact Hm].
Defined.

(** X16. Loading the history never throws and always ends the loading
    state; the list becomes what the query returned, and the empty list when
    the query failed or returned nothing. *)
Theorem load_never_throws :
  forall (cur peer : uuid) (r : reply (list MessageStore.Message))
         (st : MessageStore.store),
    peer <> "" ->
    MessageStore.fetchMessages (Some peer) (Some cur) r st
    = (MessageStore.Done tt,
       MessageStore.mkStore
         (match error r, data r with
          | None, Some l => l
          | _, _ => []
          end)
         false
         (MessageStore.issued st ++ [MessageStore.select_thread cur peer])).
Proof.
  intros cur peer r st Hp. apply String.eqb_neq in Hp.
  unfold MessageStore.fetchMessages. rewrite Hp.
  destruct r as [[l|] [e|]]; reflexivity.
Qed.

(** X16, on the sample: the query fails while the thread shows a message. *)
Lemma load_never_throws_witness :
  MessageStore.fetchMessages (Some Sample.bob) (Some Sample.alice)
    (mkReply None (Some (mkError "500" "upstream failure"))) Sample.one_message_store
  = (MessageStore.Done tt,
     MessageStore.mkStore [] false [MessageStore.select_thread Sample.alice Sample.bob]).
Proof.
  rewrite (load_never_throws Sample.alice Sample.bob _ Sample.one_message_store).
  - reflexivity.
  - discriminate.
Defined.

(** X17. A failed conversation lookup does not stop a send: the message is
    inserted with a null [conversation_id], what the send does to the list and
    what it throws do not depend on the reply of the lookup, and the insert of
    a message without conversation leaves the conversations as they are. *)
Theorem send_survives_conversation_failure :
  forall (cu : option uuid) (content : string) (userId recipientId : uuid)
         (env : MessageStore.send_env) (failed : reply uuid)
         (st : MessageStore.store),
    data failed = None ->
    let env' := MessageStore.mkSendEnv (MessageStore.date_now env)
                  (MessageStore.created_now env) (MessageStore.sent_now env)
                  (MessageStore.profile_reply env) failed
                  (MessageStore.insert_reply env) in
    Db.i_conversation_id (MessageStore.send_insert content userId recipientId env')
    = None
    /\ In (MessageStore.insert_message
             (MessageStore.send_insert content userId recipientId env'))
          (MessageStore.issued
             (snd (MessageStore.sendMessage cu content userId recipientId env' st)))
    /\ fst (MessageStore.sendMessage cu content userId recipientId env' st)
       = fst (MessageStore.sendMessage cu content userId recipientId env st)
    /\ MessageStore.messages
         (snd (MessageStore.sendMessage cu content userId recipientId env' st))
       = MessageStore.messages
           (snd (MessageStore.sendMessage cu content userId recipientId env st))
    /\ (forall auth_uid new_id now db m db',
           Db.insert_message auth_uid new_id now
             (MessageStore.send_insert content userId recipientId env') db
           = Db.Ok (m, db') ->
           Db.conversations db' = Db.conversations db).
Proof.
  intros cu content userId recipientId env failed st Hfailed env'.
  assert (Hnull : Db.i_conversation_id
                    (MessageStore.send_insert content userId recipientId env') = None).
  { unfold MessageStore.send_insert, env'. simpl. rewrite Hfailed. reflexivity. }
  split; [exact Hnull|].
  assert (Hruns : forall e : MessageStore.send_env,
             MessageStore.insert_reply e = MessageStore.insert_reply env ->
             MessageStore.date_now e = MessageStore.date_now env ->
             MessageStore.created_now e = MessageStore.created_now env ->
             MessageStore.profile_reply e = MessageStore.profile_reply env ->
             fst (MessageStore.sendMessage cu content userId recipientId e st)
             = fst (MessageStore.sendMessage cu content userId recipientId env st)
             /\ MessageStore.messages
                  (snd (MessageStore.sendMessage cu content userId recipientId e st))
                = MessageStore.messages
                    (snd (MessageStore.sendMessage cu content userId recipientId env st))
             /\ In (MessageStore.insert_message
                      (MessageStore.send_insert content userId recipientId e))
                   (MessageStore.issued
                      (snd (MessageStore.sendMessage cu content userId recipientId e st)))).
  { intros e Hi Hd Hc Hp.
    assert (Hopt : MessageStore.optimisticMessage content userId recipientId e
                   = MessageStore.optimisticMessage content userId recipientId env).
    { unfold MessageStore.optimisticMessage. now rewrite Hd, Hc, Hp. }
    destruct (error (MessageStore.insert_reply env)) as [x|] eqn:Eerr.
    - rewrite (sendMessage_failed cu content userId recipientId e st x)
        by (now rewrite Hi).
      rewrite (sendMessage_failed cu content userId recipientId env st x) by auto.
      simpl. rewrite Hd, Hopt. repeat split.
      apply in_or_app. right. simpl. auto.
    - destruct (data (MessageStore.insert_reply env)) as [sm|] eqn:Edata.
      + assert (MessageStore.insert_reply env = mkReply (Some sm) None) as Hr
            by (destruct (MessageStore.insert_reply env); simpl in *; congruence).
        rewrite (sendMessage_sent cu content userId recipientId e st sm)
          by (now rewrite Hi).
        rewrite (sendMessage_sent cu content userId recipientId env st sm) by auto.
        simpl. rewrite Hd, Hopt. repeat split.
        apply in_or_app. right. simpl. auto.
      + unfold MessageStore.sendMessage, MessageStore.try_catch, MessageStore.bind,
          MessageStore.issue, MessageStore.setMessages, MessageStore.updateLastSeen,
          MessageStore.markMessagesAsDelivered, MessageStore.ret. simpl.
        rewrite Hi, Eerr, Edata, Hopt. simpl.
        destruct cu; simpl; repeat split;
          rewrite !in_app_iff; simpl; tauto. }
  destruct (Hruns env' eq_refl eq_refl eq_refl eq_refl) as (H1 & H2 & H3).
  split; [exact H3|]. split; [exact H1|]. split; [exact H2|].
  intros auth_uid new_id now db m db' Hins.
  pose proof (insert_message_checked _ _ _ _ _ _ _ Hins) as (_ & _ & _ & _ & ->).
  pose proof (insert_message_appends _ _ _ _ _ _ _ Hins) as (_ & Hm & _).
  unfold Db.update_conversation_timestamp.
  assert (Db.conversation_id m = None) as ->; [|reflexivity].
  rewrite Hm, <- Hnull. apply auto_mark_delivered_keeps.
Qed.

(** X17, on the sample: the lookup fails and Alice's "hi" still goes out. *)
Lemma send_survives_conversation_failure_witness :
  let env := fst Sample.hi_served in
  let env' := MessageStore.mkSendEnv (MessageStore.date_now env)
                (MessageStore.created_now env) (MessageStore.sent_now env)
                (MessageStore.profile_reply env)
                (mkReply None (Some (mkError "42883" "function does not exist")))
                (MessageStore.insert_reply env) in
  fst (MessageStore.sendMessage (Some Sample.alice) "hi" Sample.alice Sample.bob env'
         Sample.empty_store) = MessageStore.Done tt
  /\ Db.i_conversation_id (MessageStore.send_insert "hi" Sample.alice Sample.bob env')
     = None.
Proof.
  intros env env'.
  destruct (send_survives_conversation_failure (Some Sample.alice) "hi" Sample.alice
              Sample.bob env
              (mkReply None (Some (mkError "42883" "function does not exist")))
              Sample.empty_store eq_refl) as (Hnull & _ & Hfst & _).
  split; [|exact Hnull].
  fold env' in Hfst. rewrite Hfst. vm_compute. reflexivity.
Defined.

(** X18. A relevant event whose re-fetch fails or returns nothing changes
    neither the list nor the timers; after a successful re-fetch the timer
    that marks the thread seen is armed exactly when the peer wrote the
    message, also when the message was already listed. *)
Theorem relevant_event_refetch :
  forall (cur peer : uuid) (payload : Db.message)
         (r : reply MessageStore.Message) (st : MessageStore.store),
    MessageStore.isRelevantMessage cur peer payload = true ->
    let sel := MessageStore.select_message (Db.id payload) in
    ((error r <> None \/ data r = None) ->
     MessageStore.on_insert cur peer payload r st
     = (MessageStore.Done tt,
        MessageStore.mkStore (MessageStore.messages st) (MessageStore.loading st)
                             (MessageStore.issued st ++ [sel]))
     /\ MessageStore.on_update cur peer payload r st
        = (MessageStore.Done tt,
           MessageStore.mkStore (MessageStore.messages st) (MessageStore.loading st)
                                (MessageStore.issued st ++ [sel])))
    /\ (forall d, r = mkReply (Some d) None ->
          MessageStore.on_insert cur peer payload r st
          = (MessageStore.Done tt,
             MessageStore.mkStore
               (MessageStore.apply_insert d (MessageStore.messages st))
               (MessageStore.loading st)
               (MessageStore.issued st ++ sel ::
                  if String.eqb (Db.user_id payload) peer
                  then [MessageStore.set_timeout 1000
                          (MessageStore.rpc_mark_messages_as_seen peer cur)]
                  else [])))
    /\ (forall d, r = mkReply (Some d) None ->
          MessageStore.on_update cur peer payload r st
          = (MessageStore.Done tt,
             MessageStore.mkStore
               (MessageStore.apply_update d (MessageStore.messages st))
               (MessageStore.loading st)
               (MessageStore.issued st ++ [sel]))).
Proof.
  intros cur peer payload r st Hrel sel.
  unfold MessageStore.on_insert, MessageStore.on_update. rewrite Hrel.
  split; [|split].
  - intros Hfail. destruct r as [[d|] [e|]]; simpl in *;
      try (destruct Hfail as [H|H]; [now elim H | discriminate H]);
      split; reflexivity.
  - intros d ->. unfold MessageStore.when, MessageStore.bind. simpl.
    destruct (String.eqb (Db.user_id payload) peer); simpl;
      unfold MessageStore.issue; simpl;
      rewrite <- ?app_assoc; reflexivity.
  - intros d ->. reflexivity.
Qed.

(** X18, on the sample: Bob's client hears of Alice's "hi" but the re-fetch
    fails. *)
Lemma relevant_event_refetch_witness :
  let payload := Sample.note (Backend.new_message_id Sample.draw1) Sample.alice
                   Sample.bob Sample.noon sent in
  MessageStore.on_insert Sample.bob Sample.alice payload
    (mkReply None (Some (mkError "500" "upstream failure"))) Sample.one_message_store
  = (MessageStore.Done tt,
     MessageStore.mkStore (MessageStore.messages Sample.one_message_store) false
       [MessageStore.select_message (Backend.new_message_id Sample.draw1)]).
Proof.
  intros payload.
  destruct (relevant_event_refetch Sample.bob Sample.alice payload
              (mkReply None (Some (mkError "500" "upstream failure")))
              Sample.one_message_store) as (H & _).
  - vm_compute. reflexivity.
  - destruct H as (H & _); [left; discriminate | exact H].
Defined.

(** ** More on the directory *)

Section SearchMore.
Import Directory.

Lemma blank_at rest : blank (String "@" rest) = false.
Proof.
  unfold blank. cbn [chars list_ascii_of_string].
  now destruct (list_ascii_of_string rest) as [|c2 [|c3 t]].
Qed.

End SearchMore.

(** X19. Whatever the case folding and the collation of the database are:
    when at most 10 handles match the pattern of a term that is not blank,
    the search returns all of them, the result being a rearrangement of the
    matching profiles. *)
Theorem search_returns_all_matches_under_cap :
  forall (fold : list ascii -> list ascii) (collate : string -> string -> bool)
         (searchTerm : string) (ps : list Db.profile) (st : Directory.search_state),
    Directory.blank searchTerm = false ->
    Directory.blank (Directory.cleanUsername searchTerm) = false ->
    let matches :=
      filter (fun p => Directory.ilike fold
                         (String.append "%"
                            (String.append (Directory.cleanUsername searchTerm) "%"))
                         (Db.username p)) ps in
    (List.length matches <= 10)%nat ->
    Permutation matches
      (Directory.searchResults
         (Directory.searchUserByUsername searchTerm
            (Directory.search_profiles fold collate ps) st)).
Proof.
  intros fold collate searchTerm ps st Hb Hc matches Hlen.
  unfold Directory.searchUserByUsername. rewrite Hb, Hc.
  unfold Directory.search_profiles. cbv zeta. cbn [error data Directory.searchResults].
  fold matches. rewrite firstn_all2.
  - apply stable_sort_perm.
  - rewrite stable_sort_length. exact Hlen.
Qed.

(** X19, on the sample, in the locale C: the term [%] matches each of the
    three handles. *)
Lemma search_returns_all_matches_under_cap_witness :
  Permutation Sample.people
    (Directory.searchResults
       (Directory.searchUserByUsername "%"
          (Directory.search_profiles Sample.fold Sample.collate Sample.people)
          Sample.idle_search)).
Proof.
  apply (search_returns_all_matches_under_cap Sample.fold Sample.collate "%"
           Sample.people Sample.idle_search).
  - reflexivity.
  - reflexivity.
  - vm_compute. lia.
Defined.

(** X20. The leading [@] is optional: a term that does not start with [@]
    gives the same state with and without one in front, whatever the backend
    answers.  A term of white space, with or without the [@], empties the
    results without the backend being asked. *)
Theorem at_sign_is_optional :
  forall (term : string) (backend backend' : string -> reply (list Db.profile))
         (st : Directory.search_state),
    (Directory.blank term = false ->
     Directory.cleanUsername term = term ->
     Directory.searchUserByUsername (String "@" term) backend st
     = Directory.searchUserByUsername term backend st)
    /\ (Directory.blank term = true ->
        Directory.searchResults
          (Directory.searchUserByUsername (String "@" term) backend st) = []
        /\ Directory.searchUserByUsername (String "@" term) backend st
           = Directory.searchUserByUsername (String "@" term) backend' st
        /\ Directory.searchUserByUsername term backend st
           = Directory.searchUserByUsername term backend' st
        /\ Directory.searchResults (Directory.searchUserByUsername term backend st)
           = []).
Proof.
  intros term backend backend' st. split.
  - intros Hb Hc. unfold Directory.searchUserByUsername.
    rewrite blank_at, Hb, Hc. simpl. now rewrite Hb.
  - intros Hb. unfold Directory.searchUserByUsername.
    rewrite blank_at, Hb. simpl. rewrite Hb. auto.
Qed.

(** X20, on the sample. *)
Lemma at_sign_is_optional_witness :
  let backend := Directory.search_profiles Sample.fold Sample.collate Sample.people in
  Directory.searchUserByUsername "@ali" backend Sample.idle_search
  = Directory.searchUserByUsername "ali" backend Sample.idle_search.
Proof.
  intros backend.
  destruct (at_sign_is_optional "ali" backend backend Sample.idle_search) as (H & _).
  apply H; reflexivity.
Defined.

(** ** The exact lookup *)

Section ExactFacts.
Import Directory Picker.

Lemma filter_username_absent ps name :
  ~ In name (map Db.username ps) ->
  filter (fun p => String.eqb (Db.username p) name) ps = [].
Proof.
  induction ps as [|q ps IH]; simpl; [reflexivity|]. intros Hn.
  destruct (String.eqb_spec (Db.username q) name) as [E|E].
  - elim Hn. now left.
  - apply IH. intros H. apply Hn. now right.
Qed.

Lemma exact_profile_unique ps name :
  NoDup (map Db.username ps) ->
  error (exact_profile ps name) = None
  /\ forall p, data (exact_profile ps name) = Some p
               <-> In p ps /\ Db.username p = name.
Proof.
  unfold exact_profile. induction ps as [|q ps IH]; simpl; intros Hnd.
  - split; [reflexivity|]. intros p. split; [discriminate | intros [[] _]].
  - inversion Hnd as [|? ? Hq Hnd']; subst.
    destruct (String.eqb_spec (Db.username q) name) as [E|E].
    + subst name. rewrite (filter_username_absent ps _ Hq). simpl.
      split; [reflexivity|]. intros p. split.
      * intros [= <-]. auto.
      * intros [[<-|Hin] Hu]; [reflexivity|].
        elim Hq. rewrite <- Hu. now apply in_map.
    + destruct (IH Hnd') as [He Hd]. split; [exact He|].
      intros p. rewrite Hd. split.
      * intros [Hin Hu]. auto.
      * intros [[<-|Hin] Hu]; [contradiction | auto].
Qed.

End ExactFacts.

(** X21. With handles unique in the table, the exact lookup of a term that
    is not blank, with or without the leading [@], never reports an error,
    leaves the results of the fuzzy search as they were, and returns a
    profile exactly when its handle is the term without the [@], letter for
    letter. *)
Theorem exact_lookup_is_exact :
  forall (username : string) (ps : list Db.profile) (st : Directory.search_state),
    NoDup (map Db.username ps) ->
    Directory.blank username = false ->
    Directory.blank (Directory.cleanUsername username) = false ->
    let found :=
      Picker.searchUserByExactUsername username (Picker.exact_profile ps) st in
    Directory.search_error (snd found) = None
    /\ Directory.loading (snd found) = false
    /\ Directory.searchResults (snd found) = Directory.searchResults st
    /\ forall p, fst found = Some p
                 <-> In p ps /\ Db.username p = Directory.cleanUsername username.
Proof.
  intros username ps st Hnd Hb Hc found. subst found.
  unfold Picker.searchUserByExactUsername. rewrite Hb, Hc. cbv zeta.
  destruct (exact_profile_unique ps (Directory.cleanUsername username) Hnd)
    as [He Hd].
  rewrite He. simpl. split; [reflexivity|]. split; [reflexivity|].
  split; [reflexivity | exact Hd].
Qed.

(** X21, on the sample: [@bob] finds Bob. *)
Lemma exact_lookup_is_exact_witness :
  fst (Picker.searchUserByExactUsername "@bob" (Picker.exact_profile Sample.people)
         Sample.idle_search)
  = Some (Sample.person Sample.bob "bob" (Some (Sample.noon - 60000))).
Proof.
  apply (exact_lookup_is_exact "@bob" Sample.people Sample.idle_search).
  - vm_compute. repeat constructor; simpl; intuition discriminate.
  - reflexivity.
  - reflexivity.
  - split; [|reflexivity]. vm_compute. tauto.
Defined.

(** ** The keyboard of the dropdown *)

Section KeyFacts.
Import Directory Picker.

Lemma filter_none_self cur l :
  (forall u, In u l -> is_self cur u = false) ->
  filter (fun user => negb (is_self cur user)) l = l.
Proof.
  induction l as [|u l IH]; simpl; intros H; [reflexivity|].
  rewrite (H u (or_introl eq_refl)). simpl. f_equal. apply IH. auto.
Qed.

Lemma nth_error_beyond {A} (l : list A) (i : Z) :
  0 <= i -> Z.of_nat (List.length l) <= i -> nth_error l (Z.to_nat i) = None.
Proof. intros H0 H. apply nth_error_None. lia. Qed.

Lemma results_length_zero st :
  (results_length st =? 0) = true -> searchResults st = [].
Proof.
  unfold results_length. intros H. apply Z.eqb_eq in H.
  destruct (searchResults st); [reflexivity | simpl in H; lia].
Qed.

Lemma results_length_pos st :
  (results_length st =? 0) = false -> searchResults st <> [] /\ 0 < results_length st.
Proof.
  unfold results_length. intros H. apply Z.eqb_neq in H.
  destruct (searchResults st); [simpl in H; lia | split; [discriminate | simpl; lia]].
Qed.

Lemma handleKeyDown_in_range k cur p :
  index_in_range p ->
  index_in_range (fst (handleKeyDown k cur (snd p) (fst p))).
Proof.
  destruct p as [d st]. unfold index_in_range. simpl. intros [Hlo Hhi].
  unfold handleKeyDown.
  destruct (negb (isOpen d) || (results_length st =? 0)) eqn:G; [simpl; auto|].
  apply orb_false_iff in G. destruct G as [_ G].
  destruct (results_length_pos st G) as [Hne Hpos]. specialize (Hhi Hne).
  destruct k; simpl; auto.
  - destruct (selectedIndex d <? results_length st - 1) eqn:E; simpl.
    + apply Z.ltb_lt in E. split; [lia | intros _; lia].
    + split; [lia | intros _; lia].
  - destruct (0 <? selectedIndex d) eqn:E; simpl.
    + apply Z.ltb_lt in E. split; [lia | intros _; lia].
    + split; [lia | intros _; lia].
  - destruct ((0 <=? selectedIndex d) && (selectedIndex d <? results_length st));
      [|simpl; auto].
    destruct (nth_error (searchResults st) (Z.to_nat (selectedIndex d)));
      [|simpl; auto].
    destruct (handleSelectUser cur p); simpl; [|auto].
    split; [exact Hlo | intros H; now elim H].
  - split; [lia | intros _; lia].
Qed.

End KeyFacts.

(** X22. With the dropdown open and its rows drawn (the hook neither
    loading nor in error): when the user's own profile is not among the
    results, Enter hands over the row that is drawn as selected; when it is
    among them, at the position of the index and with no own profile before
    it, Enter selects nothing and changes nothing, while the row drawn as
    selected is the next row that is not the user's own.  While the hook is
    loading no row is drawn, and Enter still hands over the result of the
    previous search that the index points at. *)
Theorem enter_and_the_highlighted_row :
  forall (cur : option uuid) (st : Directory.search_state) (d : Picker.dropdown),
    Picker.isOpen d = true ->
    (Directory.loading st = false -> truthy (Directory.search_error st) = false ->
     (forall u, In u (Directory.searchResults st) -> Directory.is_self cur u = false) ->
     snd (Picker.handleKeyDown Picker.Enter cur st d) = Picker.highlighted cur st d)
    /\ (Directory.loading st = false -> truthy (Directory.search_error st) = false ->
        forall pre me post,
          Directory.searchResults st = pre ++ me :: post ->
          Directory.is_self cur me = true ->
          (forall u, In u pre -> Directory.is_self cur u = false) ->
          Picker.selectedIndex d = Z.of_nat (List.length pre) ->
          Picker.handleKeyDown Picker.Enter cur st d = (d, st, None)
          /\ Picker.highlighted cur st d
             = hd_error (filter (fun user => negb (Directory.is_self cur user)) post))
    /\ (Directory.loading st = true ->
        Picker.highlighted cur st d = None
        /\ forall user,
             0 <= Picker.selectedIndex d ->
             nth_error (Directory.searchResults st)
                       (Z.to_nat (Picker.selectedIndex d)) = Some user ->
             Directory.is_self cur user = false ->
             snd (Picker.handleKeyDown Picker.Enter cur st d) = Some user).
Proof.
  intros cur st d Hopen. split; [|split].
  - intros Hload Herr Hnone. unfold Picker.handleKeyDown, Picker.highlighted,
      Picker.rows_drawn, Directory.filteredResults.
    rewrite (filter_none_self cur _ Hnone), Hopen, Hload, Herr. simpl.
    destruct (Picker.results_length st =? 0) eqn:G.
    + rewrite (results_length_zero st G). simpl.
      destruct (0 <=? Picker.selectedIndex d); [|reflexivity].
      now destruct (Z.to_nat (Picker.selectedIndex d)).
    + destruct (0 <=? Picker.selectedIndex d) eqn:E0; simpl; [|reflexivity].
      apply Z.leb_le in E0.
      destruct (Picker.selectedIndex d <? Picker.results_length st) eqn:E1.
      * destruct (nth_error (Directory.searchResults st)
                    (Z.to_nat (Picker.selectedIndex d))) as [user|] eqn:En;
          [|reflexivity].
        unfold Directory.handleSelectUser.
        rewrite (Hnone user (nth_error_In _ _ En)). reflexivity.
      * apply Z.ltb_ge in E1. simpl. symmetry.
        now apply nth_error_beyond.
  - intros Hload Herr pre me post Hres Hme Hpre Hidx. split.
    + unfold Picker.handleKeyDown. rewrite Hopen. simpl.
      destruct (Picker.results_length st =? 0); [reflexivity|].
      destruct ((0 <=? Picker.selectedIndex d)
                && (Picker.selectedIndex d <? Picker.results_length st));
        [|reflexivity].
      rewrite Hres, Hidx, Nat2Z.id, nth_error_app2, Nat.sub_diag by lia. simpl.
      unfold Directory.handleSelectUser. rewrite Hme. reflexivity.
    + unfold Picker.highlighted, Picker.rows_drawn, Directory.filteredResults.
      rewrite Hopen, Hload, Herr.
      rewrite Hres, Hidx, Nat2Z.id, filter_app, (filter_none_self cur pre Hpre).
      replace (0 <=? Z.of_nat (List.length pre)) with true
        by (symmetry; apply Z.leb_le; lia).
      simpl. rewrite Hme. simpl.
      rewrite nth_error_app2, Nat.sub_diag by lia.
      now destruct (filter _ post).
  - intros Hload. split.
    + unfold Picker.highlighted, Picker.rows_drawn. rewrite Hopen, Hload.
      reflexivity.
    + intros user H0 Hnth Hself.
      assert (Hlt : (Z.to_nat (Picker.selectedIndex d)
                     < List.length (Directory.searchResults st))%nat).
      { apply nth_error_Some. congruence. }
      unfold Picker.handleKeyDown. rewrite Hopen. simpl.
      replace (Picker.results_length st =? 0) with false
        by (symmetry; apply Z.eqb_neq; unfold Picker.results_length; lia).
      replace (0 <=? Picker.selectedIndex d) with true
        by (symmetry; apply Z.leb_le; lia).
      replace (Picker.selectedIndex d <? Picker.results_length st) with true
        by (symmetry; apply Z.ltb_lt; unfold Picker.results_length; lia).
      simpl. rewrite Hnth. unfold Directory.handleSelectUser. rewrite Hself.
      reflexivity.
Qed.

(** X22, on the sample: Alice searches, the results start with her own
    profile, the index is on the first row. *)
Lemma enter_and_the_highlighted_row_witness :
  let st := Directory.mkSearch Sample.people false None in
  let d := Picker.mkDropdown "a" true 0 in
  Picker.handleKeyDown Picker.Enter (Some Sample.alice) st d = (d, st, None)
  /\ Picker.highlighted (Some Sample.alice) st d
     = Some (Sample.person Sample.bob "bob" (Some (Sample.noon - 60000))).
Proof.
  intros st d.
  destruct (enter_and_the_highlighted_row (Some Sample.alice) st d eq_refl)
    as (_ & H & _).
  apply (H eq_refl eq_refl [] (Sample.person Sample.alice "alice" None)
           (tl Sample.people)); try reflexivity.
  intros u [].
Defined.

(** X23. As long as the results change only through the keys, the index of
    the dropdown never goes below [-1] and, while there are results, stays
    below their number, whatever keys are pressed.  When Enter selects a
    user, it is the result at the index; the results are emptied and the
    dropdown is closed, and the index is left where it was. *)
Theorem index_stays_in_range :
  forall (cur : option uuid) (ks : list Picker.key)
         (p : Picker.dropdown * Directory.search_state),
    index_in_range p ->
    index_in_range (press_keys cur ks p)
    /\ forall chosen d' st',
         Picker.handleKeyDown Picker.Enter cur (snd p) (fst p)
         = (d', st', Some chosen) ->
         nth_error (Directory.searchResults (snd p))
                   (Z.to_nat (Picker.selectedIndex (fst p))) = Some chosen
         /\ Directory.searchResults st' = []
         /\ Picker.isOpen d' = false
         /\ Picker.selectedIndex d' = Picker.selectedIndex (fst p).
Proof.
  intros cur ks p Hp. split.
  - revert p Hp. unfold press_keys.
    induction ks as [|k ks IH]; simpl; intros p Hp; [exact Hp|].
    apply IH. now apply handleKeyDown_in_range.
  - intros chosen d' st'. destruct p as [d st]. simpl.
    unfold Picker.handleKeyDown.
    destruct (negb (Picker.isOpen d) || (Picker.results_length st =? 0));
      [discriminate|].
    destruct ((0 <=? Picker.selectedIndex d)
              && (Picker.selectedIndex d <? Picker.results_length st));
      [|discriminate].
    destruct (nth_error (Directory.searchResults st)
                (Z.to_nat (Picker.selectedIndex d))) as [user|]; [|discriminate].
    unfold Directory.handleSelectUser.
    destruct (negb (Directory.is_self cur user)); [|discriminate].
    intros [= <- <- <-]. auto.
Qed.

(** X23, on the sample: up, up, down, down over three results, from the
    initial index. *)
Lemma index_stays_in_range_witness :
  index_in_range
    (press_keys (Some Sample.alice)
       [Picker.ArrowUp; Picker.ArrowUp; Picker.ArrowDown; Picker.ArrowDown]
       (Picker.mkDropdown "a" true (-1), Directory.mkSearch Sample.people false None)).
Proof.
  apply index_stays_in_range.
  split; simpl; [lia | intros _; vm_compute; reflexivity].
Defined.

(** ** The list of recent users *)

Section RosterFacts.
Import Roster.



Lemma map_id_profile_updated p l :
  map Db.p_id
      (map (fun user => if String.eqb (Db.p_id user) (Db.p_id p) then p else user) l)
  = map Db.p_id l.
Proof.
  rewrite map_map. apply map_ext. intros u.
  destruct (String.eqb_spec (Db.p_id u) (Db.p_id p)); congruence.
Qed.

Lemma existsb_id_false (i : uuid) l :
  existsb (fun u => String.eqb (Db.p_id u) i) l = false ->
  ~ In i (map Db.p_id l).
Proof.
  induction l as [|u l IH]; simpl; [tauto|].
  intros H. apply orb_false_iff in H. destruct H as [H1 H2].
  apply String.eqb_neq in H1. intros [E|E]; [congruence | now apply IH].
Qed.

Lemma NoDup_map_filter {A B} (f : A -> B) (g : A -> bool) l :
  NoDup (map f l) -> NoDup (map f (filter g l)).
Proof.
  induction l as [|a l IH]; simpl; intros H; [constructor|].
  inversion H as [|? ? Ha Hl]; subst.
  destruct (g a); simpl; [|auto]. constructor; [|auto].
  intros Hin. apply Ha. apply in_map_iff in Hin. destruct Hin as (x & Hx & Hin).
  apply filter_In in Hin. apply in_map_iff. exists x. tauto.
Qed.

Lemma NoDup_map_perm {A B} (f : A -> B) l l' :
  Permutation l l' -> NoDup (map f l) -> NoDup (map f l').
Proof.
  intros HP. apply Permutation_NoDup. now apply Permutation_map.
Qed.

Lemma NoDup_firstn {A} n (l : list A) : NoDup l -> NoDup (firstn n l).
Proof.
  revert l. induction n as [|n IH]; intros [|a l] H; simpl; try constructor.
  - inversion H; subst. intros Hin. apply firstn_In in Hin. contradiction.
  - inversion H; subst. auto.
Qed.

Lemma select_users_listed cur ps n :
  NoDup (map Db.p_id ps) ->
  let l := firstn n (stable_sort recent_first
                       (filter (fun p => negb (String.eqb (Db.p_id p) cur)) ps)) in
  NoDup (map Db.p_id l) /\ ~ In cur (map Db.p_id l).
Proof.
  intros Hnd.
  set (rest := filter (fun p => negb (String.eqb (Db.p_id p) cur)) ps).
  cbv zeta. split.
  - rewrite <- firstn_map. apply NoDup_firstn.
    apply (NoDup_map_perm Db.p_id rest); [apply stable_sort_perm|].
    now apply NoDup_map_filter.
  - intros Hin. apply in_map_iff in Hin. destruct Hin as (p & Hp & Hin).
    apply firstn_In in Hin. apply stable_sort_In in Hin.
    apply filter_In in Hin. destruct Hin as [_ Hin].
    rewrite Hp, String.eqb_refl in Hin. discriminate.
Qed.

Lemma roster_step_keeps cur e st :
  (forall ps, e = fetched ps -> NoDup (map Db.p_id ps)) ->
  NoDup (map Db.p_id (users st)) /\ ~ In cur (map Db.p_id (users st)) ->
  NoDup (map Db.p_id (users (roster_step cur e st)))
  /\ ~ In cur (map Db.p_id (users (roster_step cur e st))).
Proof.
  intros Hkey [Hnd Hcur]. destruct e as [ps|p|user]; simpl.
  - unfold fetchUsers, select_users. cbn [error data users].
    exact (select_users_listed cur ps roster_cap (Hkey ps eq_refl)).
  - rewrite map_id_profile_updated. split; assumption.
  - unfold Directory.handleSelectUser, Directory.is_self.
    destruct (String.eqb_spec (Db.p_id user) cur) as [E|E]; simpl; [auto|].
    unfold handleSearchUserSelect.
    destruct (existsb (fun u => String.eqb (Db.p_id u) (Db.p_id user)) (users st))
      eqn:Ex; simpl; [auto|].
    apply existsb_id_false in Ex. split.
    + now constructor.
    + intros [H|H]; [congruence | contradiction].
Qed.

End RosterFacts.


(** X25. Starting from a list without repeated users and without the
    current user, the list of recent users stays so through fetches, profile
    updates and users picked in the search, in any order, the tables
    fetched from having unique ids. *)
Theorem roster_has_each_user_once :
  forall (cur : uuid) (es : list roster_event) (st : Roster.roster),
    fetches_obey_key es ->
    NoDup (map Db.p_id (Roster.users st)) ->
    ~ In cur (map Db.p_id (Roster.users st)) ->
    NoDup (map Db.p_id (Roster.users (roster_run cur es st)))
    /\ ~ In cur (map Db.p_id (Roster.users (roster_run cur es st))).
Proof.
  intros cur es. unfold roster_run, fetches_obey_key.
  induction es as [|e es IH]; simpl; intros st Hkey Hnd Hcur; [auto|].
  destruct (roster_step_keeps cur e st) as [A B].
  - intros ps ->. apply Hkey. now left.
  - auto.
  - apply IH; auto.
Qed.

(** X25, on the sample: Alice's list after a fetch, after she picks Bob and
    then herself in the search, and after an update of Bob's profile. *)
Lemma roster_has_each_user_once_witness :
  let es := [fetched Sample.people;
             picked (Sample.person Sample.bob "bob" None);
             picked (Sample.person Sample.alice "alice" None);
             updated (Sample.person Sample.bob "bobby" (Some Sample.noon))] in
  NoDup (map Db.p_id (Roster.users (roster_run Sample.alice es (Roster.mkRoster [] false))))
  /\ ~ In Sample.alice
         (map Db.p_id (Roster.users (roster_run Sample.alice es (Roster.mkRoster [] false)))).
Proof.
  intros es.
  apply (roster_has_each_user_once Sample.alice es (Roster.mkRoster [] false)).
  - intros ps [H|[H|[H|[H|[]]]]]; try discriminate H.
    injection H as <-. vm_compute. repeat constructor; simpl; intuition discriminate.
  - constructor.
  - intros [].
Defined.

(** ** The sign-up trigger *)

Section SignupFacts.
Import Signup.

Lemma append_empty_r s : String.append s "" = s.
Proof. induction s as [|c s IH]; simpl; congruence. Qed.

Lemma to_uint_printable n : Nat.to_uint n <> Decimal.Nil.
Proof.
  intros H. pose proof (DecimalNat.Unsigned.of_to n) as E. rewrite H in E.
  simpl in E. subst n. discriminate H.
Qed.

Lemma decimal_inj a b : decimal a = decimal b -> a = b.
Proof.
  unfold decimal. intros H. apply DecimalNat.Unsigned.to_uint_inj.
  pose proof (DecimalString.NilZero.usu _ (to_uint_printable a)) as Ia.
  pose proof (DecimalString.NilZero.usu _ (to_uint_printable b)) as Ib.
  rewrite H in Ia. congruence.
Qed.

Lemma decimal_nonempty n : decimal n <> "".
Proof.
  unfold decimal. intros H.
  pose proof (DecimalString.NilZero.usu _ (to_uint_printable n)) as I.
  rewrite H in I. discriminate I.
Qed.

Lemma candidate_inj base j k : candidate base j = candidate base k -> j = k.
Proof.
  destruct j as [|j], k as [|k]; simpl; intros H.
  - reflexivity.
  - rewrite <- (append_empty_r base) in H at 1.
    apply append_cancel in H. symmetry in H. now apply decimal_nonempty in H.
  - rewrite <- (append_empty_r base) in H at 2.
    apply append_cancel in H. now apply decimal_nonempty in H.
  - apply append_cancel in H. now apply decimal_inj.
Qed.

Lemma username_taken_In ps name :
  username_taken ps name = true <-> In name (map Db.username ps).
Proof.
  unfold username_taken. rewrite existsb_exists, in_map_iff.
  split; intros (p & A & B).
  - exists p. split; [now apply String.eqb_eq | exact A].
  - exists p. split; [exact B | now apply String.eqb_eq].
Qed.

Lemma has_profile_In ps (u : uuid) :
  Db.has_profile ps u = true <-> In u (map Db.p_id ps).
Proof.
  unfold Db.has_profile. rewrite existsb_exists, in_map_iff.
  split; intros (p & A & B).
  - exists p. split; [now apply String.eqb_eq | exact A].
  - exists p. split; [exact B | now apply String.eqb_eq].
Qed.

Lemma NoDup_snoc {A} (l : list A) x : NoDup l -> ~ In x l -> NoDup (l ++ [x]).
Proof.
  intros Hnd Hx. apply NoDup_app; [exact Hnd | repeat constructor; intros [] |].
  intros y Hy [<-|[]]. contradiction.
Qed.

Lemma NoDup_map_injective {A B} (f : A -> B) l :
  (forall x y, f x = f y -> x = y) -> NoDup l -> NoDup (map f l).
Proof.
  intros Hf. induction 1 as [|x l Hx _ IH]; simpl; constructor; [|exact IH].
  intros Hin. apply in_map_iff in Hin. destruct Hin as (y & Hy & Hin).
  apply Hf in Hy. now subst y.
Qed.

(** The loop from the candidate [c]: it stops at the first candidate that is
    free, or has found the [rounds + 1] candidates from [c] on taken. *)
Lemma free_username_spec rounds ps base : forall c,
  match free_username rounds ps base c (candidate base c) with
  | Some name =>
      exists k, (c <= k <= c + rounds)%nat /\ name = candidate base k
                /\ username_taken ps name = false
                /\ forall j, (c <= j < k)%nat ->
                             username_taken ps (candidate base j) = true
  | None =>
      forall j, (c <= j <= c + rounds)%nat ->
                username_taken ps (candidate base j) = true
  end.
Proof.
  induction rounds as [|r IH]; intros c; simpl.
  - destruct (username_taken ps (candidate base c)) eqn:E.
    + intros j Hj. now replace j with c by lia.
    + exists c. repeat split; auto; lia.
  - destruct (username_taken ps (candidate base c)) eqn:E.
    + specialize (IH (S c)). change (String.append base (decimal (S c)))
        with (candidate base (S c)).
      destruct (free_username r ps base (S c) (candidate base (S c))) as [name|].
      * destruct IH as (k & Hk & Hn & Hf & Hall). exists k.
        repeat split; auto; try lia. intros j Hj.
        destruct (Nat.eq_dec j c) as [->|Hne]; [exact E | apply Hall; lia].
      * intros j Hj.
        destruct (Nat.eq_dec j c) as [->|Hne]; [exact E | apply IH; lia].
    + exists c. repeat split; auto; lia.
Qed.

(** Pigeonhole: the candidates 0 .. [length ps] cannot all be taken. *)
Lemma free_username_found ps base :
  free_username (List.length ps) ps base 0 base <> None.
Proof.
  intros H. pose proof (free_username_spec (List.length ps) ps base 0) as Hspec.
  change (candidate base 0) with base in Hspec. rewrite H in Hspec.
  set (cands := map (candidate base) (seq 0 (S (List.length ps)))).
  assert (Hnd : NoDup cands).
  { apply NoDup_map_injective; [|apply seq_NoDup].
    intros j k. apply candidate_inj. }
  assert (Hincl : incl cands (map Db.username ps)).
  { intros name Hin. apply in_map_iff in Hin. destruct Hin as (j & <- & Hj).
    apply in_seq in Hj. apply username_taken_In. apply Hspec. lia. }
  pose proof (NoDup_incl_length Hnd Hincl) as Hlen.
  unfold cands in Hlen. rewrite !length_map, length_seq in Hlen. lia.
Qed.

End SignupFacts.

(** X26. The loop of the sign-up trigger ends: among the base name and the
    base name followed by 1, 2, ..., up to the number of profiles, one is
    free, and the trigger takes the first.  So a sign-up whose name is not
    null creates the profile under a handle nobody has, handles and ids
    stay unique, and next to a null name the only failure is an id that
    already has a profile. *)
Theorem sign_up_takes_the_first_free_handle :
  forall (NEW : Session.User) (now : timestamp) (ps : list Db.profile),
    match Signup.handle_new_user NEW now ps with
    | Signup.Created ps' =>
        exists base k p,
          Signup.base_username NEW = Some base
          /\ ps' = ps ++ [p]
          /\ Db.p_id p = Session.u_id NEW
          /\ (k <= List.length ps)%nat
          /\ Db.username p = candidate base k
          /\ Signup.username_taken ps (Db.username p) = false
          /\ (forall j, (j < k)%nat ->
                        Signup.username_taken ps (candidate base j) = true)
          /\ (NoDup (map Db.username ps) -> NoDup (map Db.username ps'))
          /\ (NoDup (map Db.p_id ps) -> NoDup (map Db.p_id ps'))
    | Signup.Raised e =>
        (e = Signup.not_null_violation /\ Signup.base_username NEW = None)
        \/ (e = Signup.duplicate_key
            /\ Db.has_profile ps (Session.u_id NEW) = true)
    end.
Proof.
  intros NEW now ps. unfold Signup.handle_new_user.
  destruct (Signup.base_username NEW) as [base|]; [|left; auto].
  pose proof (free_username_spec (List.length ps) ps base 0) as Hspec.
  pose proof (free_username_found ps base) as F.
  change (candidate base 0) with base in Hspec.
  destruct (Signup.free_username (List.length ps) ps base 0 base) as [name|];
    [|now elim F].
  destruct (Db.has_profile ps (Session.u_id NEW)) eqn:Hp; [right; auto|].
  destruct Hspec as (k & Hk & Hn & Hfree & Hall).
  eexists base, k, _. split; [reflexivity|]. split; [reflexivity|]. simpl.
  split; [reflexivity|]. split; [lia|]. split; [exact Hn|].
  split; [exact Hfree|]. split; [intros j Hj; apply Hall; lia|]. split.
  - intros Hnd. rewrite map_app. simpl.
    apply NoDup_snoc; [exact Hnd|].
    intros Hin. apply username_taken_In in Hin. congruence.
  - intros Hnd. rewrite map_app. simpl.
    apply NoDup_snoc; [exact Hnd|].
    intros Hin. apply has_profile_In in Hin. congruence.
Qed.

(** X27. The trigger and the client's fallback name a new user alike:
    when the metadata has a username, or the e-mail a local part, and that
    name is free, the profile the trigger creates has the handle
    [ensureProfileExists] would insert, and, when the metadata has a full
    name, the same full name. *)
Theorem trigger_and_client_name_alike :
  forall (NEW : Session.User) (now : timestamp) (ps ps' : list Db.profile),
    truthy (Session.meta_username NEW) = true
    \/ truthy (Session.email_local NEW) = true ->
    Signup.username_taken ps (Session.default_username NEW) = false ->
    Signup.handle_new_user NEW now ps = Signup.Created ps' ->
    exists p,
      ps' = ps ++ [p]
      /\ Db.username p = Session.default_username NEW
      /\ (truthy (Session.meta_full_name NEW) = true ->
          Db.full_name p = Some (Session.default_full_name NEW)).
Proof.
  intros NEW now ps ps' Hname Hfree.
  assert (Hbase : Signup.base_username NEW = Some (Session.default_username NEW)).
  { unfold Signup.base_username, Session.default_username, or_else, truthy in *.
    destruct (Session.meta_username NEW) as [u|]; simpl in *.
    - destruct (String.eqb u ""); simpl in *; [|reflexivity].
      destruct Hname as [Hn|Hn]; [discriminate|].
      destruct (Session.email_local NEW) as [l|]; [|discriminate].
      now destruct (String.eqb l ""); [discriminate|].
    - destruct Hname as [Hn|Hn]; [discriminate|].
      destruct (Session.email_local NEW) as [l|]; [|discriminate].
      now destruct (String.eqb l ""); [discriminate|]. }
  unfold Signup.handle_new_user. rewrite Hbase.
  replace (Signup.free_username (List.length ps) ps (Session.default_username NEW) 0
             (Session.default_username NEW))
    with (Some (Session.default_username NEW))
    by (destruct (List.length ps); simpl; now rewrite Hfree).
  destruct (Db.has_profile ps (Session.u_id NEW)); [discriminate|].
  intros [= <-]. eexists. split; [reflexivity|]. split; [reflexivity|].
  simpl. unfold Session.default_full_name, or_else, truthy.
  destruct (Session.meta_full_name NEW) as [f|]; [|discriminate].
  now destruct (String.eqb f "").
Qed.

(** X27, on the sample: Erin signs up as [erin]. *)
Lemma trigger_and_client_name_alike_witness :
  exists p,
    Db.username p = Session.default_username Sample.erin
    /\ Signup.handle_new_user Sample.erin Sample.noon Sample.people
       = Signup.Created (Sample.people ++ [p]).
Proof.
  destruct (Signup.handle_new_user Sample.erin Sample.noon Sample.people)
    as [ps'|e] eqn:E; [|discriminate E].
  destruct (trigger_and_client_name_alike Sample.erin Sample.noon Sample.people ps')
    as (p & Hp & Hu & _).
  - vm_compute. tauto.
  - reflexivity.
  - exact E.
  - exists p. split; [exact Hu | now rewrite Hp].
Defined.

(** ** The composer *)

Section ComposerFacts.
Import Directory.

(** What [trim] leaves of a text that is not blank: the text without the
    white space in front of it and behind it, which is not blank and has no
    white space at either end. *)
Lemma trim_spec s :
  blank s = false ->
  (exists pre post,
      chars s = pre ++ chars (trim s) ++ post
      /\ blank_chars pre = true /\ blank_chars post = true)
  /\ blank (trim s) = false
  /\ space_head (chars (trim s)) = false
  /\ (forall a b, chars (trim s) = a ++ b -> b <> [] -> blank_chars b = false).
Proof.
  intros Hb. rewrite trim_chars. unfold blank in *. rewrite trim_chars.
  destruct (trim_start_split (chars s)) as (pre & Hpre & Bpre).
  destruct (trim_end_split (trim_start (chars s))) as (post & Hpost & Bpost).
  assert (Hne : trim_end (trim_start (chars s)) <> []).
  { intros H. apply trim_end_nil in H. rewrite trim_start_blank in H. congruence. }
  split; [|split; [|split]].
  - exists pre, post. split; [|auto]. rewrite <- Hpost. exact Hpre.
  - now apply (trim_end_tail (trim_start (chars s)) []).
  - apply trim_head.
  - intros a b. apply trim_end_tail.
Qed.

End ComposerFacts.

(** X28. The composer sends nothing and stays as it is when the text is
    blank (when trimming it leaves the empty text), when a send is under way
    or when nobody is signed in.  Otherwise it issues one insert, of the text
    without the white space in front of it and behind it, which is not blank
    and has no white space at either end; it ends with [sending] off; it
    empties the box and schedules the refresh exactly when the insert did not
    fail, and keeps the text when it failed. *)
Theorem composer_submit :
  forall (user currentUser : option uuid) (selectedUser : uuid)
         (env : MessageStore.send_env) (c : Composer.composer)
         (st : MessageStore.store),
    (Directory.blank (Composer.message c) = true
     <-> Directory.trim (Composer.message c) = "")
    /\ ((user = None \/ Directory.blank (Composer.message c) = true
         \/ Composer.sending c = true) ->
        Composer.handleSubmit user currentUser selectedUser env c st = (c, st, false))
    /\ (forall me,
          user = Some me ->
          Directory.blank (Composer.message c) = false ->
          Composer.sending c = false ->
          let content := Directory.trim (Composer.message c) in
          let out := Composer.handleSubmit user currentUser selectedUser env c st in
          (exists pre post,
              Directory.chars (Composer.message c)
              = pre ++ Directory.chars content ++ post
              /\ Directory.blank_chars pre = true
              /\ Directory.blank_chars post = true)
          /\ Directory.blank content = false
          /\ space_head (Directory.chars content) = false
          /\ (forall a b, Directory.chars content = a ++ b -> b <> [] ->
                          Directory.blank_chars b = false)
          /\ Composer.sending (fst (fst out)) = false
          /\ filter (fun r => match r with
                              | MessageStore.insert_message _ => true
                              | _ => false
                              end)
                    (skipn (List.length (MessageStore.issued st))
                           (MessageStore.issued (snd (fst out))))
             = [MessageStore.insert_message
                  (MessageStore.send_insert content me selectedUser env)]
          /\ (error (MessageStore.insert_reply env) = None ->
              Composer.message (fst (fst out)) = "" /\ snd out = true)
          /\ (error (MessageStore.insert_reply env) <> None ->
              Composer.message (fst (fst out)) = Composer.message c
              /\ snd out = false)).
Proof.
  intros user currentUser selectedUser env c st. split; [|split].
  - symmetry. apply trim_empty.
  - intros H. unfold Composer.handleSubmit. destruct user as [me|]; [|reflexivity].
    destruct H as [H|[H|H]]; [discriminate | rewrite H; reflexivity |].
    rewrite H, orb_true_r. reflexivity.
  - intros me -> Hb Hs content out.
    destruct (trim_spec _ Hb) as (Hsplit & Hnb & Hhead & Htail).
    split; [exact Hsplit|]. split; [exact Hnb|]. split; [exact Hhead|].
    split; [exact Htail|].
    subst out. unfold Composer.handleSubmit. rewrite Hb, Hs. simpl orb. cbv iota.
    fold content.
    destruct (error (MessageStore.insert_reply env)) as [e|] eqn:He.
    + rewrite (sendMessage_failed currentUser content me selectedUser env st e He).
      cbn [fst snd Composer.sending Composer.message MessageStore.issued].
      rewrite skipn_app, skipn_all, Nat.sub_diag. simpl.
      repeat split; auto; try discriminate; try congruence.
    + destruct (MessageStore.insert_reply env) as [[d|] err] eqn:Hr;
        simpl in He; subst err.
      * rewrite (sendMessage_sent currentUser content me selectedUser env st d Hr).
        cbn [fst snd Composer.sending Composer.message MessageStore.issued].
        rewrite skipn_app, skipn_all, Nat.sub_diag. simpl.
        destruct currentUser; simpl;
          repeat split; auto; try discriminate; try congruence.
      * unfold MessageStore.sendMessage, MessageStore.try_catch, MessageStore.bind,
          MessageStore.issue, MessageStore.setMessages, MessageStore.throw,
          MessageStore.updateLastSeen, MessageStore.markMessagesAsDelivered,
          MessageStore.ret.
        simpl. rewrite Hr. simpl.
        destruct currentUser; simpl; unfold MessageStore.issue; simpl;
          rewrite <- ?app_assoc;
          rewrite skipn_app, skipn_all, Nat.sub_diag; simpl;
          repeat split; auto; try discriminate; try congruence.
Qed.

(** X28, on the sample: Alice submits "hi" between no-break spaces and the
    insert is refused. *)
Lemma composer_submit_witness :
  let nbsp := String (ascii_of_N 194) (String (ascii_of_N 160) "") in
  let text := String.append nbsp (String.append "hi" nbsp) in
  let env := MessageStore.mkSendEnv Sample.noon Sample.noon Sample.noon
               (mkReply None None) (mkReply None None)
               (mkReply None (Some (mkError "42501" "row-level security"))) in
  let out := Composer.handleSubmit (Some Sample.alice) (Some Sample.alice) Sample.bob
               env (Composer.mkComposer text false) Sample.empty_store in
  Directory.trim text = "hi"
  /\ Composer.message (fst (fst out)) = text /\ snd out = false.
Proof.
  intros nbsp text env out. split; [reflexivity|].
  destruct (composer_submit (Some Sample.alice) (Some Sample.alice) Sample.bob env
              (Composer.mkComposer text false) Sample.empty_store) as (_ & _ & H).
  destruct (H Sample.alice eq_refl eq_refl eq_refl)
    as (_ & _ & _ & _ & _ & _ & _ & Hfail).
  apply Hfail. discriminate.
Defined.

(** ** The heartbeat *)

Section HeartbeatFacts.
Import Heartbeat.

Lemma clear_last_tidy t : tidy t -> clear_last t = [].
Proof.
  unfold tidy, clear_last. intros [[H|(i & H & L)] _].
  - rewrite H. now destruct (lastSeenInterval t).
  - rewrite L, H. unfold clearInterval. simpl. now rewrite Nat.eqb_refl.
Qed.

Lemma listener_keeps_tidy e t :
  from_listener e = true -> tidy t -> tidy (step e t).
Proof.
  intros He Ht. pose proof (clear_last_tidy t Ht) as Hc.
  destruct e; try discriminate He; simpl.
  - destruct (mounted t) eqn:M; [|exact Ht]. rewrite Hc. split; simpl.
    + right. now exists (next_id t).
    + discriminate.
  - destruct (mounted t) eqn:M; [|exact Ht]. rewrite Hc. split; simpl; auto.
  - rewrite Hc. split; simpl; auto.
Qed.

Lemma listener_run_tidy es : forall t,
  forallb from_listener es = true -> tidy t -> tidy (run es t).
Proof.
  unfold run. induction es as [|e es IH]; simpl; intros t H Ht; [exact Ht|].
  apply andb_true_iff in H. destruct H as [He Hes].
  apply IH; [exact Hes | now apply listener_keeps_tidy].
Qed.

Lemma step_keeps_stray i e t :
  In i (running t) /\ (i < next_id t)%nat /\ lastSeenInterval t <> Some i ->
  In i (running (step e t)) /\ (i < next_id (step e t))%nat
  /\ lastSeenInterval (step e t) <> Some i.
Proof.
  intros (Hin & Hlt & Hne).
  assert (Hc : In i (clear_last t)).
  { unfold clear_last. destruct (lastSeenInterval t) as [j|]; [|exact Hin].
    unfold clearInterval. apply filter_In. split; [exact Hin|].
    apply negb_true_iff, Nat.eqb_neq. congruence. }
  destruct e; simpl; try (destruct (mounted t)); simpl; auto;
    repeat split; auto; try lia;
    try (apply in_or_app; now left);
    intros [= E]; lia.
Qed.

End HeartbeatFacts.

(** X29. When [initializeAuth] is through before the listener first fires,
    at most one heartbeat interval is running after every event that
    follows, and none after a sign-out or after the provider is unmounted. *)
Theorem one_heartbeat_at_a_time :
  forall (first : Heartbeat.event) (rest : list Heartbeat.event),
    Heartbeat.from_listener first = false ->
    forallb Heartbeat.from_listener rest = true ->
    let t := Heartbeat.run (first :: rest) Heartbeat.fresh_provider in
    (List.length (Heartbeat.running t) <= 1)%nat
    /\ (forall front e, rest = front ++ [e] ->
          e = Heartbeat.signed_out \/ e = Heartbeat.unmounted ->
          Heartbeat.running t = []).
Proof.
  intros first rest Hf Hr t.
  assert (H1 : tidy (Heartbeat.step first Heartbeat.fresh_provider)).
  { destruct first; try discriminate Hf; split; simpl; auto; try discriminate.
    right. now exists 1%nat. }
  split.
  - pose proof (listener_run_tidy rest _ Hr H1) as [[H|(i & H & _)] _];
      subst t; unfold Heartbeat.run in *; simpl; rewrite H; simpl; lia.
  - intros front e -> He. rewrite forallb_app in Hr.
    apply andb_true_iff in Hr. destruct Hr as [Hfront _].
    pose proof (listener_run_tidy front _ Hfront H1) as Ht.
    subst t. unfold Heartbeat.run in *. simpl. rewrite fold_left_app. simpl.
    pose proof (clear_last_tidy _ Ht) as Hc. destruct Ht as [_ Hm].
    destruct He as [-> | ->]; simpl; [|exact Hc].
    destruct (Heartbeat.mounted _) eqn:M; simpl; [exact Hc | now apply Hm].
Qed.

(** X29, on the sample: a session is found, the user signs out, signs in
    again, and the provider is unmounted. *)
Lemma one_heartbeat_at_a_time_witness :
  Heartbeat.running
    (Heartbeat.run [Heartbeat.session_found; Heartbeat.signed_out;
                    Heartbeat.signed_in; Heartbeat.unmounted]
       Heartbeat.fresh_provider) = [].
Proof.
  destruct (one_heartbeat_at_a_time Heartbeat.session_found
              [Heartbeat.signed_out; Heartbeat.signed_in; Heartbeat.unmounted]
              eq_refl eq_refl) as (_ & H).
  apply (H [Heartbeat.signed_out; Heartbeat.signed_in] Heartbeat.unmounted eq_refl).
  now right.
Defined.

(** X30. When the listener has started a heartbeat before [initializeAuth]
    finds the session, the first interval is overwritten without being
    cleared: it keeps running through every later event, the sign-out and
    the unmount included. *)
Theorem early_sign_in_leaves_an_interval_running :
  forall (t : Heartbeat.timers) (i : nat) (rest : list Heartbeat.event),
    Heartbeat.mounted t = true ->
    Heartbeat.lastSeenInterval t = Some i ->
    In i (Heartbeat.running t) ->
    (i < Heartbeat.next_id t)%nat ->
    In i (Heartbeat.running (Heartbeat.run (Heartbeat.session_found :: rest) t)).
Proof.
  intros t i rest Hm Hl Hin Hlt. unfold Heartbeat.run. simpl. rewrite Hm.
  set (t1 := Heartbeat.mkTimers _ _ _ _).
  assert (H1 : In i (Heartbeat.running t1) /\ (i < Heartbeat.next_id t1)%nat
               /\ Heartbeat.lastSeenInterval t1 <> Some i).
  { subst t1. simpl. repeat split; [apply in_or_app; now left | lia |].
    intros [= E]. lia. }
  clearbody t1. revert t1 H1.
  induction rest as [|e rest IH]; simpl; intros t1 H1; [apply H1|].
  apply IH. now apply step_keeps_stray.
Qed.

(** X30, on the sample: the listener signs the user in, then the session is
    found, then the provider is unmounted; interval 1 is still running. *)
Lemma early_sign_in_leaves_an_interval_running_witness :
  In 1%nat
     (Heartbeat.running
        (Heartbeat.run [Heartbeat.signed_in; Heartbeat.session_found;
                        Heartbeat.unmounted]
           Heartbeat.fresh_provider)).
Proof.
  apply (early_sign_in_leaves_an_interval_running
           (Heartbeat.run [Heartbeat.signed_in] Heartbeat.fresh_provider) 1%nat
           [Heartbeat.unmounted]).
  - reflexivity.
  - reflexivity.
  - simpl. now left.
  - simpl. lia.
Defined.
